(** * User manager CLI: a shallow embedding and its properties

    The program is a console application that keeps a list of user
    records in one JSON file.  This development embeds its storage
    accessor ([loadUsers], [saveUsers]), its validation functions
    ([isValidEmail], [requireNonEmpty], [parseOptionalAge]), its record
    repository ([addUser], [updateUser], [deleteUser], [searchUsers],
    [listUsers]) and the three mutating menu actions ([handleAdd],
    [handleUpdate], [handleDelete]), and proves what the specification
    says about them.

    Modelling choices, all stated where they are made:
    - a JavaScript string is the list of its UTF-16 code units ([N]);
    - [String.prototype.toLowerCase] is a parameter (class [CaseMap]):
      the Unicode case tables are not reproduced, every theorem holds for
      any lower-casing function;
    - a [number] that is stored in a record is an integer ([Z]); the
      conversion [Number(string)] is modelled exactly, with its rounding
      to the nearest double;
    - the backing file is a value of type [disk]; reading and writing can
      fail; [JSON.parse] and [JSON.stringify(_, null, 2)] are functions
      on code units;
    - [crypto.randomUUID()] is an input of the operation that calls it. *)

From Stdlib Require Import ZArith NArith Lia Bool.
From Stdlib Require Ascii String.
Import String.StringSyntax.
Delimit Scope string_scope with string.
From stdpp Require Import base list option.

Local Open Scope N_scope.

(** ** JavaScript strings *)

Abbreviation jsstring := (list N).

(** A literal: the code units of an ASCII text. *)
Definition str (s : String.string) : jsstring :=
  List.map Ascii.N_of_ascii (String.list_ascii_of_string s).
Arguments str s%_string.

Definition str_eqb (a b : jsstring) : bool := bool_decide (a = b).

(** [WhiteSpace] and [LineTerminator] code points of ECMAScript: what
    [String.prototype.trim] strips and what [\s] matches. *)
Definition is_space (c : N) : bool :=
  (9 <=? c) && (c <=? 13)
  || (c =? 32) || (c =? 160) || (c =? 5760)
  || (8192 <=? c) && (c <=? 8202)
  || (c =? 8232) || (c =? 8233) || (c =? 8239) || (c =? 8287)
  || (c =? 12288) || (c =? 65279).

Fixpoint trimStart (s : jsstring) : jsstring :=
  match s with
  | c :: t => if is_space c then trimStart t else s
  | [] => []
  end.

Definition trimEnd (s : jsstring) : jsstring := rev (trimStart (rev s)).

Definition trim (s : jsstring) : jsstring := trimEnd (trimStart s).

(** [s.startsWith(k)] and [s.includes(k)]. *)
Fixpoint startsWith (s k : jsstring) : bool :=
  match k, s with
  | [], _ => true
  | a :: k', b :: s' => (a =? b) && startsWith s' k'
  | _ :: _, [] => false
  end.

Fixpoint includes (s k : jsstring) : bool :=
  startsWith s k ||
  match s with
  | [] => false
  | _ :: t => includes t k
  end.

(** [String.prototype.toLowerCase].  The only fact about it that the
    program relies on is that it maps the empty string, and nothing
    else, to the empty string. *)
Class CaseMap := {
  toLowerCase : jsstring -> jsstring;
  toLowerCase_nil : forall s, toLowerCase s = [] <-> s = []
}.

(** Lower-casing of the ASCII letters, every other code unit kept: the
    restriction of [toLowerCase] to ASCII texts. *)
Definition ascii_lower (c : N) : N :=
  if (65 <=? c) && (c <=? 90) then c + 32 else c.

Definition AsciiCase : CaseMap.
Proof.
  refine {| toLowerCase := List.map ascii_lower |}.
  intros [|c s]; simpl; split; congruence.
Defined.

(** Two strings that [a.toLowerCase() === b.toLowerCase()] identifies. *)
Definition same_ci `{CaseMap} (a b : jsstring) : bool :=
  str_eqb (toLowerCase a) (toLowerCase b).

(** ** Errors

    The program throws plain [Error] objects that differ by their
    message; the file system rejects with an object that carries a
    [code]; [JSON.parse] throws a [SyntaxError]. *)
Inductive errcode := ENOENT | EACCES.

Inductive error :=
| EmptyField (fieldName : jsstring) (* `${fieldName} không được để trống.` *)
| AgeInvalid          (* "Tuổi phải là số nguyên trong khoảng 0–150." *)
| EmailInvalid        (* "Email không hợp lệ." *)
| EmailExists         (* "Email đã tồn tại." *)
| EmailExistsOther    (* "Email đã tồn tại ở user khác." *)
| UserNotFound        (* "Không tìm thấy User với id đã nhập." *)
| DeleteNotFound      (* "Không tìm thấy User để xoá." *)
| SyntaxError         (* thrown by JSON.parse *)
| SystemError (code : errcode) (* a rejected fs promise, with its e.code *).

(** The error kinds of the specification, read off the message. *)
Inductive kind := ValidationError | ConflictError | NotFoundError | IOError.

Definition kind_of (e : error) : kind :=
  match e with
  | EmptyField _ | AgeInvalid | EmailInvalid => ValidationError
  | EmailExists | EmailExistsOther => ConflictError
  | UserNotFound | DeleteNotFound => NotFoundError
  | SyntaxError | SystemError _ => IOError
  end.

Inductive result (A : Type) :=
| Ok (a : A)
| Throw (e : error).
Arguments Ok {A} a.
Arguments Throw {A} e.

(** ** [Number(string)]

    The grammar [StringNumericLiteral] of ECMAScript and the value it
    denotes, then the rounding of that value to a double. *)

Module Num.

Local Open Scope Z_scope.

(** The mathematical value of a numeric string, before rounding:
    [(-1)^neg * m * 10^e]. *)
Inductive number :=
| NaN
| Infinity (neg : bool)
| Finite (neg : bool) (m : Z) (e : Z).

Definition digit (base : N) (c : N) : option Z :=
  let v :=
    if (48 <=? c)%N && (c <=? 57)%N then Some (c - 48)%N
    else if (97 <=? c)%N && (c <=? 102)%N then Some (c - 87)%N
    else if (65 <=? c)%N && (c <=? 70)%N then Some (c - 55)%N
    else None in
  match v with
  | Some d => if (d <? base)%N then Some (Z.of_N d) else None
  | None => None
  end.

(** The longest prefix of digits of [s] in a base, and what follows. *)
Fixpoint span_digits (base : N) (s : jsstring) : list Z * jsstring :=
  match s with
  | [] => ([], [])
  | c :: t =>
      match digit base c with
      | Some d => let '(ds, r) := span_digits base t in (d :: ds, r)
      | None => ([], s)
      end
  end.

Definition value_of (base : Z) (ds : list Z) : Z :=
  fold_left (fun a d => base * a + d) ds 0.

(** [ExponentPart_opt] followed by the end of the string. *)
Definition exponent_part (s : jsstring) : option Z :=
  match s with
  | [] => Some 0
  | c :: t =>
      if (c =? 101)%N || (c =? 69)%N then
        let '(neg, t') :=
          match t with
          | 43%N :: u => (false, u)
          | 45%N :: u => (true, u)
          | _ => (false, t)
          end in
        match span_digits 10 t' with
        | ((_ :: _) as ds, []) =>
            Some (if neg then - value_of 10 ds else value_of 10 ds)
        | _ => None
        end
      else None
  end.

(** [StrUnsignedDecimalLiteral] *)
Definition unsigned_decimal (neg : bool) (s : jsstring) : number :=
  if str_eqb s (str "Infinity") then Infinity neg
  else
    let '(ds1, r1) := span_digits 10 s in
    let '(ds2, r2) :=
      match r1 with
      | 46%N :: t => span_digits 10 t
      | _ => ([], r1)
      end in
    match ds1, ds2 with
    | [], [] => NaN
    | _, _ =>
        match exponent_part r2 with
        | Some x =>
            Finite neg (value_of 10 (ds1 ++ ds2)) (x - Z.of_nat (length ds2))
        | None => NaN
        end
    end.

(** [NonDecimalIntegerLiteral]: [0b], [0o], [0x] and their capitals. *)
Definition non_decimal (s : jsstring) : option number :=
  match s with
  | 48%N :: p :: t =>
      let base : option N :=
        if (p =? 98)%N || (p =? 66)%N then Some 2%N
        else if (p =? 111)%N || (p =? 79)%N then Some 8%N
        else if (p =? 120)%N || (p =? 88)%N then Some 16%N
        else None in
      match base with
      | Some b =>
          match span_digits b t with
          | ((_ :: _) as ds, []) => Some (Finite false (value_of (Z.of_N b) ds) 0)
          | _ => Some NaN
          end
      | None => None
      end
  | _ => None
  end.

(** [Number(s)] for a string [s]. *)
Definition Number (s : jsstring) : number :=
  match trim s with
  | [] => Finite false 0 0
  | 43%N :: t => unsigned_decimal false t
  | 45%N :: t => unsigned_decimal true t
  | t =>
      match non_decimal t with
      | Some n => n
      | None => unsigned_decimal false t
      end
  end.

(** The double nearest to [a / b] (for [0 <= a], [0 < b]; ties to the
    even significand), when that double is an integer: the binade [E] is
    chosen with [2^52 <= a / (b * 2^E) < 2^53], not below the subnormal
    exponent [-1074]; the significand is [a / (b * 2^E)] rounded. *)
Definition binade (a b : Z) : Z :=
  let E0 := Z.log2 a - Z.log2 b - 52 in
  let below := a * 2 ^ Z.max 0 (- (E0 + 52)) <? b * 2 ^ Z.max 0 (E0 + 52) in
  Z.max (-1074) (if below then E0 - 1 else E0).

Definition significand (a b E : Z) : Z :=
  let num := a * 2 ^ Z.max 0 (- E) in
  let den := b * 2 ^ Z.max 0 E in
  let q := num / den in
  let r := num mod den in
  if 2 * r <? den then q
  else if den <? 2 * r then q + 1
  else if Z.even q then q else q + 1.

Definition nearest_integer (a b : Z) : option Z :=
  if a =? 0 then Some 0
  else
    let E := binade a b in
    let M := significand a b E in
    if 0 <=? E then
      if M * 2 ^ E <? 2 ^ 1024 then Some (M * 2 ^ E) else None
    else if M mod 2 ^ (- E) =? 0 then Some (M / 2 ^ (- E)) else None.

(** [Number.isInteger(n)], with the integer: [None] for [NaN], the
    infinities and the doubles with a fractional part.  The double [-0]
    is an integer and is read as [0]. *)
Definition isInteger (n : number) : option Z :=
  match n with
  | NaN | Infinity _ => None
  | Finite neg m e =>
      let k := if 0 <=? e then nearest_integer (m * 10 ^ e) 1
               else nearest_integer m (10 ^ (- e)) in
      match k with
      | Some v => Some (if neg then - v else v)
      | None => None
      end
  end.

End Num.

(** ** Validation *)

Module Validation.

(** The character class [[^\s@]]. *)
Definition cls (c : N) : bool := negb (is_space c) && negb (c =? 64).

(** [X+ k]: one or more characters of the class, then [k]. *)
Fixpoint plus_then (k : jsstring -> bool) (s : jsstring) : bool :=
  match s with
  | [] => false
  | c :: t => cls c && (k t || plus_then k t)
  end.

(** A literal character, then [k]. *)
Definition lit_then (a : N) (k : jsstring -> bool) (s : jsstring) : bool :=
  match s with
  | [] => false
  | c :: t => (c =? a) && k t
  end.

(** [$] (no [m] flag): the end of the input. *)
Definition at_end (s : jsstring) : bool :=
  match s with [] => true | _ => false end.

(** [/^[^\s@]+@[^\s@]+\.[^\s@]+$/.test(email)] *)
Definition isValidEmail (email : jsstring) : bool :=
  plus_then (lit_then 64 (plus_then (lit_then 46 (plus_then at_end)))) email.

(** [requireNonEmpty(input, fieldName)] *)
Definition requireNonEmpty (input fieldName : jsstring) : result jsstring :=
  let value := trim input in
  match value with
  | [] => Throw (EmptyField fieldName)
  | _ => Ok value
  end.

(** [parseOptionalAge(input)]; [undefined] is [None]. *)
Definition parseOptionalAge (input : jsstring) : result (option Z) :=
  let trimmed := trim input in
  match trimmed with
  | [] => Ok None
  | _ =>
      match Num.isInteger (Num.Number trimmed) with
      | Some n => if (n <? 0)%Z || (150 <? n)%Z then Throw AgeInvalid else Ok (Some n)
      | None => Throw AgeInvalid
      end
  end.

End Validation.

(** ** The data model *)

(** [type User = { id: string; name: string; email: string; age?: number }].
    An [age] that is [undefined] or missing is [None]; a stored number is
    an integer. *)
Record User := {
  id : jsstring;
  name : jsstring;
  email : jsstring;
  age : option Z
}.

(** An integer that a double holds exactly. *)
Definition safe (a : Z) : Prop := (Z.abs a <= 2 ^ 53)%Z.

Definition safe_age (u : User) : Prop :=
  match age u with Some a => safe a | None => True end.

(** ** JSON *)

Module JSON.

(** A parsed JSON text.  A number keeps its exact decimal value
    [(-1)^neg * m * 10^e]. *)
#[warnings="-register-all"]
Inductive json :=
| JNull
| JBool (b : bool)
| JNumber (neg : bool) (m : N) (e : Z)
| JString (s : jsstring)
| JArray (l : list json)
| JObject (l : list (jsstring * json)).

(** *** [JSON.parse] *)

Definition is_ws (c : N) : bool :=
  (c =? 32) || (c =? 9) || (c =? 10) || (c =? 13).

Fixpoint skip_ws (s : jsstring) : jsstring :=
  match s with
  | c :: t => if is_ws c then skip_ws t else s
  | [] => []
  end.

Definition simple_escape (e : N) : option N :=
  if e =? 34 then Some 34
  else if e =? 92 then Some 92
  else if e =? 47 then Some 47
  else if e =? 98 then Some 8
  else if e =? 102 then Some 12
  else if e =? 110 then Some 10
  else if e =? 114 then Some 13
  else if e =? 116 then Some 9
  else None.

Definition hex4 (h1 h2 h3 h4 : N) : option N :=
  match Num.digit 16 h1, Num.digit 16 h2, Num.digit 16 h3, Num.digit 16 h4 with
  | Some a, Some b, Some c, Some d =>
      Some (Z.to_N (((a * 16 + b) * 16 + c) * 16 + d))
  | _, _, _, _ => None
  end.

Definition cons_fst (c : N) (r : option (jsstring * jsstring)) :
  option (jsstring * jsstring) :=
  match r with
  | Some (s, rest) => Some (c :: s, rest)
  | None => None
  end.

(** The characters of a string literal after its opening quote, up to
    the closing quote, and what follows it. *)
Fixpoint parse_chars (s : jsstring) : option (jsstring * jsstring) :=
  match s with
  | [] => None
  | c :: t =>
      if c =? 34 then Some ([], t)
      else if c =? 92 then
        match t with
        | [] => None
        | e :: t' =>
            if e =? 117 then
              match t' with
              | h1 :: h2 :: h3 :: h4 :: t'' =>
                  match hex4 h1 h2 h3 h4 with
                  | Some v => cons_fst v (parse_chars t'')
                  | None => None
                  end
              | _ => None
              end
            else
              match simple_escape e with
              | Some v => cons_fst v (parse_chars t')
              | None => None
              end
        end
      else if c <? 32 then None
      else cons_fst c (parse_chars t)
  end.

(** [-? int frac? exp?], with [int] either [0] or without leading zero. *)
Definition parse_number (s : jsstring) : option (json * jsstring) :=
  let '(neg, s1) := match s with 45 :: t => (true, t) | _ => (false, s) end in
  let '(ds1, r1) := Num.span_digits 10 s1 in
  match ds1 with
  | [] => None
  | 0%Z :: _ :: _ => None
  | _ =>
      let frac :=
        match r1 with
        | 46 :: t =>
            match Num.span_digits 10 t with
            | ([], _) => None
            | (ds, r) => Some (ds, r)
            end
        | _ => Some ([], r1)
        end in
      match frac with
      | None => None
      | Some (ds2, r2) =>
          let m := Z.to_N (Num.value_of 10 (ds1 ++ ds2)) in
          let k := Z.of_nat (length ds2) in
          match r2 with
          | c :: t =>
              if (c =? 101) || (c =? 69) then
                let '(eneg, t') :=
                  match t with
                  | 43 :: u => (false, u)
                  | 45 :: u => (true, u)
                  | _ => (false, t)
                  end in
                match Num.span_digits 10 t' with
                | ([], _) => None
                | (ds3, r3) =>
                    let x := Num.value_of 10 ds3 in
                    Some (JNumber neg m ((if eneg then - x else x) - k)%Z, r3)
                end
              else Some (JNumber neg m (- k)%Z, r2)
          | [] => Some (JNumber neg m (- k)%Z, [])
          end
      end
  end.

Fixpoint parse_value (fuel : nat) (s : jsstring) : option (json * jsstring) :=
  match fuel with
  | O => None
  | S f =>
      match skip_ws s with
      | 110 :: 117 :: 108 :: 108 :: r => Some (JNull, r)
      | 116 :: 114 :: 117 :: 101 :: r => Some (JBool true, r)
      | 102 :: 97 :: 108 :: 115 :: 101 :: r => Some (JBool false, r)
      | 34 :: t =>
          match parse_chars t with
          | Some (v, r) => Some (JString v, r)
          | None => None
          end
      | 91 :: t =>
          match skip_ws t with
          | 93 :: r => Some (JArray [], r)
          | t' =>
              match parse_elements f t' with
              | Some (vs, r) => Some (JArray vs, r)
              | None => None
              end
          end
      | 123 :: t =>
          match skip_ws t with
          | 125 :: r => Some (JObject [], r)
          | t' =>
              match parse_members f t' with
              | Some (kvs, r) => Some (JObject kvs, r)
              | None => None
              end
          end
      | t => parse_number t
      end
  end
with parse_elements (fuel : nat) (s : jsstring) : option (list json * jsstring) :=
  match fuel with
  | O => None
  | S f =>
      match parse_value f s with
      | Some (v, r) =>
          match skip_ws r with
          | 44 :: r' =>
              match parse_elements f r' with
              | Some (vs, r'') => Some (v :: vs, r'')
              | None => None
              end
          | 93 :: r' => Some ([v], r')
          | _ => None
          end
      | None => None
      end
  end
with parse_members (fuel : nat) (s : jsstring) :
  option (list (jsstring * json) * jsstring) :=
  match fuel with
  | O => None
  | S f =>
      match skip_ws s with
      | 34 :: t =>
          match parse_chars t with
          | Some (k, r) =>
              match skip_ws r with
              | 58 :: r1 =>
                  match parse_value f r1 with
                  | Some (v, r2) =>
                      match skip_ws r2 with
                      | 44 :: r3 =>
                          match parse_members f r3 with
                          | Some (kvs, r4) => Some ((k, v) :: kvs, r4)
                          | None => None
                          end
                      | 125 :: r3 => Some ([(k, v)], r3)
                      | _ => None
                      end
                  | None => None
                  end
              | _ => None
              end
          | None => None
          end
      | _ => None
      end
  end.

(** [JSON.parse(text)]; [None] is the [SyntaxError].  Every call of the
    three functions above has consumed a character since the call two
    levels up, so twice the length of the text is fuel enough. *)
Definition parse (text : jsstring) : option json :=
  match parse_value (2 * length text + 2) text with
  | Some (v, r) => match skip_ws r with [] => Some v | _ => None end
  | None => None
  end.

(** *** [JSON.stringify(users, null, 2)] for [users : User[]] *)

Definition is_high (c : N) : bool := (55296 <=? c) && (c <=? 56319).
Definition is_low (c : N) : bool := (56320 <=? c) && (c <=? 57343).

Definition hexchar (d : N) : N := if d <? 10 then 48 + d else 87 + d.

(** [\uXXXX], lower-case digits. *)
Definition uescape (c : N) : jsstring :=
  [92; 117; hexchar (c / 4096 mod 16); hexchar (c / 256 mod 16);
   hexchar (c / 16 mod 16); hexchar (c mod 16)].

Definition escape1 (c : N) : jsstring :=
  if c =? 8 then [92; 98]
  else if c =? 9 then [92; 116]
  else if c =? 10 then [92; 110]
  else if c =? 12 then [92; 102]
  else if c =? 13 then [92; 114]
  else if c =? 34 then [92; 34]
  else if c =? 92 then [92; 92]
  else if c <? 32 then uescape c
  else [c].

(** [QuoteJSONString] without its quotes: the control characters, the
    quote, the backslash and the surrogates that are not in a pair are
    escaped. *)
Fixpoint quote_body (s : jsstring) : jsstring :=
  match s with
  | [] => []
  | c :: t =>
      if is_high c then
        match t with
        | d :: t' =>
            if is_low d then c :: d :: quote_body t'
            else uescape c ++ quote_body t
        | [] => uescape c
        end
      else if is_low c then uescape c ++ quote_body t
      else escape1 c ++ quote_body t
  end.

Definition quote (s : jsstring) : jsstring := 34 :: quote_body s ++ [34].

(** The decimal digits of a natural number, most significant first. *)
Fixpoint digits_of (fuel : nat) (n : N) : jsstring :=
  match fuel with
  | O => [48 + n mod 10]
  | S f => if n <? 10 then [48 + n] else digits_of f (n / 10) ++ [48 + n mod 10]
  end.

(** [Number::toString] of an integer that a double holds exactly (of
    magnitude at most [2^53], see [safe]): JavaScript prints every digit
    of such a number, as this function does.  Of a larger number
    JavaScript prints the shortest digits that read back to the same
    double, and from [10^21] on the exponent form; this function is not
    [Number::toString] there, and no statement uses it there. *)
Definition print_int (z : Z) : jsstring :=
  match z with
  | Zneg p => 45 :: digits_of (N.to_nat (N.log2 (Npos p))) (Npos p)
  | _ => digits_of (N.to_nat (N.log2 (Z.to_N z))) (Z.to_N z)
  end.

(** One property of an object at depth two: four spaces, the quoted key,
    a colon, a space, the value. *)
Definition member (key : String.string) (value : jsstring) : jsstring :=
  [32; 32; 32; 32; 34] ++ str key ++ [34; 58; 32] ++ value.
Arguments member key%_string value.

(** A property whose value is [undefined] is left out. *)
Definition stringify_User (u : User) : jsstring :=
  [123; 10] ++ member "id" (quote (id u)) ++
  [44; 10] ++ member "name" (quote (name u)) ++
  [44; 10] ++ member "email" (quote (email u)) ++
  match age u with
  | Some a => [44; 10] ++ member "age" (print_int a)
  | None => []
  end ++ [10; 32; 32; 125].

Definition stringify (users : list User) : jsstring :=
  match users with
  | [] => [91; 93]
  | u :: us =>
      [91; 10; 32; 32] ++ stringify_User u ++
      flat_map (fun v => [44; 10; 32; 32] ++ stringify_User v) us ++ [10; 93]
  end.

(** *** The cast [parsed as User[]]

    TypeScript does not check the cast.  The embedding follows the
    declared type: [as_Users] is defined on the arrays whose elements
    are objects with the string properties [id], [name], [email] and
    possibly a last property [age] whose value is an integer that a
    double holds exactly, in this order, which is the order in which
    the program writes them, and with no other property.  On such a
    file what the embedding writes back is, character by character,
    what the program writes back.  On any other array [as_Users] is
    [None]: an element that is not an object ([null], a number), the
    properties in another order, a further property, an age that is
    not an integer or not a number.  The program serves such an array
    unchecked (it loads [[null]] as a list of one element and fails
    when it prints it); what it does with such a value is outside this
    development, and every statement below about a loaded list is about
    a list of records of the declared type. *)

(** The first property of an object, when it has the given name, and
    the properties after it. *)
Definition property (key : String.string) (kvs : list (jsstring * json))
  : option (json * list (jsstring * json)) :=
  match kvs with
  | (k, v) :: r => if str_eqb k (str key) then Some (v, r) else None
  | [] => None
  end.
Arguments property key%_string kvs.

Definition as_integer (neg : bool) (m : N) (e : Z) : option Z :=
  let m := Z.of_N m in
  let v := if (0 <=? e)%Z then Some (m * 10 ^ e)%Z
           else if (m mod 10 ^ (- e) =? 0)%Z then Some (m / 10 ^ (- e))%Z
           else None in
  match v with
  | Some k => if (k <=? 2 ^ 53)%Z then Some (if neg then - k else k)%Z else None
  | None => None
  end.

Definition as_age (kvs : list (jsstring * json)) : option (option Z) :=
  match kvs with
  | [] => Some None
  | _ =>
      match property "age" kvs with
      | Some (JNumber neg m x, []) =>
          match as_integer neg m x with
          | Some a => Some (Some a)
          | None => None
          end
      | _ => None
      end
  end.

Definition as_User (v : json) : option User :=
  match v with
  | JObject kvs =>
      match property "id" kvs with
      | Some (JString i, r1) =>
          match property "name" r1 with
          | Some (JString n, r2) =>
              match property "email" r2 with
              | Some (JString e, r3) =>
                  match as_age r3 with
                  | Some a => Some {| id := i; name := n; email := e; age := a |}
                  | None => None
                  end
              | _ => None
              end
          | _ => None
          end
      | _ => None
      end
  | _ => None
  end.

Fixpoint as_Users (vs : list json) : option (list User) :=
  match vs with
  | [] => Some []
  | v :: r =>
      match as_User v, as_Users r with
      | Some u, Some us => Some (u :: us)
      | _, _ => None
      end
  end.

(** *** Notions used to state what the codec does *)

(** A decimal digit and its value. *)
Definition is_digit (c : N) (v : Z) : Prop := Num.digit 10 c = Some v.

(** The object that [JSON.parse] builds for a record. *)
Definition User_json (u : User) : json :=
  JObject
    ([(str "id", JString (id u)); (str "name", JString (name u));
      (str "email", JString (email u))] ++
     match age u with
     | Some a => [(str "age", JNumber (a <? 0)%Z (Z.to_N (Z.abs a)) 0)]
     | None => []
     end).

(** The text of the elements after the first one. *)
Definition more_Users (us : list User) : jsstring :=
  flat_map (fun v => [44; 10; 32; 32] ++ stringify_User v) us.

End JSON.

(** ** The backing file *)

(** [DATA_FILE] is missing, cannot be read, or holds a text.  The text
    is the string that [readFile(_, "utf8")] returns. *)
Inductive file :=
| Missing
| Unreadable
| Content (raw : jsstring).

(** The state of the file system: the backing file, and the error with
    which a write is rejected, if writes are rejected (a missing [data]
    directory, a read-only volume).  A rejected write leaves the file as
    it was. *)
Record disk := {
  DATA_FILE : file;
  write_error : option errcode
}.

(** An asynchronous computation over the file system: it fulfils with a
    value or rejects with an error, and leaves a file system.  [None]
    marks a run that met an array outside the declared type [User[]]. *)
Definition M (A : Type) : Type := disk -> option (result A * disk).

Definition ret {A} (a : A) : M A := fun d => Some (Ok a, d).

Definition throw {A} (e : error) : M A := fun d => Some (Throw e, d).

Definition bind {A B} (m : M A) (k : A -> M B) : M B :=
  fun d =>
    match m d with
    | Some (Ok a, d') => k a d'
    | Some (Throw e, d') => Some (Throw e, d')
    | None => None
    end.

(** [try { m } catch (e) { h e }] *)
Definition catch {A} (m : M A) (h : error -> M A) : M A :=
  fun d =>
    match m d with
    | Some (Throw e, d') => h e d'
    | r => r
    end.

Definition lift {A} (r : result A) : M A := fun d => Some (r, d).

Notation "'let*' x ':=' m 'in' k" := (bind m (fun x => k))
  (at level 10, x pattern, m at level 100, k at level 200).

(** [fs.readFile(DATA_FILE, "utf8")] *)
Definition readFile : M jsstring :=
  fun d =>
    match DATA_FILE d with
    | Missing => Some (Throw (SystemError ENOENT), d)
    | Unreadable => Some (Throw (SystemError EACCES), d)
    | Content raw => Some (Ok raw, d)
    end.

(** [fs.writeFile(DATA_FILE, text, "utf8")] *)
Definition writeFile (text : jsstring) : M unit :=
  fun d =>
    match write_error d with
    | Some code => Some (Throw (SystemError code), d)
    | None => Some (Ok tt, {| DATA_FILE := Content text; write_error := None |})
    end.

(** ** I/O helpers *)

Definition saveUsers (users : list User) : M unit :=
  writeFile (JSON.stringify users).

(** [parsed as User[]] *)
Definition cast (vs : list JSON.json) : M (list User) :=
  fun d =>
    match JSON.as_Users vs with
    | Some us => Some (Ok us, d)
    | None => None
    end.

Definition loadUsers : M (list User) :=
  catch
    (let* raw := readFile in
     match JSON.parse raw with
     | None => throw SyntaxError
     | Some (JSON.JArray vs) => cast vs
     | Some _ => ret []
     end)
    (fun e =>
       match e with
       | SystemError ENOENT => let* _ := saveUsers [] in ret []
       | _ => throw e
       end).

(** ** CRUD *)

Import Validation.

(** [Partial<Omit<User, "id">>]: each property is given or left out. *)
Record Updates := {
  upd_name : option jsstring;
  upd_email : option jsstring;
  upd_age : option Z
}.

(** [{ ...user, ...updates }] *)
Definition spread (user : User) (updates : Updates) : User :=
  {| id := id user;
     name := default (name user) (upd_name updates);
     email := default (email user) (upd_email updates);
     age := match upd_age updates with Some a => Some a | None => age user end |}.

(** [l.findIndex(p)]; [None] is [-1]. *)
Fixpoint findIndex {A} (p : A -> bool) (l : list A) : option nat :=
  match l with
  | [] => None
  | x :: t => if p x then Some O else S <$> findIndex p t
  end.

Section Repository.

Context `{CaseMap}.

(** [addUser(name, email, age)], with the value [uuid] that
    [randomUUID()] returns when it is called. *)
Definition addUser (uuid : jsstring) (name_ email_ : jsstring) (age_ : option Z)
  : M User :=
  let* users := loadUsers in
  if negb (isValidEmail email_) then throw EmailInvalid
  else if existsb (fun u => same_ci (email u) email_) users then throw EmailExists
  else
    let user := {| id := uuid; name := name_; email := email_; age := age_ |} in
    let users := users ++ [user] in
    let* _ := saveUsers users in
    ret user.

(** The check of [updates.email] in [updateUser]: the empty string is
    falsy and skips it. *)
Definition check_email (users : list User) (id_ : jsstring) (updates : Updates)
  : M unit :=
  match upd_email updates with
  | Some ((_ :: _) as e) =>
      if negb (isValidEmail e) then throw EmailInvalid
      else if existsb (fun u => same_ci (email u) e && negb (str_eqb (id u) id_)) users
           then throw EmailExistsOther
      else ret tt
  | _ => ret tt
  end.

Definition updateUser (id_ : jsstring) (updates : Updates) : M User :=
  let* users := loadUsers in
  match findIndex (fun u => str_eqb (id u) id_) users with
  | None => throw UserNotFound
  | Some idx =>
      let* _ := check_email users id_ updates in
      match users !! idx with
      | Some user =>
          let updated := spread user updates in
          let users := <[idx := updated]> users in
          let* _ := saveUsers users in
          ret updated
      | None => fun _ => None
      end
  end.

Definition deleteUser (id_ : jsstring) : M bool :=
  let* users := loadUsers in
  let before := length users in
  let filtered := List.filter (fun u => negb (str_eqb (id u) id_)) users in
  if (length filtered =? before)%nat then throw DeleteNotFound
  else
    let* _ := saveUsers filtered in
    ret true.

Definition searchUsers (keyword : jsstring) : M (list User) :=
  let* users := loadUsers in
  let k := toLowerCase (trim keyword) in
  match k with
  | [] => ret users
  | _ =>
      ret (List.filter (fun u =>
             includes (toLowerCase (id u)) k ||
             includes (toLowerCase (name u)) k ||
             includes (toLowerCase (email u)) k) users)
  end.

Definition listUsers : M (list User) := loadUsers.

(** ** The menu actions that change the store

    Each takes the answers typed at its prompts.  Its [try]/[catch]
    prints the error and returns: the action itself never rejects, and
    its value here is what it printed. *)
Definition printed {A} (m : M A) : M (result A) :=
  fun d =>
    match m d with
    | Some (r, d') => Some (Ok r, d')
    | None => None
    end.

Definition handleAdd (uuid : jsstring) (nameRaw emailRaw ageRaw : jsstring)
  : M (result User) :=
  printed
    (let* name_ := lift (requireNonEmpty nameRaw [84; 234; 110]) in
     let* email_ := lift (requireNonEmpty emailRaw (str "Email")) in
     let* age_ := lift (parseOptionalAge ageRaw) in
     addUser uuid name_ email_ age_).

(** [None] is the message that nothing changes. *)
Definition handleUpdate (idRaw nameRaw emailRaw ageRaw : jsstring)
  : M (result (option User)) :=
  printed
    (let* id_ := lift (requireNonEmpty idRaw (str "ID")) in
     let upd_name_ := match trim nameRaw with [] => None | v => Some v end in
     let upd_email_ := match trim emailRaw with [] => None | v => Some v end in
     let* upd_age_ :=
       match trim ageRaw with
       | [] => ret None
       | _ => lift (parseOptionalAge ageRaw)
       end in
     let updates :=
       {| upd_name := upd_name_; upd_email := upd_email_; upd_age := upd_age_ |} in
     match upd_name_, upd_email_, upd_age_ with
     | None, None, None => ret None
     | _, _, _ =>
         let* updated := updateUser id_ updates in
         ret (Some updated)
     end).

Definition handleDelete (idRaw : jsstring) : M (result bool) :=
  printed
    (let* id_ := lift (requireNonEmpty idRaw (str "ID")) in
     deleteUser id_).

End Repository.

(** ** Notions of the specification *)

(** [k] occurs in [s]. *)
Definition substring (k s : jsstring) : Prop := exists a b, s = a ++ k ++ b.

(** [select P l l']: [l'] holds exactly the elements of [l] that satisfy
    [P], each as often as in [l] and in the order of [l]. *)
Inductive select {A : Type} (P : A -> Prop) : list A -> list A -> Prop :=
| select_nil : select P [] []
| select_keep (x : A) (l l' : list A) :
    P x -> select P l l' -> select P (x :: l) (x :: l')
| select_skip (x : A) (l l' : list A) :
    ~ P x -> select P l l' -> select P (x :: l) l'.

Definition has_id (i : jsstring) (users : list User) : Prop :=
  exists u, u ∈ users /\ id u = i.

(** The validation rules: a name that is not empty and carries no outer
    white space, an e-mail address of the accepted shape, an age that is
    absent or between 0 and 150. *)
Definition valid_age (a : option Z) : Prop :=
  match a with
  | Some n => (0 <= n <= 150)%Z
  | None => True
  end.

Definition valid_User (u : User) : Prop :=
  name u <> [] /\ trim (name u) = name u /\
  isValidEmail (email u) = true /\ valid_age (age u).

Section Store.

Context `{CaseMap}.

Definition unique_ids (users : list User) : Prop := NoDup (id <$> users).

(** No two records with e-mail addresses that differ by case only. *)
Definition unique_emails (users : list User) : Prop :=
  NoDup ((fun u => toLowerCase (email u)) <$> users).

(** The invariant of the store. *)
Definition store_ok (users : list User) : Prop :=
  unique_ids users /\ unique_emails users.

(** A record that a search for the lower-cased key [k] returns. *)
Definition matches (k : jsstring) (u : User) : Prop :=
  substring k (toLowerCase (id u)) \/
  substring k (toLowerCase (name u)) \/
  substring k (toLowerCase (email u)).

End Store.

(** The reading of an age that the specification words: an optional
    sign and decimal digits, nothing else. *)
Module Spec.

Fixpoint all_digits (s : jsstring) : option (list Z) :=
  match s with
  | [] => Some []
  | c :: t =>
      match Num.digit 10 c, all_digits t with
      | Some d, Some ds => Some (d :: ds)
      | _, _ => None
      end
  end.

Definition base10_integer (s : jsstring) : option Z :=
  let '(neg, body) :=
    match s with
    | c :: t => if c =? 45 then (true, t) else if c =? 43 then (false, t) else (false, s)
    | [] => (false, s)
    end in
  match all_digits body with
  | Some ((_ :: _) as ds) =>
      Some (if neg then - Num.value_of 10 ds else Num.value_of 10 ds)%Z
  | _ => None
  end.

Definition parseOptionalAge (input : jsstring) : result (option Z) :=
  match trim input with
  | [] => Ok None
  | t =>
      match base10_integer t with
      | Some n => if (0 <=? n)%Z && (n <=? 150)%Z then Ok (Some n) else Throw AgeInvalid
      | None => Throw AgeInvalid
      end
  end.

End Spec.

(** ** Sample stores *)

Module Sample.

Definition ann : User :=
  {| id := str "u1"; name := str "Ann"; email := str "ann@x.com";
     age := Some 30%Z |}.

Definition bob : User :=
  {| id := str "u2"; name := str "Bob u1"; email := str "bob@x.com";
     age := None |}.

(** A record with an ill-formed address, as a file edited by hand holds. *)
Definition eve : User :=
  {| id := str "u3"; name := str "Eve"; email := str "eve"; age := None |}.

(** A second record with the [id] of [ann]. *)
Definition twin : User :=
  {| id := str "u1"; name := str "Twin"; email := str "twin@x.com";
     age := None |}.

(** The file system after [users] were saved. *)
Definition disk_of (users : list User) : disk :=
  {| DATA_FILE := Content (JSON.stringify users); write_error := None |}.

Definition no_file : disk := {| DATA_FILE := Missing; write_error := None |}.

(** No backing file, and no [data] directory to create it in. *)
Definition no_directory : disk :=
  {| DATA_FILE := Missing; write_error := Some ENOENT |}.

Definition only_email (e : jsstring) : Updates :=
  {| upd_name := None; upd_email := Some e; upd_age := None |}.

Definition only_age (a : Z) : Updates :=
  {| upd_name := None; upd_email := None; upd_age := Some a |}.

End Sample.

(** ** The earlier draft

    The repository also keeps an earlier draft of the program.  It
    differs in the storage accessor and in the repository: a missing
    file is not created, a write that fails is reported and otherwise
    ignored, [addUser] and [updateUser] check nothing, and [searchUsers]
    looks at the name and the e-mail address only.  [deleteUser] has
    the same text and calls the draft's accessor.  The draft's accessor
    also writes messages to the console; they are left out here, where
    a computation is over the file system only.  The two not-found
    errors of the draft carry the message [User not found]; they are
    the constructors of the program's not-found errors here. *)
Module Draft.

Definition saveUsers (users : list User) : M unit :=
  catch (writeFile (JSON.stringify users)) (fun _ => ret tt).

Definition loadUsers : M (list User) :=
  catch
    (let* raw := readFile in
     match JSON.parse raw with
     | None => throw SyntaxError
     | Some (JSON.JArray vs) => cast vs
     | Some _ => ret []
     end)
    (fun e =>
       match e with
       | SystemError ENOENT => ret []
       | _ => throw e
       end).

Definition addUser (uuid : jsstring) (name_ email_ : jsstring) (age_ : option Z)
  : M User :=
  let* users := loadUsers in
  let user := {| id := uuid; name := name_; email := email_; age := age_ |} in
  let users := users ++ [user] in
  let* _ := saveUsers users in
  ret user.

Definition updateUser (id_ : jsstring) (updates : Updates) : M User :=
  let* users := loadUsers in
  match findIndex (fun u => str_eqb (id u) id_) users with
  | None => throw UserNotFound
  | Some idx =>
      match users !! idx with
      | Some user =>
          let updated := spread user updates in
          let users := <[idx := updated]> users in
          let* _ := saveUsers users in
          ret updated
      | None => fun _ => None
      end
  end.

Definition deleteUser (id_ : jsstring) : M bool :=
  let* users := loadUsers in
  let before := length users in
  let filtered := List.filter (fun u => negb (str_eqb (id u) id_)) users in
  if (length filtered =? before)%nat then throw DeleteNotFound
  else
    let* _ := saveUsers filtered in
    ret true.

Definition searchUsers `{CaseMap} (keyword : jsstring) : M (list User) :=
  let* users := loadUsers in
  let k := toLowerCase (trim keyword) in
  match k with
  | [] => ret users
  | _ =>
      ret (List.filter (fun u =>
             includes (toLowerCase (name u)) k ||
             includes (toLowerCase (email u)) k) users)
  end.

End Draft.

(** ** The console

    The menu writes lines and questions and reads the lines that are
    typed.  What follows embeds the part of the program that talks to
    the console: [ask], [printUsers], the four menu actions with their
    questions, [mainMenu], [loop] and the statement that starts the
    loop. *)

(** The UTF-16 code units of a text that this file holds in UTF-8. *)
Fixpoint code_points (bytes : list N) : list N :=
  match bytes with
  | [] => []
  | a :: t =>
      if a <? 128 then a :: code_points t
      else
        match t with
        | [] => []
        | b :: t1 =>
            if a <? 224 then ((a - 192) * 64 + (b - 128)) :: code_points t1
            else
              match t1 with
              | [] => []
              | c :: t2 =>
                  if a <? 240
                  then ((a - 224) * 4096 + (b - 128) * 64 + (c - 128))
                         :: code_points t2
                  else
                    match t2 with
                    | [] => []
                    | d :: t3 =>
                        ((a - 240) * 262144 + (b - 128) * 4096 +
                         (c - 128) * 64 + (d - 128)) :: code_points t3
                    end
              end
        end
  end.

Definition code_units (c : N) : list N :=
  if c <? 65536 then [c]
  else [55296 + (c - 65536) / 1024; 56320 + (c - 65536) mod 1024].

Definition text (s : String.string) : jsstring :=
  flat_map code_units
    (code_points (List.map Ascii.N_of_ascii (String.list_ascii_of_string s))).
Arguments text s%_string.

Module UI.

(** What the program writes, in the order in which it writes it. *)
Inductive output :=
| Question (query : jsstring)  (* the query of [rl.question] *)
| Log (line : jsstring)        (* [console.log(line)] *)
| Caught (e : error)           (* [console.error("❌ Lỗi:", e.message)] *)
| Uncaught (e : error).        (* [console.error(err)] *)

(** The file system, the number of lines read so far, the number of
    calls of [addUser] so far, and what was written so far. *)
Record world := {
  files : disk;
  asked : nat;
  issued : nat;
  stdout : list output
}.

(** A computation returns, throws, or ends the process
    ([process.exit(code)]). *)
Inductive reply (A : Type) :=
| Value (a : A)
| Raise (e : error)
| Exit (code : Z).
Arguments Value {A} a.
Arguments Raise {A} e.
Arguments Exit {A} code.

(** [None], as for [M], marks a run that met an array outside the
    declared type [User[]]. *)
Definition IO (A : Type) : Type := world -> option (reply A * world).

Definition ret {A} (a : A) : IO A := fun w => Some (Value a, w).

Definition bind {A B} (m : IO A) (k : A -> IO B) : IO B :=
  fun w =>
    match m w with
    | Some (Value a, w') => k a w'
    | Some (Raise e, w') => Some (Raise e, w')
    | Some (Exit code, w') => Some (Exit code, w')
    | None => None
    end.

Notation "'let!' x ':=' m 'in' k" := (bind m (fun x => k))
  (at level 10, x pattern, m at level 100, k at level 200).
Notation "m ;; k" := (bind m (fun _ => k))
  (at level 100, k at level 200, right associativity).

Definition write (o : output) (w : world) : world :=
  {| files := files w; asked := asked w; issued := issued w;
     stdout := stdout w ++ [o] |}.

(** [console.log(line)] *)
Definition log (line : jsstring) : IO unit :=
  fun w => Some (Value tt, write (Log line) w).

(** [process.exit(code)] ([rl.close()] before it has no effect that is
    modelled). *)
Definition exit {A} (code : Z) : IO A := fun w => Some (Exit code, w).

(** A synchronous function that returns or throws. *)
Definition lift {A} (r : result A) : IO A :=
  fun w =>
    match r with
    | Ok a => Some (Value a, w)
    | Throw e => Some (Raise e, w)
    end.

(** An asynchronous function over the file system, awaited. *)
Definition run {A} (m : M A) : IO A :=
  fun w =>
    let over d :=
      {| files := d; asked := asked w; issued := issued w;
         stdout := stdout w |} in
    match m (files w) with
    | Some (Ok a, d) => Some (Value a, over d)
    | Some (Throw e, d) => Some (Raise e, over d)
    | None => None
    end.

(** [try { m } catch (e: any) { console.error("❌ Lỗi:", e.message); }] *)
Definition reported (m : IO unit) : IO unit :=
  fun w =>
    match m w with
    | Some (Raise e, w') => Some (Value tt, write (Caught e) w')
    | r => r
    end.

(** [for (const x of l) { f x }] *)
Fixpoint each {A} (l : list A) (f : A -> IO unit) : IO unit :=
  match l with
  | [] => ret tt
  | x :: t => f x ;; each t f
  end.

(** [typeof u.age === "number" ? ` | Age: ${u.age}` : ""] *)
Definition ageStr (u : User) : jsstring :=
  match age u with
  | Some a => text " | Age: " ++ JSON.print_int a
  | None => []
  end.

Definition printUsers (users : list User) : IO unit :=
  match users with
  | [] => log (text "— Không có user nào —")
  | _ =>
      log (10 :: text "Danh sách User:") ;;
      log (replicate 60 61) ;;
      each users (fun u =>
        log (text "ID: " ++ id u ++ 10 :: text "Name: " ++ name u ++
             text " | Email: " ++ email u ++ ageStr u) ;;
        log (replicate 60 45))
  end.

(** What [printUsers users] is to write: one line for an empty list;
    otherwise a heading, a rule, and for each record its line and a
    dashed rule. *)
Definition display (users : list User) : list output :=
  match users with
  | [] => [Log (text "— Không có user nào —")]
  | _ =>
      Log (10 :: text "Danh sách User:") :: Log (replicate 60 61) ::
      flat_map (fun u =>
        [Log (text "ID: " ++ id u ++ 10 :: text "Name: " ++ name u ++
              text " | Email: " ++ email u ++ ageStr u);
         Log (replicate 60 45)]) users
  end.

(** The seven lines of the menu. *)
Definition menu : list output :=
  [Log (10 :: text "=== USER MANAGER CLI ===");
   Log (text "1) Thêm user"); Log (text "2) Sửa user");
   Log (text "3) Xoá user"); Log (text "4) Tìm kiếm user");
   Log (text "5) Xem tất cả"); Log (text "0) Thoát")].

Section Console.

Context `{CaseMap}.

(** [answer n] is the line that is typed in reply to the question of
    number [n]; [randomUUID n] is the value that [randomUUID()] returns
    in the call of [addUser] of number [n], when that call reaches it. *)
Variable answer : nat -> jsstring.
Variable randomUUID : nat -> jsstring.

Definition ask (q : jsstring) : IO jsstring :=
  fun w =>
    Some (Value (answer (asked w)),
          {| files := files w; asked := S (asked w); issued := issued w;
             stdout := stdout w ++ [Question q] |}).

(** [await addUser(name, email, age)] *)
Definition add (name_ email_ : jsstring) (age_ : option Z) : IO User :=
  fun w =>
    run (addUser (randomUUID (issued w)) name_ email_ age_)
      {| files := files w; asked := asked w; issued := S (issued w);
         stdout := stdout w |}.

Definition handleAdd : IO unit :=
  reported
    (let! a := ask (text "Nhập tên: ") in
     let! name_ := lift (requireNonEmpty a (text "Tên")) in
     let! b := ask (text "Nhập email: ") in
     let! email_ := lift (requireNonEmpty b (text "Email")) in
     let! c := ask (text "Nhập tuổi (bỏ trống nếu không): ") in
     let! age_ := lift (parseOptionalAge c) in
     let! user := add name_ email_ age_ in
     log (10 :: text "✅ Đã thêm User:") ;;
     printUsers [user]).

Definition handleUpdate : IO unit :=
  reported
    (let! a := ask (text "Nhập ID user cần sửa: ") in
     let! id_ := lift (requireNonEmpty a (text "ID")) in
     let! nameRaw := ask (text "Tên mới (bỏ trống nếu giữ nguyên): ") in
     let! emailRaw := ask (text "Email mới (bỏ trống nếu giữ nguyên): ") in
     let! ageRaw := ask (text "Tuổi mới (bỏ trống nếu giữ nguyên): ") in
     let upd_name_ := match trim nameRaw with [] => None | v => Some v end in
     let upd_email_ := match trim emailRaw with [] => None | v => Some v end in
     let! upd_age_ :=
       match trim ageRaw with
       | [] => ret None
       | _ => lift (parseOptionalAge ageRaw)
       end in
     let updates :=
       {| upd_name := upd_name_; upd_email := upd_email_; upd_age := upd_age_ |} in
     match upd_name_, upd_email_, upd_age_ with
     | None, None, None => log (text "Không có thay đổi nào.")
     | _, _, _ =>
         let! updated := run (updateUser id_ updates) in
         log (10 :: text "✏️  Đã cập nhật:") ;;
         printUsers [updated]
     end).

Definition handleDelete : IO unit :=
  reported
    (let! a := ask (text "Nhập ID user cần xoá: ") in
     let! id_ := lift (requireNonEmpty a (text "ID")) in
     run (deleteUser id_) ;;
     log (text "🗑️  Đã xoá user.")).

Definition handleSearch : IO unit :=
  reported
    (let! k := ask (text "Nhập từ khoá (ID/Name/Email, bỏ trống = xem tất cả): ") in
     let! result := run (searchUsers k) in
     printUsers result).

Definition mainMenu : IO unit :=
  log (10 :: text "=== USER MANAGER CLI ===") ;;
  log (text "1) Thêm user") ;;
  log (text "2) Sửa user") ;;
  log (text "3) Xoá user") ;;
  log (text "4) Tìm kiếm user") ;;
  log (text "5) Xem tất cả") ;;
  log (text "0) Thoát") ;;
  let! a := ask (text "Chọn: ") in
  let choice := trim a in
  if str_eqb choice (text "1") then handleAdd
  else if str_eqb choice (text "2") then handleUpdate
  else if str_eqb choice (text "3") then handleDelete
  else if str_eqb choice (text "4") then handleSearch
  else if str_eqb choice (text "5") then
    (let! users := run listUsers in printUsers users)
  else if str_eqb choice (text "0") then
    (log (text "Tạm biệt!") ;; exit 0)
  else log (text "Lựa chọn không hợp lệ.").

(** [while (true) { await mainMenu(); }], for at most [rounds] rounds:
    the value [tt] stands for a loop that is still running. *)
Fixpoint loop (rounds : nat) : IO unit :=
  match rounds with
  | O => ret tt
  | S n => mainMenu ;; loop n
  end.

(** [loop().catch(err => { console.error(err); rl.close();
    process.exit(1); })] *)
Definition program (rounds : nat) : IO unit :=
  fun w =>
    match loop rounds w with
    | Some (Raise err, w') => Some (Exit 1, write (Uncaught err) w')
    | r => r
    end.

End Console.

End UI.

(** The console of the earlier draft. *)
Module DraftUI.
Import UI.

(** The draft writes the age when [user.age] is truthy: not when it is
    [undefined], and not when it is zero. *)
Definition printUsers (users : list User) : IO unit :=
  match users with
  | [] => log (text "No users found.")
  | _ =>
      log (text "User List:") ;;
      each users (fun user =>
        log (text "- " ++ name user ++ text " - <" ++ email user ++
             text "> (ID: " ++ id user ++ text ") - " ++
             match age user with
             | Some a =>
                 if (a =? 0)%Z then text "Age not specified"
                 else JSON.print_int a ++ text " years old"
             | None => text "Age not specified"
             end))
  end.

End DraftUI.

(** ** Notions used in the statements about a session *)

(** The list that a file system holds: the one that [loadUsers]
    returns on it. *)
Definition stored (d : disk) (users : list User) : Prop :=
  exists d', loadUsers d = Some (Ok users, d').

(** ** Sample sessions *)

Module Session.

(** The lines that are typed, blank lines after the last of them. *)
Definition typed (lines : list jsstring) : nat -> jsstring :=
  fun n => nth n lines [].

(** Identifiers [x], [xx], [xxx], ... for the calls of [randomUUID()]. *)
Definition uuids : nat -> jsstring := fun n => replicate (S n) 120.

(** The start of a session on a file system. *)
Definition start (d : disk) : UI.world :=
  {| UI.files := d; UI.asked := 0; UI.issued := 0; UI.stdout := [] |}.

(** A file that does not hold JSON. *)
Definition damaged : disk :=
  {| DATA_FILE := Content (str "{"); write_error := None |}.

(** A file system that rejects writes. *)
Definition read_only (users : list User) : disk :=
  {| DATA_FILE := Content (JSON.stringify users); write_error := Some EACCES |}.

Definition cy : User :=
  {| id := str "u9"; name := str "Cy"; email := str "cy@x.com";
     age := Some 41%Z |}.

(** A record with the age zero. *)
Definition kid : User :=
  {| id := str "u4"; name := str "Kid"; email := str "kid@x.com";
     age := Some 0%Z |}.

End Session.

(** ** Notions used in the statements about the console *)

(** Between the worlds [w] and [w'] some questions were written, and
    then [report]. *)
Definition wrote (w w' : UI.world) (report : list UI.output) : Prop :=
  exists qs,
    Forall (fun o => exists q, o = UI.Question q) qs /\
    UI.stdout w' = UI.stdout w ++ qs ++ report.
(** * Properties *)

(** ** The JSON codec: what [JSON.stringify] prints, [JSON.parse] reads *)

Module JSONFacts.
Import JSON.

Lemma digit_hexchar (d : N) :
  d < 16 -> Num.digit 16 (hexchar d) = Some (Z.of_N d).
Proof.
  intros Hd.
  assert (d = 0 \/ d = 1 \/ d = 2 \/ d = 3 \/ d = 4 \/ d = 5 \/ d = 6 \/ d = 7 \/
          d = 8 \/ d = 9 \/ d = 10 \/ d = 11 \/ d = 12 \/ d = 13 \/ d = 14 \/
          d = 15) as Hc by lia.
  repeat (destruct Hc as [-> | Hc]; [reflexivity |]).
  subst d; reflexivity.
Qed.

Lemma hex4_uescape (c : N) :
  c < 65536 ->
  hex4 (hexchar (c / 4096 mod 16)) (hexchar (c / 256 mod 16))
       (hexchar (c / 16 mod 16)) (hexchar (c mod 16)) = Some c.
Proof.
  intros Hc. unfold hex4.
  rewrite !digit_hexchar by (apply N.mod_upper_bound; lia).
  f_equal. apply N2Z.inj. rewrite Z2N.id.
  - rewrite !N2Z.inj_mod, !N2Z.inj_div. change (Z.of_N 16) with 16%Z.
    change (Z.of_N 4096) with 4096%Z. change (Z.of_N 256) with 256%Z.
    assert (0 <= Z.of_N c < 65536)%Z as Hz by lia.
    generalize dependent (Z.of_N c). intros z Hz.
    Z.div_mod_to_equations. lia.
  - rewrite !N2Z.inj_mod, !N2Z.inj_div. change (Z.of_N 16) with 16%Z.
    change (Z.of_N 4096) with 4096%Z. change (Z.of_N 256) with 256%Z.
    assert (0 <= Z.of_N c)%Z as Hz by lia.
    generalize dependent (Z.of_N c). intros z Hz.
    Z.div_mod_to_equations. lia.
Qed.

Lemma parse_chars_uescape (c : N) (r : jsstring) :
  c < 65536 -> parse_chars (uescape c ++ r) = cons_fst c (parse_chars r).
Proof.
  intros Hc. unfold uescape.
  cbn [app parse_chars].
  change (92 =? 34) with false. change (92 =? 92) with true.
  change (117 =? 117) with true. cbv iota.
  now rewrite hex4_uescape.
Qed.

Lemma parse_chars_raw (c : N) (r : jsstring) :
  (c =? 34) = false -> (c =? 92) = false -> (c <? 32) = false ->
  parse_chars (c :: r) = cons_fst c (parse_chars r).
Proof. intros H1 H2 H3. cbn [parse_chars]. now rewrite H1, H2, H3. Qed.

Lemma parse_chars_escape1 (c : N) (r : jsstring) :
  parse_chars (escape1 c ++ r) = cons_fst c (parse_chars r).
Proof.
  unfold escape1.
  destruct (c =? 8) eqn:E8; [apply N.eqb_eq in E8; subst; reflexivity |].
  destruct (c =? 9) eqn:E9; [apply N.eqb_eq in E9; subst; reflexivity |].
  destruct (c =? 10) eqn:E10; [apply N.eqb_eq in E10; subst; reflexivity |].
  destruct (c =? 12) eqn:E12; [apply N.eqb_eq in E12; subst; reflexivity |].
  destruct (c =? 13) eqn:E13; [apply N.eqb_eq in E13; subst; reflexivity |].
  destruct (c =? 34) eqn:E34; [apply N.eqb_eq in E34; subst; reflexivity |].
  destruct (c =? 92) eqn:E92; [apply N.eqb_eq in E92; subst; reflexivity |].
  destruct (c <? 32) eqn:E32.
  - apply parse_chars_uescape. apply N.ltb_lt in E32. lia.
  - now apply parse_chars_raw.
Qed.

Lemma surrogate_raw (c : N) (r : jsstring) :
  is_high c || is_low c = true ->
  parse_chars (c :: r) = cons_fst c (parse_chars r).
Proof.
  unfold is_high, is_low. intros Hc.
  rewrite orb_true_iff, !andb_true_iff, !N.leb_le in Hc.
  apply parse_chars_raw.
  - apply N.eqb_neq. lia.
  - apply N.eqb_neq. lia.
  - apply N.ltb_ge. lia.
Qed.

Lemma surrogate_small (c : N) : is_high c || is_low c = true -> c < 65536.
Proof.
  unfold is_high, is_low.
  rewrite orb_true_iff, !andb_true_iff, !N.leb_le. lia.
Qed.

(** A quoted string is read back as it was, whatever follows the
    closing quote. *)
Lemma parse_chars_quote_body (s r : jsstring) :
  parse_chars (quote_body s ++ 34 :: r) = Some (s, r).
Proof.
  remember (length s) as n eqn:Hn.
  revert s Hn. induction n as [n IH] using lt_wf_ind. intros s Hn.
  destruct s as [|c t]; [reflexivity |].
  cbn [quote_body].
  destruct (is_high c) eqn:Hh.
  - destruct t as [|d t'].
    + rewrite parse_chars_uescape by (apply surrogate_small; now rewrite Hh).
      reflexivity.
    + destruct (is_low d) eqn:Hl.
      * cbn [app]. rewrite !surrogate_raw
          by (rewrite ?Hh, ?Hl; auto using orb_true_r).
        rewrite (IH (length t')) by (cbn in Hn; lia || reflexivity).
        reflexivity.
      * rewrite <- app_assoc.
        rewrite parse_chars_uescape by (apply surrogate_small; now rewrite Hh).
        rewrite (IH (length (d :: t'))) by (cbn in *; lia || reflexivity).
        reflexivity.
  - destruct (is_low c) eqn:Hl.
    + rewrite <- app_assoc.
      rewrite parse_chars_uescape
        by (apply surrogate_small; rewrite Hl; auto using orb_true_r).
      rewrite (IH (length t)) by (cbn in *; lia || reflexivity).
      reflexivity.
    + rewrite <- app_assoc, parse_chars_escape1.
      rewrite (IH (length t)) by (cbn in *; lia || reflexivity).
      reflexivity.
Qed.

(** *** Numbers *)

Lemma span_digits_app (a : jsstring) (vs : list Z) (b : jsstring) :
  Forall2 is_digit a vs ->
  Num.span_digits 10 (a ++ b) =
  (vs ++ (Num.span_digits 10 b).1, (Num.span_digits 10 b).2).
Proof.
  induction 1 as [|c v a vs Hc _ IH]; cbn [app Num.span_digits].
  - now destruct (Num.span_digits 10 b).
  - rewrite Hc, IH. reflexivity.
Qed.

Lemma is_digit_dec (d : N) : d < 10 -> is_digit (48 + d) (Z.of_N d).
Proof.
  intros Hd. unfold is_digit, Num.digit.
  replace ((48 <=? 48 + d) && (48 + d <=? 57)) with true
    by (symmetry; apply andb_true_iff; split; apply N.leb_le; lia).
  replace (48 + d - 48) with d by lia.
  now replace (d <? 10) with true by (symmetry; apply N.ltb_lt; lia).
Qed.

Lemma value_of_snoc (b : Z) (vs : list Z) (d : Z) :
  Num.value_of b (vs ++ [d]) = (b * Num.value_of b vs + d)%Z.
Proof. unfold Num.value_of. now rewrite fold_left_app. Qed.

Lemma digits_of_spec (f : nat) (n : N) :
  n < 10 ^ N.of_nat (S f) ->
  exists v vs,
    Forall2 is_digit (digits_of f n) (v :: vs) /\
    Num.value_of 10 (v :: vs) = Z.of_N n /\
    (n <> 0 -> v <> 0%Z) /\ (n = 0 -> vs = []).
Proof.
  revert n. induction f as [|f IH]; intros n Hn.
  - assert (n < 10) as Hlt by (change (10 ^ N.of_nat 1) with 10 in Hn; lia).
    exists (Z.of_N n), []. cbn [digits_of].
    rewrite N.mod_small by lia.
    split; [| split; [| split]].
    + constructor; auto using is_digit_dec.
    + cbn. lia.
    + lia.
    + reflexivity.
  - cbn [digits_of]. destruct (n <? 10) eqn:E.
    + apply N.ltb_lt in E. exists (Z.of_N n), [].
      split; [| split; [| split]].
      * constructor; auto using is_digit_dec.
      * cbn. lia.
      * lia.
      * reflexivity.
    + apply N.ltb_ge in E.
      assert (n / 10 < 10 ^ N.of_nat (S f)) as Hq.
      { apply N.Div0.div_lt_upper_bound.
        replace (N.of_nat (S (S f))) with (N.succ (N.of_nat (S f))) in Hn by lia.
        now rewrite N.pow_succ_r' in Hn. }
      destruct (IH _ Hq) as (v & vs & Hd & Hv & Hnz & _).
      assert (1 <= n / 10) as Hge by (apply N.div_le_lower_bound; lia).
      exists v, (vs ++ [Z.of_N (n mod 10)]). split; [| split; [| split]].
      * change (v :: vs ++ [Z.of_N (n mod 10)])
          with ((v :: vs) ++ [Z.of_N (n mod 10)]).
        apply Forall2_app; [exact Hd |].
        constructor; [| constructor].
        apply is_digit_dec. apply N.mod_upper_bound. lia.
      * change (v :: vs ++ [Z.of_N (n mod 10)])
          with ((v :: vs) ++ [Z.of_N (n mod 10)]).
        rewrite value_of_snoc, Hv.
        rewrite (N.div_mod n 10) at 3 by lia. lia.
      * intros _. apply Hnz. lia.
      * intros ->. cbn in Hge. lia.
Qed.

Lemma log2_fuel (n : N) : n < 10 ^ N.of_nat (S (N.to_nat (N.log2 n))).
Proof.
  destruct (N.eq_dec n 0) as [-> | Hn]; [reflexivity |].
  replace (N.of_nat (S (N.to_nat (N.log2 n)))) with (N.succ (N.log2 n)) by lia.
  apply N.lt_le_trans with (2 ^ N.succ (N.log2 n)).
  - apply N.log2_spec. lia.
  - apply N.pow_le_mono_l. lia.
Qed.

(** The digits that [print_int] writes for a natural number. *)
Lemma digits_print (n : N) :
  exists c cs v vs,
    digits_of (N.to_nat (N.log2 n)) n = c :: cs /\
    Forall2 is_digit (c :: cs) (v :: vs) /\
    Num.value_of 10 (v :: vs) = Z.of_N n /\
    (v = 0%Z -> vs = []).
Proof.
  destruct (digits_of_spec _ _ (log2_fuel n)) as (v & vs & Hd & Hv & Hnz & Hz).
  inversion Hd as [|c v' cs vs' Hc Hcs Heq]; subst.
  exists c, cs, v, vs. split; [| split; [| split]]; auto.
  intros ->. apply Hz. destruct (N.eq_dec n 0); auto. now elim Hnz.
Qed.

Lemma is_digit_range (c : N) (v : Z) : is_digit c v -> 48 <= c <= 57.
Proof.
  unfold is_digit, Num.digit. intros Hd.
  destruct ((48 <=? c) && (c <=? 57)) eqn:E1.
  - apply andb_true_iff in E1. rewrite !N.leb_le in E1. lia.
  - destruct ((97 <=? c) && (c <=? 102)) eqn:E2.
    + apply andb_true_iff in E2. rewrite !N.leb_le in E2.
      destruct (c - 87 <? 10) eqn:E; [apply N.ltb_lt in E; lia | discriminate].
    + destruct ((65 <=? c) && (c <=? 70)) eqn:E3; [| discriminate].
      apply andb_true_iff in E3. rewrite !N.leb_le in E3.
      destruct (c - 55 <? 10) eqn:E; [apply N.ltb_lt in E; lia | discriminate].
Qed.

Ltac digit_cases c H :=
  let Hc := fresh "Hc" in
  assert (c = 48 \/ c = 49 \/ c = 50 \/ c = 51 \/ c = 52 \/ c = 53 \/
          c = 54 \/ c = 55 \/ c = 56 \/ c = 57) as Hc
    by (pose proof (is_digit_range _ _ H); lia);
  repeat (destruct Hc as [Hc | Hc]; [subst c |]); [.. | subst c].

(** What [parse_number] does with a run of digits that a line feed ends. *)
Lemma parse_number_digits (c : N) (cs : jsstring) (v : Z) (vs : list Z)
    (r : jsstring) :
  Forall2 is_digit (c :: cs) (v :: vs) ->
  (v = 0%Z -> vs = []) ->
  parse_number ((c :: cs) ++ 10 :: r) =
  Some (JNumber false (Z.to_N (Num.value_of 10 (v :: vs))) 0, 10 :: r) /\
  parse_number (45 :: (c :: cs) ++ 10 :: r) =
  Some (JNumber true (Z.to_N (Num.value_of 10 (v :: vs))) 0, 10 :: r).
Proof.
  intros Hd Hz.
  assert (Num.span_digits 10 ((c :: cs) ++ 10 :: r) = (v :: vs, 10 :: r)) as Hs.
  { rewrite (span_digits_app _ _ _ Hd). cbn. now rewrite app_nil_r. }
  assert (forall neg,
    (let '(ds1, r1) := Num.span_digits 10 ((c :: cs) ++ 10 :: r) in
     match ds1 with
     | [] => None
     | 0%Z :: _ :: _ => None
     | _ =>
         let frac :=
           match r1 with
           | 46 :: t =>
               match Num.span_digits 10 t with
               | ([], _) => None
               | (ds, r) => Some (ds, r)
               end
           | _ => Some ([], r1)
           end in
         match frac with
         | None => None
         | Some (ds2, r2) =>
             let m := Z.to_N (Num.value_of 10 (ds1 ++ ds2)) in
             let k := Z.of_nat (length ds2) in
             match r2 with
             | c :: t =>
                 if (c =? 101) || (c =? 69) then
                   let '(eneg, t') :=
                     match t with
                     | 43 :: u => (false, u)
                     | 45 :: u => (true, u)
                     | _ => (false, t)
                     end in
                   match Num.span_digits 10 t' with
                   | ([], _) => None
                   | (ds3, r3) =>
                       let x := Num.value_of 10 ds3 in
                       Some (JNumber neg m ((if eneg then - x else x) - k)%Z, r3)
                   end
                 else Some (JNumber neg m (- k)%Z, r2)
             | [] => Some (JNumber neg m (- k)%Z, [])
             end
         end
     end) = Some (JNumber neg (Z.to_N (Num.value_of 10 (v :: vs))) 0, 10 :: r))
    as Hbody.
  { intros neg. rewrite Hs.
    destruct v as [|p|p]; [rewrite (Hz eq_refl) | |];
      cbn [length Z.of_nat Z.opp N.eqb Pos.eqb orb]; now rewrite ?app_nil_r. }
  split.
  - inversion Hd as [|? ? ? ? Hc _]; subst.
    unfold parse_number.
    replace (match (c :: cs) ++ 10 :: r with
             | 45 :: t => (true, t)
             | _ => (false, (c :: cs) ++ 10 :: r)
             end) with (false, (c :: cs) ++ 10 :: r).
    + apply Hbody.
    + digit_cases c Hc; reflexivity.
  - unfold parse_number. cbv iota beta. apply Hbody.
Qed.

Lemma parse_number_print_int (a : Z) (r : jsstring) :
  parse_number (print_int a ++ 10 :: r) =
  Some (JNumber (a <? 0)%Z (Z.to_N (Z.abs a)) 0, 10 :: r).
Proof.
  destruct a as [|p|p]; unfold print_int.
  - reflexivity.
  - change (Z.to_N (Z.pos p)) with (N.pos p).
    destruct (digits_print (Npos p)) as (c & cs & v & vs & -> & Hd & Hv & Hz).
    destruct (parse_number_digits _ _ _ _ r Hd Hz) as [-> _].
    now rewrite Hv.
  - destruct (digits_print (Npos p)) as (c & cs & v & vs & -> & Hd & Hv & Hz).
    change ((45 :: c :: cs) ++ 10 :: r) with (45 :: (c :: cs) ++ 10 :: r).
    destruct (parse_number_digits _ _ _ _ r Hd Hz) as [_ ->].
    now rewrite Hv.
Qed.

(** *** Records and arrays *)

Lemma skip_ws_idem (s : jsstring) : skip_ws (skip_ws s) = skip_ws s.
Proof.
  induction s as [|c t IH]; [reflexivity |].
  cbn [skip_ws]. destruct (is_ws c) eqn:E; [exact IH |].
  cbn [skip_ws]. now rewrite E.
Qed.

Lemma parse_value_skip_ws (f : nat) (s : jsstring) :
  parse_value f (skip_ws s) = parse_value f s.
Proof. destruct f; [reflexivity |]. cbn [parse_value]. now rewrite skip_ws_idem. Qed.

Lemma parse_members_skip_ws (f : nat) (s : jsstring) :
  parse_members f (skip_ws s) = parse_members f s.
Proof. destruct f; [reflexivity |]. cbn [parse_members]. now rewrite skip_ws_idem. Qed.

Lemma parse_value_string (f : nat) (s r : jsstring) :
  parse_value (S f) (32 :: quote s ++ r) = Some (JString s, r).
Proof.
  unfold quote. cbn [app]. rewrite <- app_assoc. cbn [app].
  simpl. now rewrite parse_chars_quote_body.
Qed.

Lemma parse_value_number (f : nat) (c : N) (t : jsstring) :
  48 <= c <= 57 \/ c = 45 ->
  parse_value (S f) (32 :: c :: t) = parse_number (c :: t).
Proof.
  intros Hc.
  assert (c = 48 \/ c = 49 \/ c = 50 \/ c = 51 \/ c = 52 \/ c = 53 \/
          c = 54 \/ c = 55 \/ c = 56 \/ c = 57 \/ c = 45) as Hd by lia.
  repeat (destruct Hd as [-> | Hd]; [reflexivity |]).
  subst c; reflexivity.
Qed.

Lemma print_int_head (a : Z) :
  exists c cs, print_int a = c :: cs /\ (48 <= c <= 57 \/ c = 45).
Proof.
  destruct a as [|p|p]; unfold print_int.
  - exists 48, []. split; [reflexivity | lia].
  - change (Z.to_N (Z.pos p)) with (N.pos p).
    destruct (digits_print (Npos p)) as (c & cs & v & vs & -> & Hd & _).
    exists c, cs. split; [reflexivity |]. left.
    inversion Hd; subst. eauto using is_digit_range.
  - eexists _, _. split; [reflexivity | lia].
Qed.

Lemma parse_value_int (f : nat) (a : Z) (r : jsstring) :
  parse_value (S f) (32 :: print_int a ++ 10 :: r) =
  Some (JNumber (a <? 0)%Z (Z.to_N (Z.abs a)) 0, 10 :: r).
Proof.
  rewrite <- parse_number_print_int.
  destruct (print_int_head a) as (c & cs & -> & Hc).
  now apply parse_value_number.
Qed.

(** One property of an object, on its line: a string that another
    property follows, a string or a number that ends the object. *)
Lemma member_string_more (f : nat) (key s r : jsstring)
    (kvs : list (jsstring * json)) (r' : jsstring) :
  parse_members (S f) r = Some (kvs, r') ->
  parse_members (S (S f))
    (10 :: 32 :: 32 :: 32 :: 32 :: 34 :: quote_body key ++
     34 :: 58 :: 32 :: 34 :: quote_body s ++ 34 :: 44 :: r) =
  Some ((key, JString s) :: kvs, r').
Proof.
  intros Hm.
  pose proof (parse_value_string f s (44 :: r)) as Hv.
  unfold quote in Hv. cbn [app] in Hv. rewrite <- app_assoc in Hv.
  cbn [app] in Hv.
  generalize dependent (S f). intros g Hm Hv.
  cbn [parse_members].
  change (skip_ws (10 :: 32 :: 32 :: 32 :: 32 :: 34 :: ?x)) with (34 :: x).
  cbv iota. rewrite parse_chars_quote_body.
  change (skip_ws (58 :: ?x)) with (58 :: x). cbv iota.
  rewrite Hv.
  change (skip_ws (44 :: r)) with (44 :: r). cbv iota.
  now rewrite Hm.
Qed.

Lemma member_string_last (f : nat) (key s r : jsstring) :
  parse_members (S (S f))
    (10 :: 32 :: 32 :: 32 :: 32 :: 34 :: quote_body key ++
     34 :: 58 :: 32 :: 34 :: quote_body s ++ 34 :: 10 :: 32 :: 32 :: 125 :: r) =
  Some ([(key, JString s)], r).
Proof.
  simpl. rewrite parse_chars_quote_body. simpl.
  now rewrite parse_chars_quote_body.
Qed.

Lemma member_int_last (f : nat) (key : jsstring) (a : Z) (r : jsstring) :
  parse_members (S (S f))
    (10 :: 32 :: 32 :: 32 :: 32 :: 34 :: quote_body key ++
     34 :: 58 :: 32 :: print_int a ++ 10 :: 32 :: 32 :: 125 :: r) =
  Some ([(key, JNumber (a <? 0)%Z (Z.to_N (Z.abs a)) 0)], r).
Proof.
  pose proof (parse_value_int f a (32 :: 32 :: 125 :: r)) as Hv.
  cbn [parse_members].
  change (skip_ws (10 :: 32 :: 32 :: 32 :: 32 :: 34 :: ?x)) with (34 :: x).
  cbv iota. rewrite parse_chars_quote_body.
  change (skip_ws (58 :: ?x)) with (58 :: x). cbv iota.
  rewrite Hv. reflexivity.
Qed.

Lemma parse_value_object (f : nat) (t x : jsstring)
    (kvs : list (jsstring * json)) (r : jsstring) :
  skip_ws t = 34 :: x ->
  parse_members f t = Some (kvs, r) ->
  parse_value (S f) (123 :: t) = Some (JObject kvs, r).
Proof.
  intros Ht Hm. simpl. rewrite Ht. rewrite <- Ht.
  now rewrite parse_members_skip_ws, Hm.
Qed.

Lemma parse_value_User (f : nat) (u : User) (r : jsstring) :
  parse_value (7 + f) (stringify_User u ++ r) = Some (User_json u, r).
Proof.
  destruct u as [i n e a]. unfold stringify_User, User_json, member, quote.
  cbn [id name email age].
  change (str "id") with [105; 100].
  change (str "name") with [110; 97; 109; 101].
  change (str "email") with [101; 109; 97; 105; 108].
  change (str "age") with [97; 103; 101].
  change (7 + f)%nat with (S (S (S (S (S (S (S f))))))).
  destruct a as [a |]; repeat (rewrite <- ?app_assoc; cbn [app]).
  - eapply parse_value_object; [reflexivity |].
    apply (member_string_more _ [105; 100]).
    apply (member_string_more _ [110; 97; 109; 101]).
    apply (member_string_more _ [101; 109; 97; 105; 108]).
    apply (member_int_last _ [97; 103; 101]).
  - eapply parse_value_object; [reflexivity |].
    apply (member_string_more _ [105; 100]).
    apply (member_string_more _ [110; 97; 109; 101]).
    apply (member_string_last _ [101; 109; 97; 105; 108]).
Qed.

Lemma stringify_User_head (u : User) (r : jsstring) :
  exists x, stringify_User u ++ r = 123 :: x.
Proof. unfold stringify_User. cbn [app]. eauto. Qed.

Lemma parse_elements_skip_ws (f : nat) (s : jsstring) :
  parse_elements f (skip_ws s) = parse_elements f s.
Proof.
  destruct f; [reflexivity |]. cbn [parse_elements].
  now rewrite parse_value_skip_ws.
Qed.

Lemma parse_value_User_fuel (g : nat) (u : User) (r : jsstring) :
  (7 <= g)%nat -> parse_value g (stringify_User u ++ r) = Some (User_json u, r).
Proof.
  intros Hg. replace g with (7 + (g - 7))%nat by lia. apply parse_value_User.
Qed.

Lemma parse_elements_Users (us : list User) (u : User) (g : nat)
    (tail : jsstring) :
  (length us + 8 <= g)%nat ->
  parse_elements g (stringify_User u ++ more_Users us ++ 10 :: 93 :: tail) =
  Some (List.map User_json (u :: us), tail).
Proof.
  revert u g. induction us as [|u' us IH]; intros u g Hg;
    (destruct g as [|g]; [cbn [length] in Hg; lia |]);
    cbn [length] in Hg; cbn [parse_elements].
  - rewrite parse_value_User_fuel by lia. reflexivity.
  - cbn [more_Users flat_map]. rewrite <- !app_assoc.
    rewrite parse_value_User_fuel by lia.
    cbn [app List.map].
    change (skip_ws (44 :: ?x)) with (44 :: x). cbv iota.
    rewrite <- (parse_elements_skip_ws g (10 :: 32 :: 32 :: _)).
    change (skip_ws (10 :: 32 :: 32 :: ?y)) with (skip_ws y).
    rewrite parse_elements_skip_ws.
    specialize (IH u' g ltac:(lia)). unfold more_Users in IH.
    cbn [app] in IH. rewrite IH. reflexivity.
Qed.

Lemma stringify_length (u : User) (us : list User) :
  (length us + 6 <= length (stringify (u :: us)))%nat.
Proof.
  unfold stringify. rewrite !length_app. cbn [length].
  assert (length us <= length (more_Users us))%nat as Hl.
  { induction us as [|v us IH]; [reflexivity |].
    cbn [more_Users flat_map]. rewrite !length_app. cbn [length].
    unfold more_Users in IH. lia. }
  unfold more_Users in Hl. lia.
Qed.

Lemma parse_value_array (f : nat) (t x : jsstring) (vs : list json)
    (r : jsstring) :
  skip_ws t = 123 :: x ->
  parse_elements f t = Some (vs, r) ->
  parse_value (S f) (91 :: t) = Some (JArray vs, r).
Proof.
  intros Ht He. cbn [parse_value].
  change (skip_ws (91 :: t)) with (91 :: t). cbv iota.
  rewrite Ht. cbv iota. rewrite <- Ht.
  now rewrite parse_elements_skip_ws, He.
Qed.

(** What [JSON.stringify] prints for a list of users, [JSON.parse] reads
    as the array of their objects. *)
Lemma parse_stringify (users : list User) :
  parse (stringify users) = Some (JArray (List.map User_json users)).
Proof.
  destruct users as [|u us]; [reflexivity |].
  unfold parse.
  pose proof (stringify_length u us) as Hl.
  destruct (2 * length (stringify (u :: us)) + 2)%nat as [|g] eqn:Eg; [lia |].
  assert (length us + 8 <= g)%nat as Hg by lia. clear Eg Hl.
  unfold stringify. cbn [app].
  destruct (stringify_User_head u (more_Users us ++ [10; 93])) as [x Hx].
  erewrite (parse_value_array _ _ x (List.map User_json (u :: us)) []).
  - reflexivity.
  - change (skip_ws (10 :: 32 :: 32 :: ?y)) with (skip_ws y).
    unfold more_Users in Hx. cbn [app] in Hx. rewrite Hx. reflexivity.
  - rewrite <- (parse_elements_skip_ws _ (10 :: 32 :: 32 :: _)).
    change (skip_ws (10 :: 32 :: 32 :: ?y)) with (skip_ws y).
    rewrite parse_elements_skip_ws.
    pose proof (parse_elements_Users us u g [] Hg) as He.
    unfold more_Users in He. cbn [app] in He. exact He.
Qed.

Lemma as_integer_abs (a : Z) :
  safe a -> as_integer (a <? 0)%Z (Z.to_N (Z.abs a)) 0 = Some a.
Proof.
  unfold safe, as_integer. intros Ha.
  rewrite Z2N.id by lia.
  cbn [Z.leb Z.compare Z.pow Z.pow_pos Pos.iter Z.mul].
  rewrite Z.mul_1_r.
  replace (Z.abs a <=? 2 ^ 53)%Z with true by (symmetry; now apply Z.leb_le).
  f_equal. destruct (a <? 0)%Z eqn:E.
  - apply Z.ltb_lt in E. lia.
  - apply Z.ltb_ge in E. lia.
Qed.

Lemma property_head (key : String.string) (v : json) (r : list (jsstring * json)) :
  property key ((str key, v) :: r) = Some (v, r).
Proof.
  unfold property, str_eqb. now rewrite bool_decide_eq_true_2.
Qed.

Lemma as_User_json (u : User) : safe_age u -> as_User (User_json u) = Some u.
Proof.
  destruct u as [i n e [a |]]; unfold safe_age; cbn [age]; intros Ha;
    unfold User_json, as_User; cbn [id name email age app];
    rewrite !property_head; unfold as_age; [| reflexivity].
  now rewrite property_head, as_integer_abs.
Qed.

Lemma as_Users_json (users : list User) :
  Forall safe_age users -> as_Users (List.map User_json users) = Some users.
Proof.
  induction 1 as [|u us Hu _ IH]; [reflexivity |].
  cbn [List.map as_Users]. now rewrite as_User_json, IH.
Qed.

(** Conversely, the cast yields records with exact integer ages only. *)
Lemma as_integer_safe (neg : bool) (m : N) (e a : Z) :
  as_integer neg m e = Some a -> safe a.
Proof.
  unfold as_integer, safe. pose proof (N2Z.is_nonneg m) as Hm.
  generalize dependent (Z.of_N m). clear m. intros m Hm.
  destruct (0 <=? e)%Z eqn:E.
  - destruct (m * 10 ^ e <=? 2 ^ 53)%Z eqn:L; [| discriminate].
    apply Z.leb_le in L, E. intros [= <-].
    assert (0 <= m * 10 ^ e)%Z by (apply Z.mul_nonneg_nonneg; lia).
    destruct neg; lia.
  - destruct (_ =? 0)%Z; [| discriminate].
    destruct (_ <=? 2 ^ 53)%Z eqn:L; [| discriminate].
    apply Z.leb_le in L. apply Z.leb_gt in E. intros [= <-].
    assert (0 <= m / 10 ^ (- e))%Z by (apply Z.div_pos; lia).
    destruct neg; lia.
Qed.

End JSONFacts.

(** ** The storage accessor *)

Module Storage.
Import JSON JSONFacts.

Lemma as_Users_safe (vs : list json) (users : list User) :
  as_Users vs = Some users -> Forall safe_age users.
Proof.
  revert users. induction vs as [|v vs IH]; intros users; cbn [as_Users].
  - intros [= <-]. constructor.
  - destruct (as_User v) as [u |] eqn:Eu; [| discriminate].
    destruct (as_Users vs) as [us |]; [| discriminate].
    intros [= <-]. constructor; [| now apply IH].
    unfold as_User in Eu. destruct v as [| | | | |kvs]; try discriminate.
    destruct (property "id" kvs) as [[[| | | i | |] r1] |]; try discriminate.
    destruct (property "name" r1) as [[[| | | n | |] r2] |]; try discriminate.
    destruct (property "email" r2) as [[[| | | e | |] r3] |]; try discriminate.
    destruct (as_age r3) as [a |] eqn:Ea; [| discriminate].
    injection Eu as <-. unfold safe_age. cbn [age].
    unfold as_age in Ea. destruct r3 as [|kv r3]; [injection Ea as <-; exact I |].
    destruct (property "age" (kv :: r3)) as [[[| | neg m x | | |] [|? ?]] |];
      try discriminate.
    destruct (as_integer neg m x) as [k |] eqn:Ek; [| discriminate].
    injection Ea as <-. eauto using as_integer_safe.
Qed.

(** The three states of the backing file, and what [loadUsers] does in
    each. *)
Lemma loadUsers_Content (d : disk) (raw : jsstring) :
  DATA_FILE d = Content raw ->
  loadUsers d =
  match parse raw with
  | None => Some (Throw SyntaxError, d)
  | Some (JArray vs) =>
      match as_Users vs with
      | Some users => Some (Ok users, d)
      | None => None
      end
  | Some _ => Some (Ok [], d)
  end.
Proof.
  intros Hd. unfold loadUsers, catch, bind, readFile. rewrite Hd.
  destruct (parse raw) as [[| | | | vs |] |]; try reflexivity.
  unfold cast. now destruct (as_Users vs).
Qed.

Lemma loadUsers_Missing (d : disk) :
  DATA_FILE d = Missing ->
  loadUsers d =
  match write_error d with
  | Some code => Some (Throw (SystemError code), d)
  | None => Some (Ok [], {| DATA_FILE := Content [91; 93]; write_error := None |})
  end.
Proof.
  intros Hd. unfold loadUsers, catch, bind, readFile. rewrite Hd.
  unfold saveUsers, writeFile. now destruct (write_error d).
Qed.

Lemma loadUsers_Unreadable (d : disk) :
  DATA_FILE d = Unreadable -> loadUsers d = Some (Throw (SystemError EACCES), d).
Proof.
  intros Hd. unfold loadUsers, catch, bind, readFile. now rewrite Hd.
Qed.

(** A store that was loaded: loading again gives the same records from
    the same file; the file was written only if it was missing. *)
Lemma loadUsers_Ok (d d' : disk) (users : list User) :
  loadUsers d = Some (Ok users, d') ->
  loadUsers d' = Some (Ok users, d') /\
  Forall safe_age users /\
  write_error d' = write_error d /\
  (DATA_FILE d <> Missing -> d' = d) /\
  (users <> [] -> d' = d).
Proof.
  destruct (DATA_FILE d) as [| |raw] eqn:Hd.
  - rewrite (loadUsers_Missing _ Hd).
    destruct (write_error d) eqn:Hw; [discriminate |].
    intros [= <- <-]. repeat split; auto; congruence.
  - rewrite (loadUsers_Unreadable _ Hd). discriminate.
  - intros Hl. pose proof Hl as Hl'. rewrite (loadUsers_Content _ _ Hd) in Hl.
    destruct (parse raw) as [[| | | | vs |] |]; try discriminate;
      try (injection Hl as <- <-; repeat split; auto; congruence).
    destruct (as_Users vs) as [us |] eqn:Eu; [| discriminate].
    injection Hl as <- <-. repeat split; eauto using as_Users_safe.
Qed.

(** Saving, when the write is accepted, then loading. *)
Lemma saveUsers_accepted (users : list User) (d : disk) :
  write_error d = None ->
  saveUsers users d =
  Some (Ok tt, {| DATA_FILE := Content (stringify users); write_error := None |}).
Proof. intros Hw. unfold saveUsers, writeFile. now rewrite Hw. Qed.

Lemma saveUsers_rejected (users : list User) (d : disk) (code : errcode) :
  write_error d = Some code ->
  saveUsers users d = Some (Throw (SystemError code), d).
Proof. intros Hw. unfold saveUsers, writeFile. now rewrite Hw. Qed.

Lemma loadUsers_stringify (users : list User) (w : option errcode) :
  Forall safe_age users ->
  let d := {| DATA_FILE := Content (stringify users); write_error := w |} in
  loadUsers d = Some (Ok users, d).
Proof.
  intros Hs d. rewrite (loadUsers_Content d (stringify users) eq_refl).
  now rewrite parse_stringify, as_Users_json.
Qed.

End Storage.

(** ** Generalities on lists and strings *)

Lemma str_eqb_eq (a b : jsstring) : str_eqb a b = true <-> a = b.
Proof. unfold str_eqb. apply bool_decide_eq_true. Qed.

Lemma str_eqb_neq (a b : jsstring) : str_eqb a b = false <-> a <> b.
Proof. unfold str_eqb. apply bool_decide_eq_false. Qed.

(** [users.filter(u => u.id !== id)] keeps the records with another
    [id], in their order. *)
Lemma filter_other_id (i : jsstring) (users : list User) :
  List.filter (fun u => negb (str_eqb (id u) i)) users =
  filter (fun u => id u <> i) users.
Proof.
  induction users as [|u us IH]; [reflexivity |].
  cbn [List.filter]. rewrite filter_cons, IH.
  destruct (decide (id u <> i)) as [Hne | He].
  - now rewrite (proj2 (str_eqb_neq _ _) Hne).
  - assert (id u = i) as Hi by (destruct (decide (id u = i)); tauto).
    now rewrite (proj2 (str_eqb_eq _ _) Hi).
Qed.

Lemma filter_other_id_length (i : jsstring) (users : list User) :
  has_id i users <->
  length (List.filter (fun u => negb (str_eqb (id u) i)) users) <> length users.
Proof.
  unfold has_id. induction users as [|u us IH].
  - split; [intros (u & Hu & _); inversion Hu | intros Hn; now elim Hn].
  - cbn [List.filter]. pose proof (List.filter_length_le
      (fun u => negb (str_eqb (id u) i)) us) as Hle.
    destruct (str_eqb (id u) i) eqn:E; cbn [negb length].
    + apply str_eqb_eq in E. split; [lia |]. intros _. exists u.
      split; [constructor | exact E].
    + apply str_eqb_neq in E. split.
      * intros (v & Hv & Hi). apply elem_of_cons in Hv as [-> | Hv]; [tauto |].
        assert (length (List.filter (fun u => negb (str_eqb (id u) i)) us)
                <> length us) by (apply IH; eauto). lia.
      * intros Hn. destruct (proj2 IH) as (v & Hv & Hi); [lia |].
        exists v. split; [now constructor | exact Hi].
Qed.

(** ** C9 and C10: what is saved is what is loaded; [deleteUser] *)

Import Storage.

Lemma valid_safe_age (u : User) : valid_User u -> safe_age u.
Proof.
  unfold valid_User, safe_age, valid_age, safe. intros (_ & _ & _ & Ha).
  destruct (age u); [| exact I].
  change (2 ^ 53)%Z with 9007199254740992%Z. lia.
Qed.

(** C9.  Round trip: for a list [X] of valid records, a [saveUsers(X)]
    that completes followed by [loadUsers()] yields [X] itself, the
    records in their order with every field, an absent age staying
    absent. *)
Theorem save_then_load (X : list User) (d d' : disk) :
  Forall valid_User X ->
  saveUsers X d = Some (Ok tt, d') ->
  loadUsers d' = Some (Ok X, d').
Proof.
  intros HX Hs. unfold saveUsers, writeFile in Hs.
  destruct (write_error d); [discriminate |]. injection Hs as <-.
  apply loadUsers_stringify.
  eapply List.Forall_impl; [apply valid_safe_age | exact HX].
Qed.

Lemma select_filter {A : Type} (P : A -> Prop) (f : A -> bool) (l : list A) :
  (forall x, f x = true <-> P x) -> select P l (List.filter f l).
Proof.
  intros Hf. induction l as [|x l IH]; cbn [List.filter]; [constructor |].
  destruct (f x) eqn:E.
  - apply select_keep; [now apply Hf | exact IH].
  - apply select_skip; [| exact IH]. intros HP. apply Hf in HP. congruence.
Qed.

Lemma select_elem_of {A : Type} (P : A -> Prop) (l l' : list A) :
  select P l l' -> forall x, x ∈ l' <-> x ∈ l /\ P x.
Proof.
  induction 1 as [|x l l' HP _ IH|x l l' HP _ IH]; intros y.
  - split; [intros Hy; inversion Hy | intros [Hy _]; inversion Hy].
  - rewrite !elem_of_cons, IH. split.
    + intros [-> | [? ?]]; auto.
    + intros [[-> | ?] ?]; auto.
  - rewrite elem_of_cons, IH. split.
    + intros [? ?]; auto.
    + intros [[-> | ?] ?]; [contradiction | auto].
Qed.

Lemma select_other_id (i : jsstring) (users : list User) :
  select (fun u => id u <> i) users
    (List.filter (fun u => negb (str_eqb (id u) i)) users).
Proof.
  apply select_filter. intros u. rewrite negb_true_iff. apply str_eqb_neq.
Qed.

Lemma Forall_filter_bool {A : Type} (P : A -> Prop) (f : A -> bool) (l : list A) :
  Forall P l -> Forall P (List.filter f l).
Proof.
  intros Hl. eapply incl_Forall; [apply incl_filter | exact Hl].
Qed.

Lemma startsWith_spec (s k : jsstring) :
  startsWith s k = true <-> exists b, s = k ++ b.
Proof.
  revert s. induction k as [|a k IH]; intros s; cbn [startsWith].
  - split; [intros _; exists s; reflexivity | now destruct s].
  - destruct s as [|c s]; cbn [startsWith].
    + split; [discriminate | intros [b Hb]; discriminate].
    + rewrite andb_true_iff, N.eqb_eq, IH. split.
      * intros [-> [b ->]]. exists b. reflexivity.
      * intros [b [= -> ->]]. split; [reflexivity | exists b; reflexivity].
Qed.

Lemma includes_spec (s k : jsstring) : includes s k = true <-> substring k s.
Proof.
  unfold substring. induction s as [|c s IH]; cbn [includes].
  - rewrite orb_false_r, startsWith_spec. split.
    + intros [b Hb]. exists [], b. exact Hb.
    + intros (a & b & Hab). destruct a; [exists b; exact Hab | discriminate].
  - rewrite orb_true_iff, startsWith_spec, IH. split.
    + intros [[b Hb] | (a & b & ->)].
      * exists [], b. exact Hb.
      * exists (c :: a), b. reflexivity.
    + intros (a & b & Hab). destruct a as [|c' a].
      * left. exists b. exact Hab.
      * right. injection Hab as -> ->. exists a, b. reflexivity.
Qed.

Lemma findIndex_None {A : Type} (p : A -> bool) (l : list A) :
  findIndex p l = None <-> forall x, x ∈ l -> p x = false.
Proof.
  induction l as [|x l IH]; cbn [findIndex].
  - split; [intros _ y Hy; inversion Hy | reflexivity].
  - destruct (p x) eqn:E.
    + split; [discriminate |]. intros Hall.
      rewrite (Hall x) in E by constructor. discriminate.
    + rewrite fmap_None, IH. split.
      * intros Hall y Hy. apply elem_of_cons in Hy as [-> | Hy]; auto.
      * intros Hall y Hy. apply Hall. now constructor.
Qed.

Lemma findIndex_Some {A : Type} (p : A -> bool) (l : list A) (i : nat) :
  findIndex p l = Some i ->
  exists x, l !! i = Some x /\ p x = true /\
            forall j y, (j < i)%nat -> l !! j = Some y -> p y = false.
Proof.
  revert i. induction l as [|x l IH]; intros i; cbn [findIndex]; [discriminate |].
  destruct (p x) eqn:E.
  - intros [= <-]. exists x. split; [reflexivity |]. split; [exact E |].
    intros j y Hj. lia.
  - intros Hi. apply fmap_Some in Hi as (i' & Hi' & ->).
    destruct (IH _ Hi') as (y & Hy & Hp & Hbefore).
    exists y. split; [exact Hy |]. split; [exact Hp |].
    intros [|j] z Hj Hz; [injection Hz as <-; exact E |].
    apply (Hbefore j); [lia | exact Hz].
Qed.

Lemma existsb_elem_of {A : Type} (p : A -> bool) (l : list A) :
  existsb p l = true <-> exists x, x ∈ l /\ p x = true.
Proof.
  rewrite existsb_exists. split; intros (x & Hx & Hp); exists x;
    (split; [now apply list_elem_of_In | exact Hp]).
Qed.

Lemma same_ci_eq `{CaseMap} (a b : jsstring) :
  same_ci a b = true <-> toLowerCase a = toLowerCase b.
Proof. apply str_eqb_eq. Qed.

(** *** [trim] *)

Lemma trimStart_head (s : jsstring) :
  match trimStart s with
  | [] => True
  | c :: _ => is_space c = false
  end.
Proof.
  induction s as [|c s IH]; cbn [trimStart]; [exact I |].
  destruct (is_space c) eqn:E; [exact IH | exact E].
Qed.

Lemma trimStart_fixed (c : N) (s : jsstring) :
  is_space c = false -> trimStart (c :: s) = c :: s.
Proof. intros E. cbn [trimStart]. now rewrite E. Qed.

Lemma trimStart_idem (s : jsstring) : trimStart (trimStart s) = trimStart s.
Proof.
  pose proof (trimStart_head s) as Hh.
  destruct (trimStart s) as [|c t]; [reflexivity | now apply trimStart_fixed].
Qed.

Lemma trimStart_snoc (s : jsstring) (c : N) :
  is_space c = false -> trimStart (s ++ [c]) = trimStart s ++ [c].
Proof.
  intros E. induction s as [|a s IH]; cbn [app trimStart].
  - now rewrite E.
  - destruct (is_space a); [exact IH | reflexivity].
Qed.

Lemma trimEnd_cons (c : N) (s : jsstring) :
  is_space c = false -> trimEnd (c :: s) = c :: trimEnd s.
Proof.
  intros E. unfold trimEnd. cbn [rev].
  rewrite trimStart_snoc by exact E. now rewrite rev_app_distr.
Qed.

Lemma trimEnd_idem (s : jsstring) : trimEnd (trimEnd s) = trimEnd s.
Proof. unfold trimEnd. now rewrite rev_involutive, trimStart_idem. Qed.

(** A trimmed string stays as it is. *)
Lemma trim_idem (s : jsstring) : trim (trim s) = trim s.
Proof.
  unfold trim. pose proof (trimStart_head s) as Hh.
  destruct (trimStart s) as [|c t]; [reflexivity |].
  rewrite (trimEnd_cons _ _ Hh), (trimStart_fixed _ _ Hh).
  rewrite <- (trimEnd_cons _ _ Hh). apply trimEnd_idem.
Qed.

Lemma trim_no_space (s : jsstring) :
  forallb (fun c => negb (is_space c)) s = true -> trim s = s.
Proof.
  intros Hs. unfold trim.
  assert (forall t, forallb (fun c => negb (is_space c)) t = true ->
                    trimStart t = t) as Hstart.
  { intros [|c t]; [reflexivity |]. cbn [forallb].
    rewrite andb_true_iff, negb_true_iff. intros [E _].
    now apply trimStart_fixed. }
  rewrite (Hstart s Hs). unfold trimEnd. rewrite Hstart.
  - apply rev_involutive.
  - rewrite forallb_forall in *. intros c Hc. apply Hs. now apply in_rev.
Qed.

(** ** [Number] on the decimal integers *)

Module NumFacts.
Import Num.

Local Open Scope Z_scope.

Lemma binade_integer (m : Z) :
  0 < m -> binade m 1 = Z.log2 m - 52.
Proof.
  intros Hm. unfold binade. change (Z.log2 1) with 0.
  pose proof (Z.log2_nonneg m) as HL.
  destruct (Z.log2_spec m Hm) as [Hlo _].
  set (L := Z.log2 m) in *.
  replace (L - 0 - 52 + 52) with L by lia.
  replace (Z.max 0 (- L)) with 0 by lia.
  replace (Z.max 0 L) with L by lia.
  replace (m * 2 ^ 0 <? 1 * 2 ^ L) with false
    by (symmetry; apply Z.ltb_ge; lia).
  lia.
Qed.

(** An integer below [2^53] is a double. *)
Lemma nearest_integer_small (m : Z) :
  0 <= m < 2 ^ 53 -> nearest_integer m 1 = Some m.
Proof.
  intros [H0 H53]. unfold nearest_integer.
  destruct (Z.eqb_spec m 0) as [-> | Hne]; [reflexivity |].
  assert (0 < m) as Hm by lia.
  rewrite (binade_integer m Hm).
  pose proof (Z.log2_nonneg m) as HL.
  assert (Z.log2 m < 53) as HL53 by (apply Z.log2_lt_pow2; lia).
  set (L := Z.log2 m) in *.
  assert (significand m 1 (L - 52) = m * 2 ^ (52 - L)) as ->.
  { unfold significand.
    replace (Z.max 0 (- (L - 52))) with (52 - L) by lia.
    replace (Z.max 0 (L - 52)) with 0 by lia.
    change (1 * 2 ^ 0) with 1. now rewrite Z.div_1_r, Z.mod_1_r. }
  destruct (0 <=? L - 52) eqn:E.
  - apply Z.leb_le in E. replace L with 52 by lia.
    change (2 ^ (52 - 52)) with 1. change (2 ^ (52 - 52)) with 1.
    rewrite !Z.mul_1_r.
    replace (m <? 2 ^ 1024) with true; [reflexivity |].
    symmetry. apply Z.ltb_lt.
    apply Z.lt_trans with (2 ^ 53); [exact H53 | reflexivity].
  - replace (- (L - 52)) with (52 - L) by lia.
    assert (2 ^ (52 - L) <> 0) as Hp by (apply Z.pow_nonzero; lia).
    rewrite Z.mod_mul by exact Hp. cbn [Z.eqb].
    now rewrite Z.div_mul by exact Hp.
Qed.

(** From [2^53] on, the nearest double is at least [2^53]. *)
Lemma nearest_integer_large (m : Z) :
  2 ^ 53 <= m ->
  match nearest_integer m 1 with
  | Some k => 2 ^ 53 <= k
  | None => True
  end.
Proof.
  intros H53. unfold nearest_integer.
  assert (0 < m) as Hm by (apply Z.lt_le_trans with (2 ^ 53); [reflexivity | exact H53]).
  destruct (Z.eqb_spec m 0) as [-> | Hne]; [lia |].
  rewrite (binade_integer m Hm).
  assert (53 <= Z.log2 m) as HL by (apply Z.log2_le_pow2; [exact Hm | exact H53]).
  destruct (Z.log2_spec m Hm) as [Hlo _].
  set (L := Z.log2 m) in *.
  replace (0 <=? L - 52) with true by (symmetry; apply Z.leb_le; lia).
  set (M := significand m 1 (L - 52)).
  assert (2 ^ 52 <= M) as HM.
  { unfold M, significand.
    replace (Z.max 0 (- (L - 52))) with 0 by lia.
    replace (Z.max 0 (L - 52)) with (L - 52) by lia.
    change (2 ^ 0) with 1. rewrite Z.mul_1_r, Z.mul_1_l.
    assert (0 < 2 ^ (L - 52)) as Hp by (apply Z.pow_pos_nonneg; lia).
    assert (2 ^ 52 <= m / 2 ^ (L - 52)) as Hq.
    { apply Z.div_le_lower_bound; [exact Hp |].
      rewrite <- Z.pow_add_r by lia. now replace (L - 52 + 52) with L by lia. }
    destruct (_ <? _); [exact Hq |].
    destruct (_ <? _); [lia |].
    destruct (Z.even _); lia. }
  destruct (M * 2 ^ (L - 52) <? 2 ^ 1024); [| exact I].
  assert (2 <= 2 ^ (L - 52)) as H2.
  { change 2 with (2 ^ 1) at 1. apply Z.pow_le_mono_r; lia. }
  change (2 ^ 53) with (2 ^ 52 * 2).
  apply Z.mul_le_mono_nonneg; [| exact HM | | exact H2]; [| lia].
  apply Z.lt_le_incl. reflexivity.
Qed.

Lemma digit_nonneg (base c : N) (d : Z) : digit base c = Some d -> 0 <= d.
Proof.
  unfold digit.
  repeat match goal with
         | |- context [if ?b then _ else _] => destruct b
         end; intros [= <-]; lia.
Qed.

Lemma value_of_nonneg (ds : list Z) :
  Forall (fun d => 0 <= d) ds -> 0 <= value_of 10 ds.
Proof.
  unfold value_of. intros Hds.
  assert (forall acc, 0 <= acc ->
          0 <= fold_left (fun a d => 10 * a + d) ds acc) as Hf.
  { induction Hds as [|d ds Hd _ IH]; intros acc Hacc; cbn [fold_left];
      [exact Hacc | apply IH; lia]. }
  apply Hf. lia.
Qed.

(** A string of decimal digits: its characters are no white space, and
    [span_digits] reads all of it. *)
Lemma all_digits_spec (s : jsstring) (ds : list Z) :
  Spec.all_digits s = Some ds ->
  span_digits 10 s = (ds, []) /\
  Forall (fun d => 0 <= d) ds /\
  Forall (fun c => (48 <= c <= 57)%N) s /\
  length ds = length s.
Proof.
  revert ds. induction s as [|c s IH]; intros ds; cbn [Spec.all_digits].
  - intros [= <-]. repeat split; constructor.
  - destruct (digit 10 c) as [d |] eqn:Ed; [| discriminate].
    destruct (Spec.all_digits s) as [ds' |]; [| discriminate].
    intros [= <-]. destruct (IH _ eq_refl) as (Hs & Hn & Hr & Hlen).
    cbn [span_digits]. rewrite Ed, Hs.
    split; [reflexivity |].
    split; [constructor; eauto using digit_nonneg |].
    split; [constructor; eauto using JSONFacts.is_digit_range |].
    cbn [length]. now rewrite Hlen.
Qed.

Lemma digits_no_space (s : jsstring) :
  Forall (fun c => (48 <= c <= 57)%N) s ->
  forallb (fun c => negb (is_space c)) s = true.
Proof.
  induction 1 as [|c s Hc _ IH]; [reflexivity |].
  cbn [forallb]. rewrite IH, andb_true_r. apply negb_true_iff.
  unfold is_space.
  repeat (apply orb_false_iff; split);
    try (apply andb_false_iff);
    rewrite ?N.eqb_neq, ?N.leb_gt; lia.
Qed.

(** What [unsigned_decimal] makes of digits alone. *)
Lemma unsigned_decimal_digits (neg : bool) (c : N) (s : jsstring) (ds : list Z) :
  Spec.all_digits (c :: s) = Some ds ->
  unsigned_decimal neg (c :: s) = Finite neg (value_of 10 ds) 0.
Proof.
  intros Hd. destruct (all_digits_spec _ _ Hd) as (Hs & _ & Hr & Hlen).
  unfold unsigned_decimal.
  replace (str_eqb (c :: s) (str "Infinity")) with false.
  - rewrite Hs. destruct ds as [|d ds]; [discriminate |].
    cbn [exponent_part length Z.of_nat]. now rewrite app_nil_r.
  - symmetry. apply str_eqb_neq. intros [= -> _].
    inversion Hr; subst. lia.
Qed.

Lemma non_decimal_digits (c : N) (s : jsstring) :
  Forall (fun c => (48 <= c <= 57)%N) (c :: s) -> non_decimal (c :: s) = None.
Proof.
  intros Hr. inversion Hr as [|? ? Hc Hs]; subst.
  assert (c = 48 \/ c = 49 \/ c = 50 \/ c = 51 \/ c = 52 \/ c = 53 \/
          c = 54 \/ c = 55 \/ c = 56 \/ c = 57)%N as Hd by lia.
  destruct s as [|p s].
  - repeat (destruct Hd as [-> | Hd]; [reflexivity |]). subst; reflexivity.
  - inversion Hs as [|? ? Hp _]; subst.
    assert (((p =? 98) || (p =? 66) = false) /\ ((p =? 111) || (p =? 79) = false)
            /\ ((p =? 120) || (p =? 88) = false))%N as (E1 & E2 & E3).
    { rewrite !orb_false_iff, !N.eqb_neq. lia. }
    destruct Hd as [-> | Hd].
    + cbn [non_decimal]. now rewrite E1, E2, E3.
    + repeat (destruct Hd as [-> | Hd]; [reflexivity |]). subst; reflexivity.
Qed.

(** [Number] on an optionally signed decimal integer. *)
Lemma Number_base10 (t : jsstring) (n : Z) :
  Spec.base10_integer t = Some n ->
  exists neg m,
    Number t = Finite neg m 0 /\ 0 <= m /\ n = (if neg then - m else m).
Proof.
  unfold Spec.base10_integer.
  destruct t as [|c s]; [discriminate |].
  assert (forall neg body ds,
    Spec.all_digits body = Some ds -> ds <> [] ->
    exists m, unsigned_decimal neg body = Finite neg m 0 /\ 0 <= m /\
              m = value_of 10 ds /\
              forallb (fun c => negb (is_space c)) body = true /\
              Forall (fun c => (48 <= c <= 57)%N) body) as Hbody.
  { intros neg body ds Hd Hne.
    destruct (all_digits_spec _ _ Hd) as (_ & Hn & Hr & Hlen).
    destruct body as [|b body]; [destruct ds; [contradiction | discriminate] |].
    exists (value_of 10 ds).
    split; [now apply unsigned_decimal_digits |].
    split; [now apply value_of_nonneg |].
    split; [reflexivity |]. split; [now apply digits_no_space | exact Hr]. }
  destruct (c =? 45)%N eqn:E45; [| destruct (c =? 43)%N eqn:E43].
  - apply N.eqb_eq in E45. subst c.
    destruct (Spec.all_digits s) as [[|d ds] |] eqn:Ed; try discriminate.
    intros [= <-].
    destruct (Hbody true s (d :: ds) Ed ltac:(discriminate))
      as (m & Hu & Hm & -> & Hsp & _).
    exists true, (value_of 10 (d :: ds)). split; [| split; [exact Hm | reflexivity]].
    unfold Number. rewrite trim_no_space by (cbn [forallb]; now rewrite Hsp).
    exact Hu.
  - apply N.eqb_eq in E43. subst c.
    destruct (Spec.all_digits s) as [[|d ds] |] eqn:Ed; try discriminate.
    intros [= <-].
    destruct (Hbody false s (d :: ds) Ed ltac:(discriminate))
      as (m & Hu & Hm & -> & Hsp & _).
    exists false, (value_of 10 (d :: ds)). split; [| split; [exact Hm | reflexivity]].
    unfold Number. rewrite trim_no_space by (cbn [forallb]; now rewrite Hsp).
    exact Hu.
  - destruct (Spec.all_digits (c :: s)) as [[|d ds] |] eqn:Ed; try discriminate.
    intros [= <-].
    destruct (Hbody false (c :: s) (d :: ds) Ed ltac:(discriminate))
      as (m & Hu & Hm & -> & Hsp & Hr).
    exists false, (value_of 10 (d :: ds)). split; [| split; [exact Hm | reflexivity]].
    unfold Number. rewrite trim_no_space by exact Hsp.
    pose proof (non_decimal_digits _ _ Hr) as Hnd.
    assert (c = 48 \/ c = 49 \/ c = 50 \/ c = 51 \/ c = 52 \/ c = 53 \/
            c = 54 \/ c = 55 \/ c = 56 \/ c = 57)%N as Hd
      by (inversion Hr; subst; lia).
    clear E45 E43 Ed Hsp Hr.
    repeat (destruct Hd as [-> | Hd]; [cbv iota; now rewrite Hnd, Hu |]).
    subst c. cbv iota. now rewrite Hnd, Hu.
Qed.

End NumFacts.

(** ** C8: [parseOptionalAge] *)

Lemma parseOptionalAge_cases (input : jsstring) :
  parseOptionalAge input =
  match trim input with
  | [] => Ok None
  | _ :: _ =>
      match Num.isInteger (Num.Number (trim input)) with
      | Some n =>
          if (0 <=? n)%Z && (n <=? 150)%Z then Ok (Some n) else Throw AgeInvalid
      | None => Throw AgeInvalid
      end
  end.
Proof.
  unfold parseOptionalAge. destruct (trim input) as [|c t]; [reflexivity |].
  destruct (Num.isInteger _) as [n |]; [| reflexivity].
  destruct (n <? 0)%Z eqn:E1, (150 <? n)%Z eqn:E2, (0 <=? n)%Z eqn:E3,
    (n <=? 150)%Z eqn:E4; try reflexivity; exfalso;
    rewrite ?Z.ltb_lt, ?Z.ltb_ge, ?Z.leb_le, ?Z.leb_gt in *; lia.
Qed.

Lemma isInteger_base10 (neg : bool) (m : Z) :
  (0 <= m)%Z ->
  match Num.isInteger (Num.Finite neg m 0) with
  | Some n =>
      if (m <? 2 ^ 53)%Z then n = (if neg then - m else m)%Z
      else (n < 0 \/ 150 < n)%Z
  | None => (2 ^ 53 <= m)%Z
  end.
Proof.
  intros Hm. unfold Num.isInteger. cbn [Z.leb Z.compare].
  change (10 ^ 0)%Z with 1%Z. rewrite Z.mul_1_r.
  destruct (m <? 2 ^ 53)%Z eqn:E.
  - apply Z.ltb_lt in E.
    now rewrite NumFacts.nearest_integer_small by lia.
  - apply Z.ltb_ge in E.
    pose proof (NumFacts.nearest_integer_large m E) as Hl.
    destruct (Num.nearest_integer m 1) as [k |]; [| exact E].
    assert (150 < 2 ^ 53)%Z by reflexivity.
    destruct neg; lia.
Qed.

(** C8 as amended.  [parseOptionalAge] trims its input and returns
    [undefined] for an empty rest.  Otherwise it converts the rest with
    [Number] (which reads decimal integers, and also fractions,
    exponents and [0x], [0o], [0b] literals) and throws the validation
    error unless the number is an integer from 0 to 150, which it
    returns.  On every optionally signed base-10 integer it does what
    the specification says.  0 and 150 are accepted. *)
Theorem parseOptionalAge_spec (input : jsstring) :
  (trim input = [] -> parseOptionalAge input = Ok None) /\
  (trim input <> [] ->
   match Num.isInteger (Num.Number (trim input)) with
   | Some n =>
       parseOptionalAge input =
       if (0 <=? n)%Z && (n <=? 150)%Z then Ok (Some n) else Throw AgeInvalid
   | None => parseOptionalAge input = Throw AgeInvalid
   end) /\
  (forall n, parseOptionalAge input = Ok (Some n) -> (0 <= n <= 150)%Z) /\
  (forall e, parseOptionalAge input = Throw e ->
     e = AgeInvalid /\ kind_of e = ValidationError) /\
  (forall n, Spec.base10_integer (trim input) = Some n ->
     parseOptionalAge input =
     if (0 <=? n)%Z && (n <=? 150)%Z then Ok (Some n) else Throw AgeInvalid) /\
  parseOptionalAge (str "0") = Ok (Some 0%Z) /\
  parseOptionalAge (str "150") = Ok (Some 150%Z).
Proof.
  rewrite (parseOptionalAge_cases input).
  split; [intros ->; reflexivity |].
  split; [destruct (trim input); [intros Hn; now elim Hn |];
          intros _; now destruct (Num.isInteger _) |].
  split.
  { intros n. destruct (trim input); [discriminate |].
    destruct (Num.isInteger _) as [k |]; [| discriminate].
    destruct ((0 <=? k)%Z && (k <=? 150)%Z) eqn:E; [| discriminate].
    intros [= <-]. apply andb_true_iff in E. rewrite !Z.leb_le in E. exact E. }
  split.
  { intros e. destruct (trim input); [discriminate |].
    destruct (Num.isInteger _) as [k |].
    - destruct ((0 <=? k)%Z && (k <=? 150)%Z); [discriminate |].
      intros [= <-]. split; reflexivity.
    - intros [= <-]. split; reflexivity. }
  split; [| split; reflexivity].
  intros n Hb.
  destruct (NumFacts.Number_base10 _ _ Hb) as (neg & m & HN & Hm & ->).
  destruct (trim input) as [|c t]; [discriminate |].
  rewrite HN. pose proof (isInteger_base10 neg m Hm) as Hi.
  assert (150 < 2 ^ 53)%Z as H150 by reflexivity.
  destruct (Num.isInteger (Num.Finite neg m 0)) as [k |].
  - destruct (m <? 2 ^ 53)%Z eqn:E; [now subst k |].
    apply Z.ltb_ge in E.
    replace ((0 <=? k)%Z && (k <=? 150)%Z) with false
      by (symmetry; apply andb_false_iff; rewrite Z.leb_gt, Z.leb_gt; lia).
    replace ((0 <=? (if neg then - m else m))%Z &&
             ((if neg then - m else m) <=? 150)%Z) with false; [reflexivity |].
    symmetry. apply andb_false_iff. rewrite Z.leb_gt, Z.leb_gt.
    destruct neg; lia.
  - replace ((0 <=? (if neg then - m else m))%Z &&
             ((if neg then - m else m) <=? 150)%Z) with false; [reflexivity |].
    symmetry. apply andb_false_iff. rewrite Z.leb_gt, Z.leb_gt.
    destruct neg; lia.
Qed.

Section Claims.

Context `{CaseMap}.

(** [deleteUser] and [searchUsers] on a store that was loaded. *)
Lemma deleteUser_found (d d1 : disk) (users : list User) (id_ : jsstring) :
  loadUsers d = Some (Ok users, d1) ->
  has_id id_ users ->
  write_error d = None ->
  deleteUser id_ d =
  Some (Ok true,
        {| DATA_FILE :=
             Content (JSON.stringify
               (List.filter (fun u => negb (str_eqb (id u) id_)) users));
           write_error := None |}).
Proof.
  intros Hl Hid Hw.
  destruct (loadUsers_Ok _ _ _ Hl) as (_ & _ & Hw1 & _).
  unfold deleteUser, bind. rewrite Hl.
  apply filter_other_id_length in Hid. apply Nat.eqb_neq in Hid. rewrite Hid.
  rewrite saveUsers_accepted by congruence. reflexivity.
Qed.

Lemma deleteUser_not_found (d d1 : disk) (users : list User) (id_ : jsstring) :
  loadUsers d = Some (Ok users, d1) ->
  ~ has_id id_ users ->
  deleteUser id_ d = Some (Throw DeleteNotFound, d1).
Proof.
  intros Hl Hn. unfold deleteUser, bind. rewrite Hl.
  replace (_ =? _)%nat with true; [reflexivity |].
  symmetry. apply Nat.eqb_eq.
  destruct (Nat.eq_dec (length (List.filter
    (fun u => negb (str_eqb (id u) id_)) users)) (length users)) as [E | E];
    [exact E |].
  apply filter_other_id_length in E. contradiction.
Qed.

Lemma searchUsers_run (d d1 : disk) (users : list User) (keyword : jsstring) :
  loadUsers d = Some (Ok users, d1) ->
  searchUsers keyword d =
  Some (Ok match toLowerCase (trim keyword) with
           | [] => users
           | k =>
               List.filter (fun u =>
                 includes (toLowerCase (id u)) k ||
                 includes (toLowerCase (name u)) k ||
                 includes (toLowerCase (email u)) k) users
           end, d1).
Proof.
  intros Hl. unfold searchUsers, bind. rewrite Hl.
  now destruct (toLowerCase (trim keyword)).
Qed.

Lemma includes_matches (k : jsstring) (u : User) :
  includes (toLowerCase (id u)) k ||
  includes (toLowerCase (name u)) k ||
  includes (toLowerCase (email u)) k = true <-> matches k u.
Proof. unfold matches. rewrite !orb_true_iff, !includes_spec. tauto. Qed.

(** C10.  On every store, also one in which several records share an
    [id], and for every [id] that some record has: a [deleteUser(id)]
    whose write is accepted succeeds, and the store then holds exactly
    the records with another [id], each of them and in the original
    order; no record with that [id] is left. *)
Theorem deleteUser_removes_every_match (d d1 : disk) (users : list User)
    (id_ : jsstring) :
  loadUsers d = Some (Ok users, d1) ->
  has_id id_ users ->
  write_error d = None ->
  exists d2 remaining,
    deleteUser id_ d = Some (Ok true, d2) /\
    loadUsers d2 = Some (Ok remaining, d2) /\
    select (fun u => id u <> id_) users remaining /\
    ~ has_id id_ remaining.
Proof.
  intros Hl Hid Hw.
  destruct (loadUsers_Ok _ _ _ Hl) as (_ & Hsafe & _).
  eexists _, _. split; [exact (deleteUser_found d d1 users id_ Hl Hid Hw) |].
  split; [apply loadUsers_stringify; now apply Forall_filter_bool |].
  split; [apply select_other_id |].
  intros (u & Hu & Hi).
  apply (select_elem_of _ _ _ (select_other_id id_ users)) in Hu.
  tauto.
Qed.

(** C3.  [searchUsers(keyword)] trims and lower-cases the keyword.  When
    the trimmed keyword is empty the result is the whole store.
    Otherwise the result holds exactly the records whose lower-cased
    [id], [name] or [email] contains the lower-cased trimmed keyword,
    in the order of the store.  The file is not written. *)
Theorem searchUsers_spec (d d1 : disk) (users : list User) (keyword : jsstring) :
  loadUsers d = Some (Ok users, d1) ->
  exists result,
    searchUsers keyword d = Some (Ok result, d1) /\
    (trim keyword = [] -> result = users) /\
    (trim keyword <> [] ->
     select (matches (toLowerCase (trim keyword))) users result).
Proof.
  intros Hl. rewrite (searchUsers_run d d1 users keyword Hl).
  eexists. split; [reflexivity |].
  destruct (toLowerCase (trim keyword)) as [|c k] eqn:Ek.
  - apply (proj1 (toLowerCase_nil _)) in Ek.
    split; [reflexivity | intros Hn; contradiction].
  - split.
    + intros Ht. apply (proj2 (toLowerCase_nil _)) in Ht. congruence.
    + intros _. apply select_filter. apply includes_matches.
Qed.

(** C1 as amended.  If the e-mail address of some record of the store
    equals the given one up to case, [addUser] fails: with the conflict
    error when the given address passes [isValidEmail], with the
    validation error when it does not (that check comes first).  In
    both cases the file system is left as it was. *)
Theorem addUser_duplicate_email (d d1 : disk) (users : list User)
    (uuid name_ email_ : jsstring) (age_ : option Z) :
  loadUsers d = Some (Ok users, d1) ->
  (exists u, u ∈ users /\ toLowerCase (email u) = toLowerCase email_) ->
  (isValidEmail email_ = true ->
   addUser uuid name_ email_ age_ d = Some (Throw EmailExists, d) /\
   kind_of EmailExists = ConflictError) /\
  (isValidEmail email_ = false ->
   addUser uuid name_ email_ age_ d = Some (Throw EmailInvalid, d) /\
   kind_of EmailInvalid = ValidationError).
Proof.
  intros Hl (u & Hu & He).
  assert (d1 = d) as ->.
  { apply (loadUsers_Ok _ _ _ Hl). intros ->. inversion Hu. }
  unfold addUser, bind. rewrite Hl. split; intros Hv; rewrite Hv; cbn [negb].
  - split; [| reflexivity].
    replace (existsb _ users) with true; [reflexivity |].
    symmetry. apply existsb_elem_of. exists u. split; [exact Hu |].
    now apply same_ci_eq.
  - split; reflexivity.
Qed.

(** The check of the e-mail address in [updateUser] leaves the file
    system alone, and passes exactly when the address, if one is given
    and not empty, is well formed and is not, up to case, the address of
    a record with another [id]. *)
Lemma check_email_spec (users : list User) (id_ : jsstring) (updates : Updates)
    (d : disk) :
  exists r,
    check_email users id_ updates d = Some (r, d) /\
    (r = Ok tt \/ r = Throw EmailInvalid \/ r = Throw EmailExistsOther) /\
    (r = Ok tt ->
     forall e, upd_email updates = Some e -> e <> [] ->
       isValidEmail e = true /\
       forall u, u ∈ users -> id u <> id_ ->
         toLowerCase (email u) <> toLowerCase e).
Proof.
  unfold check_email.
  destruct (upd_email updates) as [[|c e] |] eqn:Ee.
  - exists (Ok tt). split; [reflexivity |]. split; [auto |].
    intros _ e [= <-] Hne. now elim Hne.
  - destruct (isValidEmail (c :: e)) eqn:Ev; cbn [negb].
    + destruct (existsb _ users) eqn:Ex.
      * exists (Throw EmailExistsOther). split; [reflexivity |].
        split; [auto |]. discriminate.
      * exists (Ok tt). split; [reflexivity |]. split; [auto |].
        intros _ e' [= <-] _. split; [exact Ev |].
        intros u Hu Hid Heq.
        assert (existsb (fun u => same_ci (email u) (c :: e) &&
                                  negb (str_eqb (id u) id_)) users = true) as Ht.
        { apply existsb_elem_of. exists u. split; [exact Hu |].
          apply andb_true_iff. split; [now apply same_ci_eq |].
          apply negb_true_iff. now apply str_eqb_neq. }
        congruence.
    + exists (Throw EmailInvalid). split; [reflexivity |].
      split; [auto |]. discriminate.
  - exists (Ok tt). split; [reflexivity |]. split; [auto |].
    intros _ e [=].
Qed.

Lemma findIndex_id (users : list User) (id_ : jsstring) :
  match findIndex (fun u => str_eqb (id u) id_) users with
  | None => ~ has_id id_ users
  | Some idx =>
      exists old, users !! idx = Some old /\ id old = id_ /\
        forall j u, (j < idx)%nat -> users !! j = Some u -> id u <> id_
  end.
Proof.
  destruct (findIndex _ users) as [idx |] eqn:E.
  - destruct (findIndex_Some _ _ _ E) as (old & Ho & Hp & Hb).
    exists old. split; [exact Ho |]. split; [now apply str_eqb_eq |].
    intros j u Hj Hu. apply str_eqb_neq. eauto.
  - intros (u & Hu & Hi). rewrite findIndex_None in E.
    specialize (E u Hu). apply str_eqb_neq in E. contradiction.
Qed.

(** C4 as amended.  [updateUser] fails with the not-found error when no
    record has the [id].  When [updates] carries an e-mail address that
    is not the empty string, it succeeds only if that address passes
    [isValidEmail] and is not, up to case, the address of a record whose
    [id] differs from the given one. *)
Theorem updateUser_checks (d d1 : disk) (users : list User) (id_ : jsstring)
    (updates : Updates) :
  loadUsers d = Some (Ok users, d1) ->
  (~ has_id id_ users ->
   updateUser id_ updates d = Some (Throw UserNotFound, d1) /\
   kind_of UserNotFound = NotFoundError) /\
  (forall e r d2,
     upd_email updates = Some e -> e <> [] ->
     updateUser id_ updates d = Some (Ok r, d2) ->
     isValidEmail e = true /\
     forall u, u ∈ users -> id u <> id_ ->
       toLowerCase (email u) <> toLowerCase e).
Proof.
  intros Hl. pose proof (findIndex_id users id_) as Hf.
  unfold updateUser, bind. rewrite Hl.
  destruct (findIndex _ users) as [idx |].
  - split; [intros Hn; destruct Hf as (old & Ho & Hi & _); elim Hn;
            exists old; split; [eapply list_elem_of_lookup_2; eauto | exact Hi] |].
    intros e r d2 He Hne.
    destruct (check_email_spec users id_ updates d1) as (c & -> & Hc & Hok).
    destruct Hc as [-> | [-> | ->]]; try discriminate.
    intros _. now apply Hok.
  - split; [intros _; split; reflexivity | discriminate].
Qed.

(** C5.  A successful [updateUser(id, updates)] returns the first record
    with that [id] changed in the fields that [updates] gives and in no
    other; the [id] is kept.  The file then holds the store with that
    record at the same position and every other position as before; it
    loads again as such when the new age, if any, is an integer that a
    double holds. *)
Theorem updateUser_frame (d d1 d2 : disk) (users : list User) (id_ : jsstring)
    (updates : Updates) (r : User) :
  loadUsers d = Some (Ok users, d1) ->
  updateUser id_ updates d = Some (Ok r, d2) ->
  exists idx old,
    users !! idx = Some old /\ id old = id_ /\
    (forall j u, (j < idx)%nat -> users !! j = Some u -> id u <> id_) /\
    id r = id old /\
    name r = match upd_name updates with Some n => n | None => name old end /\
    email r = match upd_email updates with Some e => e | None => email old end /\
    age r = match upd_age updates with Some a => Some a | None => age old end /\
    DATA_FILE d2 = Content (JSON.stringify (<[idx := r]> users)) /\
    (<[idx := r]> users) !! idx = Some r /\
    (forall j, j <> idx -> (<[idx := r]> users) !! j = users !! j) /\
    length (<[idx := r]> users) = length users /\
    ((forall a, upd_age updates = Some a -> safe a) ->
     loadUsers d2 = Some (Ok (<[idx := r]> users), d2)).
Proof.
  intros Hl Hu. pose proof (findIndex_id users id_) as Hf.
  destruct (loadUsers_Ok _ _ _ Hl) as (_ & Hsafe & Hw1 & _).
  unfold updateUser, bind in Hu. rewrite Hl in Hu.
  destruct (findIndex _ users) as [idx |]; [| discriminate].
  destruct Hf as (old & Ho & Hi & Hb).
  destruct (check_email_spec users id_ updates d1) as (c & Hc & Hcases & _).
  rewrite Hc in Hu. destruct Hcases as [-> | [-> | ->]]; try discriminate.
  rewrite Ho in Hu. unfold saveUsers, writeFile in Hu.
  destruct (write_error d1); [discriminate |].
  injection Hu as <- <-.
  exists idx, old.
  split; [exact Ho |]. split; [exact Hi |]. split; [exact Hb |].
  split; [reflexivity |].
  split; [unfold spread, default; cbn [name]; now destruct (upd_name updates) |].
  split; [unfold spread, default; cbn [email]; now destruct (upd_email updates) |].
  split; [reflexivity |]. split; [reflexivity |].
  split; [apply list_lookup_insert_eq; eapply lookup_lt_Some; eauto |].
  split; [intros j Hj; apply list_lookup_insert_ne; auto |].
  split; [apply length_insert |].
  intros Ha. apply loadUsers_stringify.
  apply Forall_insert; [exact Hsafe |].
  unfold safe_age, spread. cbn [age].
  destruct (upd_age updates) as [a |]; [now apply Ha |].
  rewrite Forall_lookup in Hsafe. exact (Hsafe _ _ Ho).
Qed.

Lemma select_none {A : Type} (P : A -> Prop) (l l' : list A) :
  select P l l' -> (forall x, x ∈ l -> ~ P x) -> l' = [].
Proof.
  induction 1 as [|x l l' HP _ IH|x l l' HP _ IH]; intros Hn.
  - reflexivity.
  - elim (Hn x); [constructor | exact HP].
  - apply IH. intros y Hy. apply Hn. now constructor.
Qed.

(** C6 as amended.  If some record has the [id], a [deleteUser(id)]
    whose write is accepted succeeds and leaves the records with another
    [id], and a [searchUsers(id)] after it returns, of these remaining
    records and in their order, every one when the trimmed [id] is
    empty, and otherwise exactly those whose lower-cased [id], name or
    address holds the trimmed, lower-cased [id]: no record with the [id]
    that was deleted, and none at all when the trimmed [id] is not empty
    and occurs in no remaining record.  If no record has the [id],
    [deleteUser] fails with the not-found error and the store is as
    before: the same records are loaded, from the same file if there
    was one. *)
Theorem deleteUser_then_search (d d1 : disk) (users : list User)
    (id_ : jsstring) :
  loadUsers d = Some (Ok users, d1) ->
  (has_id id_ users -> write_error d = None ->
   exists d2 remaining found,
     deleteUser id_ d = Some (Ok true, d2) /\
     loadUsers d2 = Some (Ok remaining, d2) /\
     select (fun u => id u <> id_) users remaining /\
     searchUsers id_ d2 = Some (Ok found, d2) /\
     (trim id_ = [] -> found = remaining) /\
     (trim id_ <> [] ->
      select (matches (toLowerCase (trim id_))) remaining found) /\
     (forall u, u ∈ found -> u ∈ users /\ id u <> id_) /\
     (trim id_ <> [] ->
      (forall u, u ∈ users -> id u <> id_ ->
         ~ matches (toLowerCase (trim id_)) u) ->
      found = [])) /\
  (~ has_id id_ users ->
   deleteUser id_ d = Some (Throw DeleteNotFound, d1) /\
   kind_of DeleteNotFound = NotFoundError /\
   loadUsers d1 = Some (Ok users, d1) /\
   (DATA_FILE d <> Missing -> d1 = d)).
Proof.
  intros Hl. destruct (loadUsers_Ok _ _ _ Hl) as (Hl1 & Hsafe & _ & Hd & _).
  split.
  - intros Hid Hw.
    set (remaining := List.filter (fun u => negb (str_eqb (id u) id_)) users).
    assert (select (fun u => id u <> id_) users remaining) as Hsel
      by apply select_other_id.
    assert (forall u, u ∈ remaining <-> u ∈ users /\ id u <> id_) as Hrem
      by apply (select_elem_of _ _ _ Hsel).
    set (d2 := {| DATA_FILE := Content (JSON.stringify remaining);
                  write_error := None |}).
    assert (loadUsers d2 = Some (Ok remaining, d2)) as Hl2
      by (apply loadUsers_stringify; now apply Forall_filter_bool).
    eexists d2, remaining, _.
    split; [exact (deleteUser_found d d1 users id_ Hl Hid Hw) |].
    split; [exact Hl2 |]. split; [exact Hsel |].
    split; [apply (searchUsers_run d2 d2 remaining id_ Hl2) |].
    destruct (toLowerCase (trim id_)) as [|c k] eqn:Ek.
    + apply (proj1 (toLowerCase_nil _)) in Ek.
      split; [reflexivity |]. split; [intros Hn; contradiction |].
      split; [intros u Hu; now apply Hrem | intros Hn; contradiction].
    + assert (select (matches (c :: k)) remaining
                (List.filter (fun u =>
                   includes (toLowerCase (id u)) (c :: k) ||
                   includes (toLowerCase (name u)) (c :: k) ||
                   includes (toLowerCase (email u)) (c :: k)) remaining))
        as Hfound by (apply select_filter; apply includes_matches).
      split.
      { intros Ht. rewrite Ht in Ek.
        now rewrite (proj2 (toLowerCase_nil _) eq_refl) in Ek. }
      split; [intros _; exact Hfound |]. split.
      * intros u Hu. apply (select_elem_of _ _ _ Hfound) in Hu as [Hu _].
        now apply Hrem.
      * intros _ Hno. eapply select_none; [exact Hfound |].
        intros u Hu. apply Hrem in Hu as [Hu Hi]. now apply Hno.
  - intros Hn. split; [exact (deleteUser_not_found d d1 users id_ Hl Hn) |].
    auto.
Qed.

(** C7, with the write that creates the file taken into account.
    [loadUsers()], when the backing file does not exist, writes an empty
    JSON array: if the write is accepted the file exists afterwards and
    the result is the empty list, if it is rejected that error
    propagates.  When the file holds JSON that is not an array the
    result is the empty list and the file is left alone.  A file that
    cannot be read and a file that is not JSON make [loadUsers] fail
    with the error of the read or of the parser. *)
Theorem loadUsers_cases (d : disk) :
  (DATA_FILE d = Missing -> write_error d = None ->
   loadUsers d =
   Some (Ok [], {| DATA_FILE := Content (str "[]"); write_error := None |})) /\
  (forall code, DATA_FILE d = Missing -> write_error d = Some code ->
   loadUsers d = Some (Throw (SystemError code), d)) /\
  (forall raw v, DATA_FILE d = Content raw -> JSON.parse raw = Some v ->
   (forall vs, v <> JSON.JArray vs) ->
   loadUsers d = Some (Ok [], d)) /\
  (DATA_FILE d = Unreadable ->
   loadUsers d = Some (Throw (SystemError EACCES), d)) /\
  (forall raw, DATA_FILE d = Content raw -> JSON.parse raw = None ->
   loadUsers d = Some (Throw SyntaxError, d)).
Proof.
  repeat split.
  - intros Hd Hw. now rewrite (loadUsers_Missing _ Hd), Hw.
  - intros code Hd Hw. now rewrite (loadUsers_Missing _ Hd), Hw.
  - intros raw v Hd Hp Hv. rewrite (loadUsers_Content _ _ Hd), Hp.
    destruct v; try reflexivity. now elim (Hv l).
  - apply loadUsers_Unreadable.
  - intros raw Hd Hp. now rewrite (loadUsers_Content _ _ Hd), Hp.
Qed.

(** ** C2: the invariant of the store *)

Lemma requireNonEmpty_Ok (input fieldName v : jsstring) :
  requireNonEmpty input fieldName = Ok v ->
  v = trim input /\ v <> [] /\ trim v = v.
Proof.
  unfold requireNonEmpty. destruct (trim input) as [|c t] eqn:Et; [discriminate |].
  intros [= <-]. split; [reflexivity |]. split; [discriminate |].
  rewrite <- Et. apply trim_idem.
Qed.

Lemma parseOptionalAge_valid (input : jsstring) (a : option Z) :
  parseOptionalAge input = Ok a -> valid_age a.
Proof.
  rewrite parseOptionalAge_cases.
  destruct (trim input); [intros [= <-]; exact I |].
  destruct (Num.isInteger _) as [k |]; [| discriminate].
  destruct ((0 <=? k)%Z && (k <=? 150)%Z) eqn:E; [| discriminate].
  intros [= <-]. apply andb_true_iff in E. rewrite !Z.leb_le in E. exact E.
Qed.

Lemma valid_age_safe (a : option Z) (u : User) :
  valid_age a -> age u = a -> safe_age u.
Proof.
  unfold safe_age, valid_age, safe. intros Ha ->.
  destruct a; [| exact I]. change (2 ^ 53)%Z with 9007199254740992%Z. lia.
Qed.

(** What [addUser] does to a loaded store: it fails and leaves the file
    system as the load left it, or it appends the record. *)
Lemma addUser_outcome (d d1 : disk) (users : list User)
    (uuid name_ email_ : jsstring) (age_ : option Z) :
  loadUsers d = Some (Ok users, d1) ->
  let user := {| id := uuid; name := name_; email := email_; age := age_ |} in
  (exists e, addUser uuid name_ email_ age_ d = Some (Throw e, d1)) \/
  (isValidEmail email_ = true /\
   (forall u, u ∈ users -> toLowerCase (email u) <> toLowerCase email_) /\
   addUser uuid name_ email_ age_ d =
   Some (Ok user, {| DATA_FILE := Content (JSON.stringify (users ++ [user]));
                     write_error := None |})).
Proof.
  intros Hl user. unfold addUser, bind. rewrite Hl.
  destruct (isValidEmail email_) eqn:Ev; cbn [negb]; [| left; eauto].
  destruct (existsb _ users) eqn:Ex; [left; eauto |].
  unfold saveUsers, writeFile.
  destruct (write_error d1); [left; eauto |].
  right. split; [reflexivity |]. split; [| reflexivity].
  intros u Hu Heq.
  assert (existsb (fun u => same_ci (email u) email_) users = true) as Ht
    by (apply existsb_elem_of; exists u; split; [exact Hu | now apply same_ci_eq]).
  congruence.
Qed.

Lemma updateUser_outcome (d d1 : disk) (users : list User) (id_ : jsstring)
    (updates : Updates) :
  loadUsers d = Some (Ok users, d1) ->
  (exists e, updateUser id_ updates d = Some (Throw e, d1)) \/
  (exists idx old,
     users !! idx = Some old /\ id old = id_ /\
     (forall e, upd_email updates = Some e -> e <> [] ->
        isValidEmail e = true /\
        forall u, u ∈ users -> id u <> id_ ->
          toLowerCase (email u) <> toLowerCase e) /\
     updateUser id_ updates d =
     Some (Ok (spread old updates),
           {| DATA_FILE :=
                Content (JSON.stringify (<[idx := spread old updates]> users));
              write_error := None |})).
Proof.
  intros Hl. pose proof (findIndex_id users id_) as Hf.
  unfold updateUser, bind. rewrite Hl.
  destruct (findIndex _ users) as [idx |]; [| left; eauto].
  destruct Hf as (old & Ho & Hi & _).
  destruct (check_email_spec users id_ updates d1) as (c & -> & Hc & Hok).
  destruct Hc as [-> | [-> | ->]]; [| left; eauto | left; eauto].
  rewrite Ho. unfold saveUsers, writeFile.
  destruct (write_error d1); [left; eauto |].
  right. exists idx, old. repeat split; auto; now apply Hok.
Qed.

Lemma deleteUser_outcome (d d1 : disk) (users : list User) (id_ : jsstring) :
  loadUsers d = Some (Ok users, d1) ->
  (exists e, deleteUser id_ d = Some (Throw e, d1)) \/
  deleteUser id_ d =
  Some (Ok true,
        {| DATA_FILE :=
             Content (JSON.stringify
               (List.filter (fun u => negb (str_eqb (id u) id_)) users));
           write_error := None |}).
Proof.
  intros Hl. unfold deleteUser, bind. rewrite Hl.
  destruct (_ =? _)%nat; [left; eauto |].
  unfold saveUsers, writeFile.
  destruct (write_error d1); [left; eauto | now right].
Qed.

(** The invariant under the three changes of a store. *)
Lemma store_ok_snoc (users : list User) (u : User) :
  store_ok users -> ~ has_id (id u) users ->
  (forall v, v ∈ users -> toLowerCase (email v) <> toLowerCase (email u)) ->
  store_ok (users ++ [u]).
Proof.
  unfold store_ok, unique_ids, unique_emails. intros [Hi He] Hid Hem.
  rewrite !fmap_app. cbn [fmap list_fmap].
  split; apply list.NoDup_app; (split; [assumption | split; [| apply NoDup_singleton]]).
  - intros x Hx Hin. apply list_elem_of_singleton in Hin as ->.
    apply list_elem_of_fmap in Hx as (v & Hv & Hin).
    apply Hid. exists v. auto.
  - intros x Hx Hin. apply list_elem_of_singleton in Hin as ->.
    apply list_elem_of_fmap in Hx as (v & Hv & Hin).
    apply (Hem v Hin). auto.
Qed.

Lemma NoDup_insert_fresh {A : Type} (l : list A) (i : nat) (x : A) :
  NoDup l -> (forall j, j <> i -> l !! j <> Some x) -> NoDup (<[i := x]> l).
Proof.
  rewrite !NoDup_alt. intros Hl Hx j k y Hj Hk.
  apply list_lookup_insert_Some in Hj as [(-> & <- & Hlt) | (Hne & Hj)];
    apply list_lookup_insert_Some in Hk as [(-> & Heq & Hlt') | (Hne' & Hk)];
    subst; auto.
  - elim (Hx k); auto.
  - elim (Hx j); auto.
  - eauto.
Qed.

Lemma store_ok_insert (users : list User) (idx : nat) (old : User)
    (updates : Updates) :
  store_ok users -> users !! idx = Some old ->
  (forall e, upd_email updates = Some e ->
     forall u, u ∈ users -> id u <> id old ->
       toLowerCase (email u) <> toLowerCase e) ->
  store_ok (<[idx := spread old updates]> users).
Proof.
  unfold store_ok, unique_ids, unique_emails. intros [Hi He] Ho Hem.
  rewrite !list_fmap_insert. split.
  - cbn [spread id]. rewrite list_insert_id; [exact Hi |].
    now rewrite list_lookup_fmap, Ho.
  - cbn [spread email]. destruct (upd_email updates) as [e |] eqn:Ee;
      cbn [default].
    + apply NoDup_insert_fresh; [exact He |].
      intros j Hj Hl. rewrite list_lookup_fmap in Hl.
      destruct (users !! j) as [u |] eqn:Eu; [| discriminate].
      injection Hl as Hl.
      apply (Hem e eq_refl u); [eapply list_elem_of_lookup_2; eauto | | exact Hl].
      intros Hid. apply Hj.
      apply (NoDup_lookup _ j idx (id u) Hi);
        rewrite list_lookup_fmap; [now rewrite Eu | now rewrite Ho, Hid].
    + rewrite list_insert_id; [exact He |].
      now rewrite list_lookup_fmap, Ho.
Qed.

Lemma store_ok_filter (users : list User) (f : User -> bool) :
  store_ok users -> store_ok (List.filter f users).
Proof.
  assert (List.filter f users `sublist_of` users) as Hs.
  { induction users as [|u us IH]; cbn [List.filter]; [constructor |].
    destruct (f u); [now apply sublist_skip | now apply sublist_cons]. }
  unfold store_ok, unique_ids, unique_emails. intros [Hi He]. split.
  - eapply sublist_NoDup; [exact Hi | now apply fmap_sublist].
  - eapply sublist_NoDup; [exact He | now apply fmap_sublist].
Qed.

Lemma valid_User_spread (old : User) (updates : Updates) :
  valid_User old ->
  (forall n, upd_name updates = Some n -> n <> [] /\ trim n = n) ->
  (forall e, upd_email updates = Some e -> isValidEmail e = true) ->
  valid_age (upd_age updates) ->
  valid_User (spread old updates).
Proof.
  unfold valid_User, spread. cbn [name email age].
  intros (Hn1 & Hn2 & He & Ha) Hun Hue Hua.
  split; [| split; [| split]].
  - destruct (upd_name updates) as [n |]; cbn [default]; [now apply Hun | exact Hn1].
  - destruct (upd_name updates) as [n |]; cbn [default]; [now apply Hun | exact Hn2].
  - destruct (upd_email updates) as [e |]; cbn [default]; [now apply Hue | exact He].
  - destruct (upd_age updates) as [a |]; [exact Hua | exact Ha].
Qed.

(** The menu actions as changes of the stored list. *)
Lemma stored_loaded (d d1 : disk) (users : list User) :
  loadUsers d = Some (Ok users, d1) -> stored d users /\ stored d1 users.
Proof.
  intros Hl. split; [now exists d1 |].
  exists d1. now apply loadUsers_Ok in Hl.
Qed.

Lemma stored_stringify (users : list User) (w : option errcode) :
  Forall safe_age users ->
  stored {| DATA_FILE := Content (JSON.stringify users); write_error := w |} users.
Proof.
  intros Hs. eexists. now apply loadUsers_stringify.
Qed.

Lemma stored_safe (d : disk) (users : list User) :
  stored d users -> Forall safe_age users.
Proof. intros [d1 Hl]. now apply loadUsers_Ok in Hl. Qed.

Lemma stored_fun (d : disk) (users users' : list User) :
  stored d users -> stored d users' -> users' = users.
Proof. intros [d1 H1] [d2 H2]. congruence. Qed.

(** What [handleAdd] does to a stored list: nothing, or it appends a
    record that satisfies the validation rules. *)
Lemma handleAdd_cases (d : disk) (users : list User)
    (uuid nameRaw emailRaw ageRaw : jsstring) :
  stored d users ->
  exists out d2,
    handleAdd uuid nameRaw emailRaw ageRaw d = Some (Ok out, d2) /\
    ((stored d2 users /\ exists e, out = Throw e) \/
     (exists user,
        id user = uuid /\ valid_User user /\
        (forall u, u ∈ users -> toLowerCase (email u) <> toLowerCase (email user)) /\
        out = Ok user /\
        d2 = {| DATA_FILE := Content (JSON.stringify (users ++ [user]));
                write_error := None |})).
Proof.
  intros [d1 Hl]. destruct (stored_loaded d d1 users Hl) as [Hs Hs1].
  unfold handleAdd, printed, bind, lift.
  destruct (requireNonEmpty nameRaw _) as [name_ | e] eqn:En;
    [| exists (Throw e), d; eauto].
  destruct (requireNonEmpty emailRaw _) as [email_ | e] eqn:Ee;
    [| exists (Throw e), d; eauto].
  destruct (parseOptionalAge ageRaw) as [age_ | e] eqn:Ea;
    [| exists (Throw e), d; eauto].
  destruct (requireNonEmpty_Ok _ _ _ En) as (_ & Hn1 & Hn2).
  apply parseOptionalAge_valid in Ea.
  destruct (addUser_outcome d d1 users uuid name_ email_ age_ Hl)
    as [[e ->] | (Hv & Hfree & ->)]; [exists (Throw e), d1; eauto |].
  eexists _, _. split; [reflexivity |]. right.
  exists {| id := uuid; name := name_; email := email_; age := age_ |}.
  split; [reflexivity |]. split; [| split; [| split; reflexivity]].
  - unfold valid_User. cbn [name email age]. auto.
  - exact Hfree.
Qed.

(** What [handleUpdate] does to a stored list: nothing, or it puts in
    the place of a record that record overlaid with checked updates. *)
Lemma handleUpdate_cases (d : disk) (users : list User)
    (idRaw nameRaw emailRaw ageRaw : jsstring) :
  stored d users ->
  exists out d2,
    handleUpdate idRaw nameRaw emailRaw ageRaw d = Some (Ok out, d2) /\
    ((stored d2 users /\ forall r, out <> Ok (Some r)) \/
     (exists idx old updates,
        users !! idx = Some old /\ id old = trim idRaw /\
        (forall n, upd_name updates = Some n -> n <> [] /\ trim n = n) /\
        (forall e, upd_email updates = Some e ->
           isValidEmail e = true /\
           forall u, u ∈ users -> id u <> id old ->
             toLowerCase (email u) <> toLowerCase e) /\
        valid_age (upd_age updates) /\
        out = Ok (Some (spread old updates)) /\
        d2 = {| DATA_FILE :=
                  Content (JSON.stringify (<[idx := spread old updates]> users));
                write_error := None |})).
Proof.
  intros [d1 Hl]. destruct (stored_loaded d d1 users Hl) as [Hs Hs1].
  unfold handleUpdate, printed, bind, lift.
  destruct (requireNonEmpty idRaw _) as [id_ | e] eqn:Ei;
    [| exists (Throw e), d; split; [reflexivity | left; split; [exact Hs | discriminate]]].
  destruct (requireNonEmpty_Ok _ _ _ Ei) as (Hid_ & _ & _).
  set (upd_name_ := match trim nameRaw with [] => None | v => Some v end).
  set (upd_email_ := match trim emailRaw with [] => None | v => Some v end).
  assert (forall n, upd_name_ = Some n -> n <> [] /\ trim n = n) as Hname.
  { intros n. unfold upd_name_. destruct (trim nameRaw) eqn:E; [discriminate |].
    intros [= <-]. split; [discriminate |]. rewrite <- E. apply trim_idem. }
  assert (forall e, upd_email_ = Some e -> e <> []) as Hemail.
  { intros e. unfold upd_email_. destruct (trim emailRaw); [discriminate |].
    intros [= <-]. discriminate. }
  assert (exists ra : result (option Z),
    (match trim ageRaw with
     | [] => ret None
     | _ :: _ => fun d => Some (parseOptionalAge ageRaw, d)
     end) d = Some (ra, d) /\
    forall a, ra = Ok a -> valid_age a) as (ra & -> & Hage).
  { destruct (trim ageRaw) eqn:E.
    - exists (Ok None). split; [reflexivity |]. intros a [= <-]. exact I.
    - exists (parseOptionalAge ageRaw). split; [reflexivity |].
      intros a. apply parseOptionalAge_valid. }
  destruct ra as [upd_age_ | e];
    [| exists (Throw e), d; split; [reflexivity | left; split; [exact Hs | discriminate]]].
  specialize (Hage _ eq_refl).
  set (updates := {| upd_name := upd_name_; upd_email := upd_email_;
                     upd_age := upd_age_ |}).
  assert (exists out d2,
    match updateUser id_ updates d with
    | Some (Ok a, d') => ret (Some a) d'
    | Some (Throw e, d') => Some (Throw e, d')
    | None => None
    end = Some (out, d2) /\
    ((stored d2 users /\ forall r, out <> Ok (Some r)) \/
     (exists idx old updates,
        users !! idx = Some old /\ id old = trim idRaw /\
        (forall n, upd_name updates = Some n -> n <> [] /\ trim n = n) /\
        (forall e, upd_email updates = Some e ->
           isValidEmail e = true /\
           forall u, u ∈ users -> id u <> id old ->
             toLowerCase (email u) <> toLowerCase e) /\
        valid_age (upd_age updates) /\
        out = Ok (Some (spread old updates)) /\
        d2 = {| DATA_FILE :=
                  Content (JSON.stringify (<[idx := spread old updates]> users));
                write_error := None |}))) as Hupd.
  { destruct (updateUser_outcome d d1 users id_ updates Hl)
      as [[e ->] | (idx & old & Ho & Hid & Hchk & ->)].
    - exists (Throw e), d1. split; [reflexivity |]. left.
      split; [exact Hs1 | discriminate].
    - eexists _, _. split; [reflexivity |]. right. exists idx, old, updates.
      split; [exact Ho |]. split; [congruence |]. split; [exact Hname |].
      split; [| split; [exact Hage | split; reflexivity]].
      intros e He. cbn [upd_email updates] in He.
      destruct (Hchk e He (Hemail e He)) as [Hv Hfree].
      split; [exact Hv |]. intros u Hu Hne. apply Hfree; congruence. }
  destruct upd_name_, upd_email_, upd_age_; cbv beta iota;
    try (destruct Hupd as (out & d2 & -> & Hcases); exists out, d2;
         split; [reflexivity | exact Hcases]).
  exists (Ok None), d. split; [reflexivity |]. left.
  split; [exact Hs | discriminate].
Qed.

(** What [handleDelete] does to a stored list: nothing, or it keeps the
    records with another identifier. *)
Lemma handleDelete_cases (d : disk) (users : list User) (idRaw : jsstring) :
  stored d users ->
  exists out d2,
    handleDelete idRaw d = Some (Ok out, d2) /\
    ((stored d2 users /\ exists e, out = Throw e) \/
     (out = Ok true /\
      d2 = {| DATA_FILE :=
                Content (JSON.stringify
                  (List.filter (fun u => negb (str_eqb (id u) (trim idRaw))) users));
              write_error := None |})).
Proof.
  intros [d1 Hl]. destruct (stored_loaded d d1 users Hl) as [Hs Hs1].
  unfold handleDelete, printed, bind, lift.
  destruct (requireNonEmpty idRaw _) as [id_ | e] eqn:Ei;
    [| exists (Throw e), d; eauto].
  apply requireNonEmpty_Ok in Ei as (-> & _ & _).
  destruct (deleteUser_outcome d d1 users (trim idRaw) Hl) as [[e ->] | ->];
    [exists (Throw e), d1; eauto |].
  eexists _, _. split; [reflexivity |]. now right.
Qed.

(** The invariant of a session: the stored list has no two records
    with the same identifier or with addresses equal up to case, and
    each record satisfies the validation rules. *)
Lemma handleAdd_inv (d : disk) (users : list User)
    (uuid nameRaw emailRaw ageRaw : jsstring) :
  stored d users -> store_ok users -> Forall valid_User users ->
  ~ has_id uuid users ->
  exists out d2 users',
    handleAdd uuid nameRaw emailRaw ageRaw d = Some (out, d2) /\
    stored d2 users' /\ store_ok users' /\ Forall valid_User users' /\
    (forall u, u ∈ users' -> has_id (id u) users \/ id u = uuid).
Proof.
  intros Hs Hok Hv Hfresh.
  destruct (handleAdd_cases d users uuid nameRaw emailRaw ageRaw Hs)
    as (out & d2 & -> & [[Hs2 _] | (user & Hid & Hvu & Hfree & -> & ->)]).
  - exists (Ok out), d2, users. repeat split; try apply Hok; auto.
    intros u Hu. left. now exists u.
  - eexists _, _, (users ++ [user]). split; [reflexivity |].
    split; [| split; [| split]].
    + apply stored_stringify, Forall_app. split; [now apply (stored_safe d) |].
      apply Forall_singleton, valid_safe_age, Hvu.
    + apply store_ok_snoc; auto. now rewrite Hid.
    + apply Forall_app. split; [exact Hv | now apply Forall_singleton].
    + intros u Hu. apply elem_of_app in Hu as [Hu | Hu]; [left; now exists u |].
      apply list_elem_of_singleton in Hu as ->. now right.
Qed.

Lemma handleUpdate_inv (d : disk) (users : list User)
    (idRaw nameRaw emailRaw ageRaw : jsstring) :
  stored d users -> store_ok users -> Forall valid_User users ->
  exists out d2 users',
    handleUpdate idRaw nameRaw emailRaw ageRaw d = Some (out, d2) /\
    stored d2 users' /\ store_ok users' /\ Forall valid_User users' /\
    (forall u, u ∈ users' -> has_id (id u) users).
Proof.
  intros Hs Hok Hv.
  destruct (handleUpdate_cases d users idRaw nameRaw emailRaw ageRaw Hs)
    as (out & d2 & -> & [[Hs2 _] |
          (idx & old & updates & Ho & _ & Hn & He & Ha & -> & ->)]).
  - exists (Ok out), d2, users. repeat split; try apply Hok; auto.
    intros u Hu. now exists u.
  - assert (valid_User old) as Hvo
      by (rewrite Forall_lookup in Hv; exact (Hv _ _ Ho)).
    assert (valid_User (spread old updates)) as Hvn
      by (apply valid_User_spread; auto; intros e Hue; now apply He).
    eexists _, _, (<[idx := spread old updates]> users). split; [reflexivity |].
    split; [| split; [| split]].
    + apply stored_stringify, Forall_insert; [now apply (stored_safe d) |].
      now apply valid_safe_age.
    + apply (store_ok_insert users idx old updates Hok Ho).
      intros e Hue. now apply He.
    + now apply Forall_insert.
    + intros u Hu. apply list_elem_of_lookup in Hu as [j Hj].
      apply list_lookup_insert_Some in Hj as [(-> & <- & _) | (_ & Hj)].
      * exists old. split; [eapply list_elem_of_lookup_2; eauto | reflexivity].
      * exists u. split; [eapply list_elem_of_lookup_2; eauto | reflexivity].
Qed.

Lemma handleDelete_inv (d : disk) (users : list User) (idRaw : jsstring) :
  stored d users -> store_ok users -> Forall valid_User users ->
  exists out d2 users',
    handleDelete idRaw d = Some (out, d2) /\
    stored d2 users' /\ store_ok users' /\ Forall valid_User users' /\
    (forall u, u ∈ users' -> has_id (id u) users).
Proof.
  intros Hs Hok Hv.
  destruct (handleDelete_cases d users idRaw Hs)
    as (out & d2 & -> & [[Hs2 _] | (-> & ->)]).
  - exists (Ok out), d2, users. repeat split; try apply Hok; auto.
    intros u Hu. now exists u.
  - eexists _, _, _. split; [reflexivity |]. split; [| split; [| split]].
    + apply stored_stringify, Forall_filter_bool. now apply (stored_safe d).
    + now apply store_ok_filter.
    + now apply Forall_filter_bool.
    + intros u Hu. apply list_elem_of_In, filter_In in Hu as [Hu _].
      exists u. split; [now apply list_elem_of_In | reflexivity].
Qed.

Lemma unique_ids_snoc (users : list User) (u : User) :
  unique_ids (users ++ [u]) <-> unique_ids users /\ ~ has_id (id u) users.
Proof.
  unfold unique_ids, has_id. rewrite fmap_app. cbn [fmap list_fmap]. split.
  - intros Hn. apply list.NoDup_app in Hn as (Hu & Hx & _).
    split; [exact Hu |]. intros (v & Hv & Hi).
    apply (Hx (id u)); [| constructor].
    apply list_elem_of_fmap. exists v. auto.
  - intros [Hu Hn]. apply list.NoDup_app.
    split; [exact Hu |]. split; [| apply NoDup_singleton].
    intros x Hx Hin. apply list_elem_of_singleton in Hin as ->.
    apply list_elem_of_fmap in Hx as (v & Hv & Hin).
    apply Hn. exists v. auto.
Qed.

Lemma unique_emails_snoc (users : list User) (u : User) :
  unique_emails users ->
  (forall v, v ∈ users -> toLowerCase (email v) <> toLowerCase (email u)) ->
  unique_emails (users ++ [u]).
Proof.
  unfold unique_emails. intros He Hfree. rewrite fmap_app. cbn [fmap list_fmap].
  apply list.NoDup_app. split; [exact He |]. split; [| apply NoDup_singleton].
  intros x Hx Hin. apply list_elem_of_singleton in Hin as ->.
  apply list_elem_of_fmap in Hx as (v & Hv & Hin).
  apply (Hfree v Hin). auto.
Qed.

Lemma spread_fields (old : User) (updates : Updates) :
  (forall n, upd_name updates = Some n -> n <> [] /\ trim n = n) ->
  (forall e, upd_email updates = Some e -> isValidEmail e = true) ->
  valid_age (upd_age updates) ->
  let r := spread old updates in
  id r = id old /\
  (name r = name old \/ name r <> [] /\ trim (name r) = name r) /\
  (email r = email old \/ isValidEmail (email r) = true) /\
  (age r = age old \/ valid_age (age r)).
Proof.
  intros Hn He Ha r. unfold r, spread. cbn [id name email age].
  split; [reflexivity |]. split; [| split].
  - destruct (upd_name updates) as [n |]; cbn [default]; [right; now apply Hn | now left].
  - destruct (upd_email updates) as [e |]; cbn [default]; [right; now apply He | now left].
  - destruct (upd_age updates) as [a |]; [right; exact Ha | now left].
Qed.

(** C2 as amended.  On a store without two records of the same [id] or
    with e-mail addresses equal up to case:

    - each of the three changes, as the menu makes it (the action
      validates what was typed, then calls [addUser], [updateUser] or
      [deleteUser]), leaves a store without two addresses equal up to
      case.  [add] changes nothing or appends one record, which has
      the identifier from [randomUUID()] and satisfies the validation
      rules; the identifiers stay distinct when that identifier was
      not in the store, and a record that is appended with an
      identifier that was in the store leaves two records with it:
      [addUser] does not compare them.  [update] changes nothing or
      puts, in the place of a
      record with the trimmed identifier, a record with the same
      identifier whose name, address and age are each that of the
      replaced record or satisfy their rule; [delete] changes nothing
      or keeps exactly the records with another identifier;
    - [addUser] and [updateUser] on their own check the address only:
      what [addUser] appends has the name and the age that it was
      given, and what [updateUser] writes is the record overlaid
      with the updates; the identifiers stay distinct under
      [updateUser], and the addresses unless the new address is the
      empty text. *)
Theorem store_invariant_preserved (d d1 : disk) (users : list User) :
  loadUsers d = Some (Ok users, d1) ->
  store_ok users ->
  (forall uuid nameRaw emailRaw ageRaw,
     exists out d2 users',
       handleAdd uuid nameRaw emailRaw ageRaw d = Some (Ok out, d2) /\
       stored d2 users' /\
       unique_emails users' /\
       ((users' = users /\ exists e, out = Throw e) \/
        (exists user,
           out = Ok user /\ users' = users ++ [user] /\
           id user = uuid /\ valid_User user)) /\
       (~ has_id uuid users -> unique_ids users') /\
       (has_id uuid users -> forall user, out = Ok user -> ~ unique_ids users')) /\
  (forall idRaw nameRaw emailRaw ageRaw,
     exists out d2 users',
       handleUpdate idRaw nameRaw emailRaw ageRaw d = Some (Ok out, d2) /\
       stored d2 users' /\
       store_ok users' /\
       ((users' = users /\ forall r, out <> Ok (Some r)) \/
        (exists idx old r,
           out = Ok (Some r) /\ users !! idx = Some old /\
           users' = <[idx := r]> users /\
           id old = trim idRaw /\ id r = id old /\
           (name r = name old \/ name r <> [] /\ trim (name r) = name r) /\
           (email r = email old \/ isValidEmail (email r) = true) /\
           (age r = age old \/ valid_age (age r)) /\
           (valid_User old -> valid_User r)))) /\
  (forall idRaw,
     exists out d2 users',
       handleDelete idRaw d = Some (Ok out, d2) /\
       stored d2 users' /\
       store_ok users' /\
       ((users' = users /\ exists e, out = Throw e) \/
        (out = Ok true /\
         select (fun u => id u <> trim idRaw) users users'))) /\
  (forall uuid name_ email_ age_ user d2,
     addUser uuid name_ email_ age_ d = Some (Ok user, d2) ->
     user = {| id := uuid; name := name_; email := email_; age := age_ |} /\
     DATA_FILE d2 = Content (JSON.stringify (users ++ [user])) /\
     isValidEmail email_ = true /\
     unique_emails (users ++ [user]) /\
     (unique_ids (users ++ [user]) <-> ~ has_id uuid users)) /\
  (forall id_ updates r d2,
     updateUser id_ updates d = Some (Ok r, d2) ->
     exists idx old,
       users !! idx = Some old /\ id old = id_ /\ r = spread old updates /\
       DATA_FILE d2 = Content (JSON.stringify (<[idx := r]> users)) /\
       unique_ids (<[idx := r]> users) /\
       (upd_email updates <> Some [] -> unique_emails (<[idx := r]> users)) /\
       (forall e, upd_email updates = Some e -> e <> [] ->
          isValidEmail e = true)).
Proof.
  intros Hl Hok. destruct (stored_loaded d d1 users Hl) as [Hs Hs1].
  pose proof (stored_safe d users Hs) as Hsafe.
  destruct Hok as [Hui Hue]. split; [| split; [| split; [| split]]].
  - intros uuid nameRaw emailRaw ageRaw.
    destruct (handleAdd_cases d users uuid nameRaw emailRaw ageRaw Hs)
      as (out & d2 & -> & [[Hs2 [e ->]] | (user & Hid & Hvu & Hfree & -> & ->)]).
    + exists (Throw e), d2, users. split; [reflexivity |].
      split; [exact Hs2 |]. split; [exact Hue |]. split; [left; eauto |].
      split; [auto | discriminate].
    + eexists (Ok user), _, (users ++ [user]). split; [reflexivity |].
      split; [| split; [| split; [| split]]].
      * apply stored_stringify, Forall_app. split; [exact Hsafe |].
        apply Forall_singleton, valid_safe_age, Hvu.
      * now apply unique_emails_snoc.
      * right. exists user. auto.
      * intros Hfresh. apply unique_ids_snoc. rewrite Hid. auto.
      * intros Hdup u [= <-] Hn. apply unique_ids_snoc in Hn as [_ Hn].
        rewrite Hid in Hn. contradiction.
  - intros idRaw nameRaw emailRaw ageRaw.
    destruct (handleUpdate_cases d users idRaw nameRaw emailRaw ageRaw Hs)
      as (out & d2 & -> & [[Hs2 Hno] |
            (idx & old & updates & Ho & Hid & Hn & He & Ha & -> & ->)]).
    + exists out, d2, users. split; [reflexivity |]. split; [exact Hs2 |].
      split; [split; assumption | left; auto].
    + assert (forall e, upd_email updates = Some e -> isValidEmail e = true)
        as Hev by (intros e Hue'; now apply He).
      destruct (spread_fields old updates Hn Hev Ha) as (Hri & Hrn & Hre & Hra).
      eexists _, _, (<[idx := spread old updates]> users).
      split; [reflexivity |]. split; [| split].
      * apply stored_stringify, Forall_insert; [exact Hsafe |].
        unfold safe_age, spread. cbn [age].
        destruct (upd_age updates) as [n |].
        -- now apply (valid_age_safe (Some n)
                        {| id := []; name := []; email := []; age := Some n |}).
        -- rewrite Forall_lookup in Hsafe. exact (Hsafe _ _ Ho).
      * apply (store_ok_insert users idx old updates (conj Hui Hue) Ho).
        intros e Hue'. now apply He.
      * right. exists idx, old, (spread old updates).
        split; [reflexivity |]. split; [exact Ho |]. split; [reflexivity |].
        split; [exact Hid |]. split; [exact Hri |]. split; [exact Hrn |].
        split; [exact Hre |]. split; [exact Hra |].
        intros Hvo. now apply valid_User_spread.
  - intros idRaw.
    destruct (handleDelete_cases d users idRaw Hs)
      as (out & d2 & -> & [[Hs2 [e ->]] | (-> & ->)]).
    + exists (Throw e), d2, users. split; [reflexivity |]. split; [exact Hs2 |].
      split; [split; assumption | left; eauto].
    + eexists _, _, _. split; [reflexivity |]. split; [| split].
      * now apply stored_stringify, Forall_filter_bool.
      * now apply store_ok_filter.
      * right. split; [reflexivity | apply select_other_id].
  - intros uuid name_ email_ age_ user d2 Ha.
    destruct (addUser_outcome d d1 users uuid name_ email_ age_ Hl)
      as [[e He] | (Hv & Hfree & Hadd)]; [congruence |].
    rewrite Hadd in Ha. injection Ha as <- <-.
    split; [reflexivity |]. split; [reflexivity |]. split; [exact Hv |].
    split; [now apply unique_emails_snoc |].
    rewrite unique_ids_snoc. cbn [id]. tauto.
  - intros id_ updates r d2 Hu.
    destruct (updateUser_outcome d d1 users id_ updates Hl)
      as [[e He] | (idx & old & Ho & Hid & Hchk & Hupd)]; [congruence |].
    rewrite Hupd in Hu. injection Hu as <- <-.
    exists idx, old. split; [exact Ho |]. split; [exact Hid |].
    split; [reflexivity |]. split; [reflexivity |]. split; [| split].
    + unfold unique_ids. rewrite list_fmap_insert. cbn [spread id].
      rewrite list_insert_id; [exact Hui |].
      now rewrite list_lookup_fmap, Ho.
    + intros Hne.
      apply (store_ok_insert users idx old updates (conj Hui Hue) Ho).
      intros e Hue' u Hin Hid'. assert (e <> []) as Hnil by congruence.
      apply (proj2 (Hchk e Hue' Hnil) u Hin). congruence.
    + intros e Hue' Hnil. exact (proj1 (Hchk e Hue' Hnil)).
Qed.

End Claims.

(** ** The claims on sample stores *)

Module Examples.
Import Sample.

Lemma has_id_existsb (i : jsstring) (users : list User) :
  has_id i users <-> existsb (fun u => str_eqb (id u) i) users = true.
Proof.
  rewrite existsb_elem_of. unfold has_id.
  split; intros (u & Hu & Hi); exists u; (split; [exact Hu |]);
    now apply str_eqb_eq.
Qed.

Lemma valid_ann : valid_User ann.
Proof.
  unfold valid_User. split; [discriminate |].
  split; [reflexivity |]. split; [reflexivity |]. cbn. lia.
Qed.

Lemma valid_bob : valid_User bob.
Proof.
  unfold valid_User. split; [discriminate |].
  split; [reflexivity |]. split; [reflexivity |]. exact I.
Qed.

Lemma store_ok_ann_bob : @store_ok AsciiCase [ann; bob].
Proof.
  split; apply (bool_decide_unpack _); vm_compute; exact I.
Qed.

(** C1: the address [EVE] meets the stored address [eve], and [addUser]
    rejects it as ill formed, not as a duplicate. *)
Lemma addUser_invalid_email_first :
  loadUsers (disk_of [eve]) = Some (Ok [eve], disk_of [eve]) /\
  @toLowerCase AsciiCase (email eve) = @toLowerCase AsciiCase (str "EVE") /\
  @addUser AsciiCase (str "u9") (str "Eva") (str "EVE") None (disk_of [eve]) =
  Some (Throw EmailInvalid, disk_of [eve]) /\
  kind_of EmailInvalid = ValidationError.
Proof. repeat split; vm_compute; reflexivity. Qed.

Lemma addUser_duplicate_email_witness :
  loadUsers (disk_of [ann; bob]) = Some (Ok [ann; bob], disk_of [ann; bob]) /\
  (exists u, u ∈ [ann; bob] /\
     @toLowerCase AsciiCase (email u) = @toLowerCase AsciiCase (str "ANN@x.com")) /\
  @addUser AsciiCase (str "u9") (str "Bob") (str "ANN@x.com") None
    (disk_of [ann; bob]) =
  Some (Throw EmailExists, disk_of [ann; bob]).
Proof.
  assert (loadUsers (disk_of [ann; bob]) =
          Some (Ok [ann; bob], disk_of [ann; bob])) as Hl
    by (vm_compute; reflexivity).
  assert (exists u, u ∈ [ann; bob] /\
     @toLowerCase AsciiCase (email u) =
     @toLowerCase AsciiCase (str "ANN@x.com")) as Hu
    by (exists ann; split; [constructor | reflexivity]).
  split; [exact Hl |]. split; [exact Hu |].
  apply (@addUser_duplicate_email AsciiCase _ _ _ (str "u9") (str "Bob")
           (str "ANN@x.com") None Hl Hu).
  reflexivity.
Defined.

(** C2 on a store of two records: a third is added from what is typed. *)
(** C2: [addUser], called with an empty name and the age 999, stores
    them; called with an identifier that is in the store, it stores a
    second record with that identifier; [updateUser] stores the empty
    address. *)
Lemma addUser_stores_unchecked :
  @addUser AsciiCase (str "u9") [] (str "cy@x.com") (Some 999%Z)
    (disk_of [ann; bob]) =
  Some (Ok {| id := str "u9"; name := []; email := str "cy@x.com";
              age := Some 999%Z |},
        disk_of [ann; bob; {| id := str "u9"; name := [];
                              email := str "cy@x.com"; age := Some 999%Z |}]) /\
  @addUser AsciiCase (id ann) (str "Cy") (str "cy@x.com") None
    (disk_of [ann; bob]) =
  Some (Ok {| id := id ann; name := str "Cy"; email := str "cy@x.com";
              age := None |},
        disk_of [ann; bob; {| id := id ann; name := str "Cy";
                              email := str "cy@x.com"; age := None |}]) /\
  @updateUser AsciiCase (str "u1") (only_email []) (disk_of [ann; bob]) =
  Some (Ok {| id := str "u1"; name := str "Ann"; email := [];
              age := Some 30%Z |},
        disk_of [{| id := str "u1"; name := str "Ann"; email := [];
                    age := Some 30%Z |}; bob]).
Proof. repeat split; vm_compute; reflexivity. Qed.

Lemma store_invariant_witness :
  loadUsers (disk_of [ann; bob]) = Some (Ok [ann; bob], disk_of [ann; bob]) /\
  @store_ok AsciiCase [ann; bob] /\
  (exists out d2 users',
     @handleAdd AsciiCase (str "u9") (str " Cy ") (str "cy@x.com") (str "41")
       (disk_of [ann; bob]) = Some (Ok out, d2) /\
     stored d2 users' /\
     @unique_emails AsciiCase users' /\ unique_ids users' /\
     exists user, out = Ok user /\ users' = [ann; bob] ++ [user] /\
                  valid_User user) /\
  (exists out d2 users',
     @handleUpdate AsciiCase (str "u2") (str "Bo") [] (str "150")
       (disk_of [ann; bob]) = Some (Ok out, d2) /\
     stored d2 users' /\ @store_ok AsciiCase users' /\
     exists r, out = Ok (Some r) /\ users' = <[1%nat := r]> [ann; bob] /\
               valid_User r).
Proof.
  assert (loadUsers (disk_of [ann; bob]) =
          Some (Ok [ann; bob], disk_of [ann; bob])) as Hl
    by (vm_compute; reflexivity).
  split; [exact Hl |]. split; [exact store_ok_ann_bob |].
  destruct (@store_invariant_preserved AsciiCase _ _ _ Hl store_ok_ann_bob)
    as (Hadd & Hupd & _).
  split.
  - destruct (Hadd (str "u9") (str " Cy ") (str "cy@x.com") (str "41"))
      as (out & d2 & users' & H1 & H2 & H3 & H4 & H5 & _).
    exists out, d2, users'. split; [exact H1 |]. split; [exact H2 |].
    split; [exact H3 |]. split.
    + apply H5. rewrite has_id_existsb. vm_compute. discriminate.
    + destruct H4 as [[_ [e He]] | (user & Ho & Hu & _ & Hv)].
      * rewrite He in H1. vm_compute in H1. discriminate H1.
      * exists user. auto.
  - destruct (Hupd (str "u2") (str "Bo") [] (str "150"))
      as (out & d2 & users' & H1 & H2 & H3 & H4).
    exists out, d2, users'. split; [exact H1 |]. split; [exact H2 |].
    split; [exact H3 |].
    destruct H4 as [[_ Hno] | (idx & old & r & Ho & Hi & Hu & Hid & _ & _ & _ & _ & Hv)].
    + exfalso. vm_compute in H1. injection H1 as H1 _. exact (Hno _ (eq_sym H1)).
    + exists r. split; [exact Ho |].
      assert (idx = 1%nat /\ old = bob) as [-> ->].
      { destruct idx as [|[|idx]]; cbn in Hi.
        - injection Hi as <-. vm_compute in Hid. discriminate Hid.
        - injection Hi as <-. auto.
        - discriminate Hi. }
      split; [exact Hu | exact (Hv valid_bob)].
Defined.

Lemma searchUsers_witness :
  loadUsers (disk_of [ann; bob]) = Some (Ok [ann; bob], disk_of [ann; bob]) /\
  exists result,
    @searchUsers AsciiCase (str " ANN ") (disk_of [ann; bob]) =
    Some (Ok result, disk_of [ann; bob]) /\
    select (@matches AsciiCase (str "ann")) [ann; bob] result.
Proof.
  assert (loadUsers (disk_of [ann; bob]) =
          Some (Ok [ann; bob], disk_of [ann; bob])) as Hl
    by (vm_compute; reflexivity).
  split; [exact Hl |].
  destruct (@searchUsers_spec AsciiCase _ _ _ (str " ANN ") Hl)
    as (result & Hs & _ & Hm).
  exists result. split; [exact Hs |]. apply Hm. discriminate.
Defined.

(** C4: an empty address is stored without a check; an address that a
    second record with the same [id] has is accepted. *)
Lemma updateUser_unchecked_emails :
  (@updateUser AsciiCase (str "u1") (only_email []) (disk_of [ann]) =
   Some (Ok {| id := str "u1"; name := str "Ann"; email := [];
               age := Some 30%Z |},
         disk_of [{| id := str "u1"; name := str "Ann"; email := [];
                     age := Some 30%Z |}]) /\
   isValidEmail [] = false) /\
  (@updateUser AsciiCase (str "u1") (only_email (str "TWIN@x.com"))
     (disk_of [ann; twin]) =
   Some (Ok {| id := str "u1"; name := str "Ann"; email := str "TWIN@x.com";
               age := Some 30%Z |},
         disk_of [{| id := str "u1"; name := str "Ann";
                     email := str "TWIN@x.com"; age := Some 30%Z |}; twin]) /\
   loadUsers (disk_of [ann; twin]) = Some (Ok [ann; twin], disk_of [ann; twin]) /\
   @toLowerCase AsciiCase (email twin) =
   @toLowerCase AsciiCase (str "TWIN@x.com")).
Proof. repeat split; vm_compute; reflexivity. Qed.

Lemma updateUser_checks_witness :
  loadUsers (disk_of [ann; bob]) = Some (Ok [ann; bob], disk_of [ann; bob]) /\
  @updateUser AsciiCase (str "u7") (only_email (str "a@b.c")) (disk_of [ann; bob]) =
  Some (Throw UserNotFound, disk_of [ann; bob]).
Proof.
  assert (loadUsers (disk_of [ann; bob]) =
          Some (Ok [ann; bob], disk_of [ann; bob])) as Hl
    by (vm_compute; reflexivity).
  split; [exact Hl |].
  apply (@updateUser_checks AsciiCase _ _ _ (str "u7") (only_email (str "a@b.c")) Hl).
  rewrite has_id_existsb. vm_compute. discriminate.
Defined.

Lemma updateUser_frame_witness :
  loadUsers (disk_of [ann; bob]) = Some (Ok [ann; bob], disk_of [ann; bob]) /\
  @updateUser AsciiCase (str "u1") (only_age 31) (disk_of [ann; bob]) =
  Some (Ok {| id := str "u1"; name := str "Ann"; email := str "ann@x.com";
              age := Some 31%Z |},
        disk_of [{| id := str "u1"; name := str "Ann"; email := str "ann@x.com";
                    age := Some 31%Z |}; bob]) /\
  exists idx old,
    [ann; bob] !! idx = Some old /\ id old = str "u1" /\
    name old = str "Ann" /\ email old = str "ann@x.com".
Proof.
  assert (loadUsers (disk_of [ann; bob]) =
          Some (Ok [ann; bob], disk_of [ann; bob])) as Hl
    by (vm_compute; reflexivity).
  assert (@updateUser AsciiCase (str "u1") (only_age 31) (disk_of [ann; bob]) =
    Some (Ok {| id := str "u1"; name := str "Ann"; email := str "ann@x.com";
                age := Some 31%Z |},
          disk_of [{| id := str "u1"; name := str "Ann";
                      email := str "ann@x.com"; age := Some 31%Z |}; bob])) as Hu
    by (vm_compute; reflexivity).
  split; [exact Hl |]. split; [exact Hu |].
  destruct (@updateUser_frame AsciiCase _ _ _ _ _ _ _ Hl Hu)
    as (idx & old & Ho & Hi & _ & _ & Hn & He & _).
  exists idx, old. cbn in Hn, He. auto.
Defined.

(** C6: the name of the record that stays contains the [id] that was
    deleted, and the search for that [id] returns the record. *)
Lemma search_after_delete_finds_others :
  loadUsers (disk_of [ann; bob]) = Some (Ok [ann; bob], disk_of [ann; bob]) /\
  deleteUser (str "u1") (disk_of [ann; bob]) =
  Some (Ok true, disk_of [bob]) /\
  @searchUsers AsciiCase (str "u1") (disk_of [bob]) =
  Some (Ok [bob], disk_of [bob]).
Proof. repeat split; vm_compute; reflexivity. Qed.

Lemma deleteUser_then_search_witness :
  loadUsers (disk_of [ann; bob]) = Some (Ok [ann; bob], disk_of [ann; bob]) /\
  (exists d2 remaining found,
     deleteUser (str "u2") (disk_of [ann; bob]) = Some (Ok true, d2) /\
     loadUsers d2 = Some (Ok remaining, d2) /\
     select (fun u => id u <> str "u2") [ann; bob] remaining /\
     @searchUsers AsciiCase (str "u2") d2 = Some (Ok found, d2) /\
     select (@matches AsciiCase (@toLowerCase AsciiCase (trim (str "u2"))))
       remaining found /\
     found = []) /\
  deleteUser (str "u7") (disk_of [ann; bob]) =
  Some (Throw DeleteNotFound, disk_of [ann; bob]).
Proof.
  assert (loadUsers (disk_of [ann; bob]) =
          Some (Ok [ann; bob], disk_of [ann; bob])) as Hl
    by (vm_compute; reflexivity).
  split; [exact Hl |]. split.
  - destruct (@deleteUser_then_search AsciiCase _ _ _ (str "u2") Hl)
      as [Hfound _].
    destruct Hfound as (d2 & remaining & found & H1 & H2 & H3 & H4 & _ & H6 & _ & H8).
    + exists bob. split; [right; constructor | reflexivity].
    + reflexivity.
    + exists d2, remaining, found.
      split; [exact H1 |]. split; [exact H2 |]. split; [exact H3 |].
      split; [exact H4 |]. split; [apply H6; vm_compute; discriminate |].
      apply H8; [vm_compute; discriminate |].
      intros u Hu Hi Hm.
      apply elem_of_cons in Hu as [-> | Hu];
        [| apply list_elem_of_singleton in Hu as ->; now apply Hi].
      destruct Hm as [Hm | [Hm | Hm]]; apply includes_spec in Hm;
        vm_compute in Hm; discriminate Hm.
  - apply (@deleteUser_then_search AsciiCase _ _ _ (str "u7") Hl).
    rewrite has_id_existsb. vm_compute. discriminate.
Defined.

(** C7: no file and no directory to create it in. *)
Lemma loadUsers_write_rejected :
  DATA_FILE no_directory = Missing /\
  loadUsers no_directory = Some (Throw (SystemError ENOENT), no_directory).
Proof. split; reflexivity. Qed.

Lemma loadUsers_cases_witness :
  DATA_FILE no_file = Missing /\ write_error no_file = None /\
  loadUsers no_file = Some (Ok [], disk_of []).
Proof.
  split; [reflexivity |]. split; [reflexivity |].
  apply (loadUsers_cases no_file); reflexivity.
Defined.

(** C8: a hexadecimal literal, an exponent and a fraction are accepted. *)
Lemma parseOptionalAge_not_base10 :
  parseOptionalAge (str "0x10") = Ok (Some 16%Z) /\
  Spec.base10_integer (str "0x10") = None /\
  Spec.parseOptionalAge (str "0x10") = Throw AgeInvalid /\
  parseOptionalAge (str "1e2") = Ok (Some 100%Z) /\
  parseOptionalAge (str "12.0") = Ok (Some 12%Z).
Proof. repeat split; vm_compute; reflexivity. Qed.

Lemma parseOptionalAge_witness :
  Spec.base10_integer (trim (str " 42 ")) = Some 42%Z /\
  parseOptionalAge (str " 42 ") = Ok (Some 42%Z).
Proof.
  split; [reflexivity |].
  destruct (parseOptionalAge_spec (str " 42 ")) as (_ & _ & _ & _ & Hb & _).
  exact (Hb 42%Z eq_refl).
Defined.

Lemma save_then_load_witness :
  Forall valid_User [ann; bob] /\
  saveUsers [ann; bob] no_file = Some (Ok tt, disk_of [ann; bob]) /\
  loadUsers (disk_of [ann; bob]) = Some (Ok [ann; bob], disk_of [ann; bob]).
Proof.
  assert (Forall valid_User [ann; bob]) as Hv
    by (constructor; [exact valid_ann | constructor; [exact valid_bob | constructor]]).
  split; [exact Hv |]. split; [reflexivity |].
  apply (save_then_load [ann; bob] no_file); [exact Hv | reflexivity].
Defined.

Lemma deleteUser_removes_every_match_witness :
  loadUsers (disk_of [ann; twin; bob]) =
  Some (Ok [ann; twin; bob], disk_of [ann; twin; bob]) /\
  has_id (str "u1") [ann; twin; bob] /\
  write_error (disk_of [ann; twin; bob]) = None /\
  exists d2 remaining,
    deleteUser (str "u1") (disk_of [ann; twin; bob]) =
    Some (Ok true, d2) /\
    loadUsers d2 = Some (Ok remaining, d2) /\
    select (fun u => id u <> str "u1") [ann; twin; bob] remaining.
Proof.
  assert (loadUsers (disk_of [ann; twin; bob]) =
          Some (Ok [ann; twin; bob], disk_of [ann; twin; bob])) as Hl
    by (vm_compute; reflexivity).
  assert (has_id (str "u1") [ann; twin; bob]) as Hid
    by (exists ann; split; [constructor | reflexivity]).
  split; [exact Hl |]. split; [exact Hid |]. split; [reflexivity |].
  destruct (deleteUser_removes_every_match _ _ _ _ Hl Hid eq_refl)
    as (d2 & remaining & H1 & H2 & H3 & _).
  exists d2, remaining. auto.
Defined.

End Examples.

(** * Further properties of the code *)

(** ** Validation *)

Lemma plus_then_spec (k : jsstring -> bool) (s : jsstring) :
  plus_then k s = true <->
  exists l r, s = l ++ r /\ l <> [] /\
              Forall (fun c => cls c = true) l /\ k r = true.
Proof.
  induction s as [|c t IH]; cbn [plus_then].
  - split; [discriminate |].
    intros (l & r & Hs & Hl & _). destruct l; [congruence | discriminate].
  - rewrite andb_true_iff, orb_true_iff, IH. split.
    + intros [Hc [Hk | (l & r & -> & Hl & Hf & Hk)]].
      * exists [c], t. repeat split; auto; try discriminate.
      * exists (c :: l), r. repeat split; auto; try discriminate.
    + intros (l & r & Hs & Hl & Hf & Hk).
      destruct l as [|c' l]; [congruence |].
      injection Hs as <- ->. inversion Hf as [|? ? Hc Hf']; subst.
      split; [exact Hc |]. destruct l as [|c2 l]; [now left | right].
      exists (c2 :: l), r. repeat split; auto; try discriminate.
Qed.

Lemma lit_then_spec (a : N) (k : jsstring -> bool) (s : jsstring) :
  lit_then a k s = true <-> exists t, s = a :: t /\ k t = true.
Proof.
  destruct s as [|c t]; cbn [lit_then].
  - split; [discriminate | intros (? & ? & _); discriminate].
  - rewrite andb_true_iff, N.eqb_eq. split.
    + intros [-> Hk]. eauto.
    + intros (t' & [= -> ->] & Hk). auto.
Qed.

Lemma cls_spec (c : N) : cls c = true <-> is_space c = false /\ c <> 64.
Proof.
  unfold cls. rewrite andb_true_iff, !negb_true_iff, N.eqb_neq. tauto.
Qed.

Lemma cls_Forall (x : jsstring) :
  Forall (fun c => cls c = true) x <->
  Forall (fun c => is_space c = false /\ c <> 64) x.
Proof.
  split; intros Hx; (eapply List.Forall_impl; [| exact Hx]);
    intros c; apply cls_spec.
Qed.

Lemma isValidEmail_parts (email_ : jsstring) :
  isValidEmail email_ = true ->
  exists l d t,
    email_ = l ++ 64 :: d ++ 46 :: t /\
    l <> [] /\ d <> [] /\ t <> [] /\
    Forall (fun c => is_space c = false /\ c <> 64) (l ++ d ++ t).
Proof.
  unfold isValidEmail. rewrite plus_then_spec.
  intros (l & r & -> & Hl & Hfl & Hk).
  apply lit_then_spec in Hk as (r1 & -> & Hk).
  apply plus_then_spec in Hk as (d & r2 & -> & Hd & Hfd & Hk).
  apply lit_then_spec in Hk as (r3 & -> & Hk).
  apply plus_then_spec in Hk as (t & r4 & -> & Ht & Hft & Hk).
  destruct r4; [| discriminate]. rewrite app_nil_r.
  exists l, d, t. repeat split; auto.
  rewrite !Forall_app. repeat split; now apply cls_Forall.
Qed.

Lemma isValidEmail_no_space (email_ : jsstring) :
  isValidEmail email_ = true -> Forall (fun c => is_space c = false) email_.
Proof.
  intros Hv. apply isValidEmail_parts in Hv
    as (l & d & t & -> & _ & _ & _ & Hf).
  rewrite !Forall_app in Hf. destruct Hf as (Hfl & Hfd & Hft).
  assert (forall x, Forall (fun c => is_space c = false /\ c <> 64) x ->
            Forall (fun c => is_space c = false) x) as Hpart
    by (intros x Hx; eapply List.Forall_impl; [| exact Hx]; now intros c [Hc _]).
  rewrite Forall_app. split; [auto |].
  constructor; [reflexivity |]. rewrite Forall_app. split; [auto |].
  constructor; [reflexivity | auto].
Qed.

Lemma Forall_no_space (s : jsstring) :
  Forall (fun c => is_space c = false) s ->
  forallb (fun c => negb (is_space c)) s = true.
Proof.
  induction 1 as [|c s Hc _ IH]; [reflexivity |].
  cbn [forallb]. now rewrite Hc, IH.
Qed.

Lemma isValidEmail_trim (email_ : jsstring) :
  isValidEmail email_ = true -> trim email_ = email_.
Proof.
  intros Hv. now apply trim_no_space, Forall_no_space, isValidEmail_no_space.
Qed.

(** X1.  [isValidEmail] accepts exactly the texts [local@domain.rest] where
    each of the three parts is not empty and holds neither white space
    nor [@].  (The domain and the rest may hold dots.) *)
Theorem isValidEmail_iff (email_ : jsstring) :
  isValidEmail email_ = true <->
  exists l d t,
    email_ = l ++ 64 :: d ++ 46 :: t /\
    l <> [] /\ d <> [] /\ t <> [] /\
    Forall (fun c => is_space c = false /\ c <> 64) (l ++ d ++ t).
Proof.
  split; [apply isValidEmail_parts |].
  intros (l & d & t & -> & Hl & Hd & Ht & Hf).
  rewrite !Forall_app in Hf. destruct Hf as (Hfl & Hfd & Hft).
  apply cls_Forall in Hfl, Hfd, Hft.
  unfold isValidEmail. apply plus_then_spec.
  exists l, (64 :: d ++ 46 :: t). repeat split; auto.
  apply lit_then_spec. eexists. split; [reflexivity |].
  apply plus_then_spec. exists d, (46 :: t). repeat split; auto.
  apply lit_then_spec. eexists. split; [reflexivity |].
  apply plus_then_spec. exists t, []. rewrite app_nil_r. repeat split; auto.
Qed.

(** X2.  An accepted address holds no white space, so that trimming leaves
    it as it is; it holds exactly one [@] and at least five
    characters. *)
Theorem isValidEmail_shape (email_ : jsstring) :
  isValidEmail email_ = true ->
  trim email_ = email_ /\
  Forall (fun c => is_space c = false) email_ /\
  count_occ N.eq_dec email_ 64 = 1%nat /\
  (5 <= length email_)%nat.
Proof.
  intros Hv. split; [now apply isValidEmail_trim |].
  split; [now apply isValidEmail_no_space |].
  apply isValidEmail_parts in Hv as (l & d & t & -> & Hl & Hd & Ht & Hf).
  rewrite !Forall_app in Hf. destruct Hf as (Hfl & Hfd & Hft).
  assert (forall x, Forall (fun c => is_space c = false /\ c <> 64) x ->
            count_occ N.eq_dec x 64 = 0%nat) as Hpart.
  { intros x Hx. apply count_occ_not_In. intros Hin.
    rewrite List.Forall_forall in Hx. now destruct (Hx 64 Hin). }
  split.
  - rewrite count_occ_app, count_occ_cons_eq, count_occ_app by reflexivity.
    rewrite count_occ_cons_neq by discriminate.
    rewrite (Hpart l Hfl), (Hpart d Hfd), (Hpart t Hft). lia.
  - rewrite length_app. cbn [length]. rewrite length_app. cbn [length].
    destruct l; [congruence |]. destruct d; [congruence |].
    destruct t; [congruence |]. cbn [length]. lia.
Qed.

Lemma trimStart_nil (s : jsstring) :
  trimStart s = [] <-> forallb is_space s = true.
Proof.
  induction s as [|c s IH]; cbn [trimStart forallb]; [tauto |].
  destruct (is_space c); cbn [andb]; [exact IH |].
  split; discriminate.
Qed.

Lemma forallb_rev {A : Type} (p : A -> bool) (l : list A) :
  forallb p (rev l) = forallb p l.
Proof.
  induction l as [|x l IH]; [reflexivity |].
  cbn [rev forallb]. rewrite forallb_app, IH. cbn [forallb].
  rewrite andb_true_r. apply andb_comm.
Qed.

Lemma trim_nil (s : jsstring) : trim s = [] <-> forallb is_space s = true.
Proof.
  unfold trim, trimEnd. rewrite <- trimStart_nil. split.
  - intros Hr. destruct (trimStart s) as [|c t] eqn:Et; [reflexivity |].
    pose proof (trimStart_head s) as Hh. rewrite Et in Hh.
    rewrite <- Et in Hr.
    assert (trimStart (rev (trimStart s)) = []) as Hn
      by (now apply (f_equal (@rev N)) in Hr; rewrite rev_involutive in Hr).
    apply trimStart_nil in Hn. rewrite forallb_rev, Et in Hn.
    cbn [forallb] in Hn. now rewrite Hh in Hn.
  - now intros ->.
Qed.

Lemma trim_ends (s : jsstring) (c : N) :
  (head (trim s) = Some c -> is_space c = false) /\
  (list.last (trim s) = Some c -> is_space c = false).
Proof.
  unfold trim. split.
  - pose proof (trimStart_head s) as Hh.
    destruct (trimStart s) as [|a t]; [discriminate |].
    rewrite trimEnd_cons by exact Hh. now intros [= <-].
  - unfold trimEnd.
    pose proof (trimStart_head (rev (trimStart s))) as Hh.
    destruct (trimStart (rev (trimStart s))) as [|a t]; [discriminate |].
    cbn [rev]. rewrite last_snoc. now intros [= <-].
Qed.

(** X3.  [requireNonEmpty] throws exactly on the inputs that hold nothing
    but white space, with an error that names the field; on any other
    input it returns the input trimmed: a text that is not empty, that
    neither starts nor ends with white space, and that it would return
    unchanged. *)
Theorem requireNonEmpty_spec (input fieldName : jsstring) :
  (forallb is_space input = true ->
   requireNonEmpty input fieldName = Throw (EmptyField fieldName) /\
   kind_of (EmptyField fieldName) = ValidationError) /\
  (forallb is_space input = false ->
   requireNonEmpty input fieldName = Ok (trim input) /\
   trim input <> [] /\
   (forall c, head (trim input) = Some c -> is_space c = false) /\
   (forall c, list.last (trim input) = Some c -> is_space c = false) /\
   requireNonEmpty (trim input) fieldName = Ok (trim input)).
Proof.
  unfold requireNonEmpty. split.
  - intros Hs. apply trim_nil in Hs. now rewrite Hs.
  - intros Hs. assert (trim input <> []) as Hn
      by (intros Hn; apply trim_nil in Hn; congruence).
    rewrite trim_idem.
    assert (match trim input with [] => Throw (EmptyField fieldName)
                             | _ :: _ => Ok (trim input) end
            = Ok (trim input)) as ->
      by (destruct (trim input); [congruence | reflexivity]).
    split; [reflexivity |]. split; [exact Hn |].
    split; [intros c; apply trim_ends |].
    split; [intros c; apply trim_ends | reflexivity].
Qed.

(** ** The storage accessor *)

Lemma loadUsers_disk (d d' : disk) (r : result (list User)) :
  loadUsers d = Some (r, d') ->
  d' = d \/
  (DATA_FILE d = Missing /\ write_error d = None /\ r = Ok [] /\
   d' = {| DATA_FILE := Content (str "[]"); write_error := None |}).
Proof.
  destruct (DATA_FILE d) as [| |raw] eqn:Ed.
  - rewrite (loadUsers_Missing d Ed).
    destruct (write_error d); intros [= <- <-]; [now left | right; auto].
  - rewrite (loadUsers_Unreadable d Ed). intros [= <- <-]. now left.
  - rewrite (loadUsers_Content d raw Ed).
    destruct (JSON.parse raw) as [[| | | | vs |] |];
      try (intros [= <- <-]; now left).
    destruct (JSON.as_Users vs); [| discriminate].
    intros [= <- <-]. now left.
Qed.

Lemma loadUsers_rejecting (d d' : disk) (r : result (list User)) (code : errcode) :
  write_error d = Some code -> loadUsers d = Some (r, d') -> d' = d.
Proof.
  intros Hw Hl. apply loadUsers_disk in Hl as [-> | (_ & Hn & _)];
    [reflexivity | congruence].
Qed.

(** X4.  [loadUsers] writes nothing, except that it creates a missing file
    with the text of the empty array; the file system that it leaves
    answers a second [loadUsers] with the same list, and unchanged. *)
Theorem loadUsers_footprint (d d' : disk) (r : result (list User)) :
  loadUsers d = Some (r, d') ->
  (d' = d \/
   (DATA_FILE d = Missing /\ write_error d = None /\ r = Ok [] /\
    d' = {| DATA_FILE := Content (str "[]"); write_error := None |})) /\
  (forall users, r = Ok users -> loadUsers d' = Some (Ok users, d')).
Proof.
  intros Hl. split; [now apply loadUsers_disk |].
  intros users ->. now apply loadUsers_Ok in Hl.
Qed.

(** ** The repository *)

Section Repo.

Context `{CaseMap}.

Lemma existsb_false_elem_of {A : Type} (p : A -> bool) (l : list A) :
  existsb p l = false <-> forall x, x ∈ l -> p x = false.
Proof.
  induction l as [|y l IH]; cbn [existsb].
  - split; [intros _ x Hx; inversion Hx | reflexivity].
  - rewrite orb_false_iff, IH. split.
    + intros [Hy Hl] x Hx. apply elem_of_cons in Hx as [-> | Hx]; auto.
    + intros Hx. split; [apply Hx; constructor |].
      intros x Hin. apply Hx. now constructor.
Qed.

Lemma same_ci_neq (a b : jsstring) :
  same_ci a b = false <-> toLowerCase a <> toLowerCase b.
Proof.
  rewrite <- same_ci_eq. destruct (same_ci a b); split; congruence.
Qed.

Lemma addUser_passes (d d1 : disk) (users : list User)
    (uuid name_ email_ : jsstring) (age_ : option Z) :
  loadUsers d = Some (Ok users, d1) ->
  isValidEmail email_ = true ->
  (forall u, u ∈ users -> toLowerCase (email u) <> toLowerCase email_) ->
  let user := {| id := uuid; name := name_; email := email_; age := age_ |} in
  addUser uuid name_ email_ age_ d =
  match write_error d with
  | Some code => Some (Throw (SystemError code), d1)
  | None =>
      Some (Ok user, {| DATA_FILE := Content (JSON.stringify (users ++ [user]));
                        write_error := None |})
  end.
Proof.
  intros Hl Hv Hfree user.
  destruct (loadUsers_Ok _ _ _ Hl) as (_ & _ & Hw & _).
  unfold addUser, bind. rewrite Hl, Hv. cbn [negb].
  replace (existsb _ users) with false.
  - unfold saveUsers, writeFile. rewrite Hw. now destruct (write_error d).
  - symmetry. apply existsb_false_elem_of. intros u Hu.
    apply same_ci_neq. auto.
Qed.

(** X5.  [addUser] succeeds whenever the address is well formed, no stored
    address equals it up to case and the write is accepted: it returns
    the record with the identifier that [randomUUID()] gave and the
    three values as given, the file holds the former list with that
    record at its end, and [listUsers] returns that list. *)
Theorem addUser_succeeds (d d1 : disk) (users : list User)
    (uuid name_ email_ : jsstring) (age_ : option Z) :
  loadUsers d = Some (Ok users, d1) ->
  isValidEmail email_ = true ->
  (forall u, u ∈ users -> toLowerCase (email u) <> toLowerCase email_) ->
  write_error d = None ->
  let user := {| id := uuid; name := name_; email := email_; age := age_ |} in
  exists d2,
    addUser uuid name_ email_ age_ d = Some (Ok user, d2) /\
    DATA_FILE d2 = Content (JSON.stringify (users ++ [user])) /\
    (safe_age user -> listUsers d2 = Some (Ok (users ++ [user]), d2)).
Proof.
  intros Hl Hv Hfree Hw user.
  rewrite (addUser_passes d d1 users uuid name_ email_ age_ Hl Hv Hfree), Hw.
  eexists. split; [reflexivity |]. split; [reflexivity |].
  intros Hs. unfold listUsers. apply loadUsers_stringify.
  apply Forall_app. split; [now apply loadUsers_Ok in Hl |].
  now apply Forall_singleton.
Qed.

Lemma filter_fresh_id (users : list User) (user : User) :
  ~ has_id (id user) users ->
  List.filter (fun u => negb (str_eqb (id u) (id user))) (users ++ [user]) = users.
Proof.
  intros Hn. rewrite List.filter_app. cbn [List.filter].
  rewrite (proj2 (str_eqb_eq _ _) eq_refl). cbn [negb]. rewrite app_nil_r.
  induction users as [|u us IH]; [reflexivity |].
  cbn [List.filter].
  assert (id u <> id user) as Hne
    by (intros He; apply Hn; exists u; split; [constructor | exact He]).
  rewrite (proj2 (str_eqb_neq _ _) Hne). cbn [negb]. f_equal. apply IH.
  intros (v & Hv & Hi). apply Hn. exists v. split; [now constructor | exact Hi].
Qed.

(** X6.  Adding a record and then deleting the identifier that it was given
    restores the list, when that identifier was not in the store
    before: the file holds the former list again. *)
Theorem add_then_delete (d d1 d2 : disk) (users : list User)
    (uuid name_ email_ : jsstring) (age_ : option Z) (user : User) :
  loadUsers d = Some (Ok users, d1) ->
  ~ has_id uuid users ->
  addUser uuid name_ email_ age_ d = Some (Ok user, d2) ->
  safe_age user ->
  exists d3,
    deleteUser (id user) d2 = Some (Ok true, d3) /\
    DATA_FILE d3 = Content (JSON.stringify users) /\
    listUsers d3 = Some (Ok users, d3).
Proof.
  intros Hl Hfresh Ha Hs.
  destruct (loadUsers_Ok _ _ _ Hl) as (_ & Hsafe & _).
  destruct (addUser_outcome d d1 users uuid name_ email_ age_ Hl)
    as [[e He] | (_ & _ & Hadd)]; [congruence |].
  rewrite Hadd in Ha. injection Ha as <- <-.
  set (user := {| id := uuid; name := name_; email := email_; age := age_ |}) in *.
  assert (Forall safe_age (users ++ [user])) as Hall
    by (apply Forall_app; split; [exact Hsafe | now apply Forall_singleton]).
  pose proof (loadUsers_stringify (users ++ [user]) None Hall) as Hl2.
  cbv zeta in Hl2.
  assert (has_id (id user) (users ++ [user])) as Hid
    by (exists user; split; [apply elem_of_app; right; constructor | reflexivity]).
  rewrite (deleteUser_found _ _ _ (id user) Hl2 Hid eq_refl).
  rewrite (filter_fresh_id users user Hfresh).
  eexists. split; [reflexivity |]. split; [reflexivity |].
  unfold listUsers. now apply loadUsers_stringify.
Qed.

(** X7.  An operation of the repository that fails writes nothing: the file
    system is the one that the load of the operation left, and it holds
    the list as before. *)
Theorem failed_operation_keeps_store (d d1 d' : disk) (users : list User)
    (e : error) :
  loadUsers d = Some (Ok users, d1) ->
  (forall uuid name_ email_ age_,
     addUser uuid name_ email_ age_ d = Some (Throw e, d') ->
     d' = d1 /\ loadUsers d' = Some (Ok users, d')) /\
  (forall id_ updates,
     updateUser id_ updates d = Some (Throw e, d') ->
     d' = d1 /\ loadUsers d' = Some (Ok users, d')) /\
  (forall id_,
     deleteUser id_ d = Some (Throw e, d') ->
     d' = d1 /\ loadUsers d' = Some (Ok users, d')).
Proof.
  intros Hl. destruct (loadUsers_Ok _ _ _ Hl) as (Hl1 & _).
  split; [| split].
  - intros uuid name_ email_ age_ Ha.
    destruct (addUser_outcome d d1 users uuid name_ email_ age_ Hl)
      as [[e' He] | (_ & _ & Hadd)]; [| congruence].
    rewrite He in Ha. injection Ha as _ <-. auto.
  - intros id_ updates Hu.
    destruct (updateUser_outcome d d1 users id_ updates Hl)
      as [[e' He] | (idx & old & _ & _ & _ & Hupd)]; [| congruence].
    rewrite He in Hu. injection Hu as _ <-. auto.
  - intros id_ Hd.
    destruct (deleteUser_outcome d d1 users id_ Hl) as [[e' He] | Hdel];
      [| congruence].
    rewrite He in Hd. injection Hd as _ <-. auto.
Qed.

Lemma check_email_passes (users : list User) (id_ : jsstring)
    (updates : Updates) (d : disk) :
  (forall e, upd_email updates = Some e -> e <> [] ->
     isValidEmail e = true /\
     forall u, u ∈ users -> id u <> id_ ->
       toLowerCase (email u) <> toLowerCase e) ->
  check_email users id_ updates d = Some (Ok tt, d).
Proof.
  intros Hc. unfold check_email.
  destruct (upd_email updates) as [[|c e] |]; try reflexivity.
  destruct (Hc (c :: e) eq_refl ltac:(discriminate)) as [Hv Hfree].
  rewrite Hv. cbn [negb].
  replace (existsb _ users) with false; [reflexivity |].
  symmetry. apply existsb_false_elem_of. intros u Hu.
  destruct (str_eqb (id u) id_) eqn:E; cbn [negb]; [apply andb_false_r |].
  rewrite andb_true_r. apply same_ci_neq, Hfree; [exact Hu |].
  intros Hi. apply str_eqb_eq in Hi. congruence.
Qed.

Lemma updateUser_passes (d d1 : disk) (users : list User) (id_ : jsstring)
    (updates : Updates) :
  loadUsers d = Some (Ok users, d1) ->
  has_id id_ users ->
  (forall e, upd_email updates = Some e -> e <> [] ->
     isValidEmail e = true /\
     forall u, u ∈ users -> id u <> id_ ->
       toLowerCase (email u) <> toLowerCase e) ->
  exists idx old,
    users !! idx = Some old /\ id old = id_ /\
    (forall j u, (j < idx)%nat -> users !! j = Some u -> id u <> id_) /\
    updateUser id_ updates d =
    match write_error d with
    | Some code => Some (Throw (SystemError code), d1)
    | None =>
        Some (Ok (spread old updates),
              {| DATA_FILE :=
                   Content (JSON.stringify (<[idx := spread old updates]> users));
                 write_error := None |})
    end.
Proof.
  intros Hl Hid Hc.
  destruct (loadUsers_Ok _ _ _ Hl) as (_ & _ & Hw & _).
  pose proof (findIndex_id users id_) as Hf.
  unfold updateUser, bind. rewrite Hl.
  destruct (findIndex _ users) as [idx |]; [| contradiction].
  destruct Hf as (old & Ho & Hi & Hfirst).
  exists idx, old. split; [exact Ho |]. split; [exact Hi |].
  split; [exact Hfirst |].
  rewrite (check_email_passes users id_ updates d1 Hc), Ho.
  unfold saveUsers, writeFile. rewrite Hw. now destruct (write_error d).
Qed.

(** X8.  [updateUser] succeeds whenever a record has the identifier, the
    new address, if one is given and is not the empty text, is well
    formed and is not, up to case, the address of a record with another
    identifier, and the write is accepted.  The first record with that
    identifier is replaced by itself overlaid with the updates. *)
Theorem updateUser_succeeds (d d1 : disk) (users : list User) (id_ : jsstring)
    (updates : Updates) :
  loadUsers d = Some (Ok users, d1) ->
  has_id id_ users ->
  (forall e, upd_email updates = Some e -> e <> [] ->
     isValidEmail e = true /\
     forall u, u ∈ users -> id u <> id_ ->
       toLowerCase (email u) <> toLowerCase e) ->
  write_error d = None ->
  exists idx old d2,
    users !! idx = Some old /\ id old = id_ /\
    (forall j u, (j < idx)%nat -> users !! j = Some u -> id u <> id_) /\
    updateUser id_ updates d = Some (Ok (spread old updates), d2) /\
    DATA_FILE d2 =
      Content (JSON.stringify (<[idx := spread old updates]> users)).
Proof.
  intros Hl Hid Hc Hw.
  destruct (updateUser_passes d d1 users id_ updates Hl Hid Hc)
    as (idx & old & Ho & Hi & Hfirst & Hupd).
  rewrite Hw in Hupd. exists idx, old. eexists.
  repeat split; eauto.
Qed.

(** X9.  In a store without two addresses that are equal up to case, a
    record may be given its own address again, in any case of the
    letters, when the new spelling is well formed ([isValidEmail]
    accepts it) and the write is accepted: the collision test of
    [updateUser] leaves out the records with the identifier that is
    updated.  (The address of a stored record that is not well formed
    is refused when it is given again.) *)
Theorem updateUser_own_address (d d1 : disk) (users : list User)
    (old : User) (updates : Updates) (e : jsstring) :
  loadUsers d = Some (Ok users, d1) ->
  unique_emails users ->
  old ∈ users ->
  upd_email updates = Some e ->
  toLowerCase e = toLowerCase (email old) ->
  (isValidEmail e = true -> write_error d = None ->
   exists r d2,
     updateUser (id old) updates d = Some (Ok r, d2) /\ email r = e) /\
  (isValidEmail e = false -> e <> [] ->
   updateUser (id old) updates d = Some (Throw EmailInvalid, d1)).
Proof.
  intros Hl Hu Ho He Hci.
  assert (has_id (id old) users) as Hid by (exists old; auto).
  split.
  - intros Hv Hw.
    destruct (updateUser_passes d d1 users (id old) updates Hl Hid)
      as (idx & old' & _ & _ & _ & Hupd).
    + intros e' He' _. assert (e' = e) as -> by congruence.
      split; [exact Hv |]. intros u Hin Hne Heq.
      apply Hne. f_equal.
      apply list_elem_of_lookup in Hin as [i Hi].
      apply list_elem_of_lookup in Ho as [j Hj].
      assert (i = j) as ->; [| congruence].
      apply (NoDup_lookup _ i j (toLowerCase (email u)) Hu);
        rewrite list_lookup_fmap; [now rewrite Hi | rewrite Hj; cbn; congruence].
    + rewrite Hw in Hupd. eexists _, _. split; [exact Hupd |].
      unfold spread. cbn [email]. now rewrite He.
  - intros Hv Hn. pose proof (findIndex_id users (id old)) as Hf.
    unfold updateUser, bind. rewrite Hl.
    destruct (findIndex _ users) as [idx |]; [| contradiction].
    unfold check_email. rewrite He.
    destruct e as [|c t]; [congruence |]. now rewrite Hv.
Qed.

(** X10.  After [deleteUser] has removed the records with an identifier, a
    second [deleteUser] of that identifier fails with the not-found
    error and leaves the file as it is. *)
Theorem deleteUser_twice (d d1 : disk) (users : list User) (id_ : jsstring) :
  loadUsers d = Some (Ok users, d1) ->
  has_id id_ users ->
  write_error d = None ->
  exists d2,
    deleteUser id_ d = Some (Ok true, d2) /\
    deleteUser id_ d2 = Some (Throw DeleteNotFound, d2) /\
    kind_of DeleteNotFound = NotFoundError.
Proof.
  intros Hl Hid Hw.
  destruct (loadUsers_Ok _ _ _ Hl) as (_ & Hsafe & _).
  rewrite (deleteUser_found d d1 users id_ Hl Hid Hw).
  eexists. split; [reflexivity |]. split; [| reflexivity].
  set (rest := List.filter (fun u => negb (str_eqb (id u) id_)) users).
  assert (Forall safe_age rest) as Hrest by now apply Forall_filter_bool.
  pose proof (loadUsers_stringify rest None Hrest) as Hl2. cbv zeta in Hl2.
  apply (deleteUser_not_found _ _ rest id_ Hl2).
  intros (u & Hu & Hi). apply list_elem_of_In, filter_In in Hu as [_ Hu].
  apply negb_true_iff in Hu. apply str_eqb_eq in Hi. congruence.
Qed.

Lemma deleteUser_passes (d d1 : disk) (users : list User) (id_ : jsstring) :
  loadUsers d = Some (Ok users, d1) ->
  has_id id_ users ->
  deleteUser id_ d =
  match write_error d with
  | Some code => Some (Throw (SystemError code), d1)
  | None =>
      Some (Ok true,
            {| DATA_FILE :=
                 Content (JSON.stringify
                   (List.filter (fun u => negb (str_eqb (id u) id_)) users));
               write_error := None |})
  end.
Proof.
  intros Hl Hid.
  destruct (loadUsers_Ok _ _ _ Hl) as (_ & _ & Hw & _).
  unfold deleteUser, bind. rewrite Hl.
  apply filter_other_id_length in Hid. apply Nat.eqb_neq in Hid.
  rewrite Hid. unfold saveUsers, writeFile. rewrite Hw.
  now destruct (write_error d).
Qed.

(** X11.  When the file system rejects writes, an operation that passes its
    checks rejects with the error of the write, and the file system
    stays as it was. *)
Theorem rejected_write_propagates (d d1 : disk) (users : list User)
    (code : errcode) :
  loadUsers d = Some (Ok users, d1) ->
  write_error d = Some code ->
  d1 = d /\
  (forall uuid name_ email_ age_,
     isValidEmail email_ = true ->
     (forall u, u ∈ users -> toLowerCase (email u) <> toLowerCase email_) ->
     addUser uuid name_ email_ age_ d = Some (Throw (SystemError code), d)) /\
  (forall id_ updates,
     has_id id_ users ->
     (forall e, upd_email updates = Some e -> e <> [] ->
        isValidEmail e = true /\
        forall u, u ∈ users -> id u <> id_ ->
          toLowerCase (email u) <> toLowerCase e) ->
     updateUser id_ updates d = Some (Throw (SystemError code), d)) /\
  (forall id_,
     has_id id_ users ->
     deleteUser id_ d = Some (Throw (SystemError code), d)).
Proof.
  intros Hl Hw.
  assert (d1 = d) as -> by exact (loadUsers_rejecting d d1 _ code Hw Hl).
  split; [reflexivity |]. split; [| split].
  - intros uuid name_ email_ age_ Hv Hfree.
    rewrite (addUser_passes d d users uuid name_ email_ age_ Hl Hv Hfree).
    now rewrite Hw.
  - intros id_ updates Hid Hc.
    destruct (updateUser_passes d d users id_ updates Hl Hid Hc)
      as (idx & old & _ & _ & _ & ->). now rewrite Hw.
  - intros id_ Hid. rewrite (deleteUser_passes d d users id_ Hl Hid).
    now rewrite Hw.
Qed.

Lemma includes_refl (s : jsstring) : includes s s = true.
Proof. apply includes_spec. exists [], []. now rewrite app_nil_r. Qed.

Lemma searchUsers_field (d d1 : disk) (users : list User) (u : User)
    (k : jsstring) :
  loadUsers d = Some (Ok users, d1) ->
  u ∈ users ->
  trim k = k ->
  k = id u \/ k = name u \/ k = email u ->
  exists found, searchUsers k d = Some (Ok found, d1) /\ u ∈ found.
Proof.
  intros Hl Hu Ht Hk. rewrite (searchUsers_run d d1 users k Hl), Ht.
  eexists. split; [reflexivity |].
  destruct (toLowerCase k) as [|c t] eqn:Ek; [exact Hu |]. rewrite <- Ek.
  apply list_elem_of_In, filter_In. split; [now apply list_elem_of_In |].
  destruct Hk as [-> | [-> | ->]]; rewrite includes_refl;
    rewrite ?orb_true_r; reflexivity.
Qed.

(** X12.  A search for the whole identifier, name or address of a stored
    record, when that text neither starts nor ends with white space,
    returns that record among its results; so does a search for the
    address of a record whose address is well formed. *)
Theorem searchUsers_finds (d d1 : disk) (users : list User) (u : User) :
  loadUsers d = Some (Ok users, d1) ->
  u ∈ users ->
  (forall k, trim k = k -> k = id u \/ k = name u \/ k = email u ->
     exists found, searchUsers k d = Some (Ok found, d1) /\ u ∈ found) /\
  (isValidEmail (email u) = true ->
   exists found, searchUsers (email u) d = Some (Ok found, d1) /\ u ∈ found).
Proof.
  intros Hl Hu. split.
  - intros k Ht Hk. now apply (searchUsers_field d d1 users u k).
  - intros Hv. apply (searchUsers_field d d1 users u (email u)); auto.
    now apply isValidEmail_trim.
Qed.

(** ** The menu actions on what was typed *)

Lemma requireNonEmpty_trim (input fieldName : jsstring) :
  trim input <> [] -> requireNonEmpty input fieldName = Ok (trim input).
Proof.
  unfold requireNonEmpty. now destruct (trim input).
Qed.

(** X13.  [handleAdd] stores what was typed without the white space around
    it: when the name is not blank, the address, trimmed, is well
    formed and is not in the store up to case, the age is accepted and
    the write is accepted, the new record holds the trimmed name, the
    trimmed address and the age, and [listUsers] returns the former
    list with that record at its end. *)
Theorem handleAdd_succeeds (d d1 : disk) (users : list User)
    (uuid nameRaw emailRaw ageRaw : jsstring) (a : option Z) :
  loadUsers d = Some (Ok users, d1) ->
  trim nameRaw <> [] ->
  isValidEmail (trim emailRaw) = true ->
  (forall u, u ∈ users -> toLowerCase (email u) <> toLowerCase (trim emailRaw)) ->
  parseOptionalAge ageRaw = Ok a ->
  write_error d = None ->
  let user :=
    {| id := uuid; name := trim nameRaw; email := trim emailRaw; age := a |} in
  exists d2,
    handleAdd uuid nameRaw emailRaw ageRaw d = Some (Ok (Ok user), d2) /\
    listUsers d2 = Some (Ok (users ++ [user]), d2).
Proof.
  intros Hl Hn Hv Hfree Ha Hw user.
  assert (trim emailRaw <> []) as He by (intros E; now rewrite E in Hv).
  unfold handleAdd, printed, bind, lift.
  rewrite (requireNonEmpty_trim nameRaw _ Hn),
    (requireNonEmpty_trim emailRaw _ He), Ha.
  rewrite (addUser_passes d d1 users uuid _ _ a Hl Hv Hfree), Hw.
  eexists. split; [reflexivity |].
  unfold listUsers. apply loadUsers_stringify.
  apply Forall_app. split; [now apply loadUsers_Ok in Hl |].
  apply Forall_singleton. apply (valid_age_safe a); [| reflexivity].
  now apply (parseOptionalAge_valid ageRaw).
Qed.

Lemma parseOptionalAge_some (input : jsstring) (a : option Z) :
  trim input <> [] -> parseOptionalAge input = Ok a ->
  exists n, a = Some n /\ (0 <= n <= 150)%Z.
Proof.
  intros Hn Ha. pose proof (parseOptionalAge_valid input a Ha) as Hv.
  rewrite parseOptionalAge_cases in Ha.
  destruct (trim input); [congruence |].
  destruct (Num.isInteger _) as [k |]; [| discriminate].
  destruct (_ && _); [| discriminate].
  injection Ha as <-. now exists k.
Qed.

(** X14.  What [handleUpdate] puts in place of a record: the identifier is
    kept; a blank answer keeps the old name, address or age, any other
    answer replaces it with the trimmed name or address or with the
    age read.  An age that a record has can be replaced, never
    removed. *)
Theorem handleUpdate_blank_keeps (d d1 d2 : disk) (users : list User)
    (idRaw nameRaw emailRaw ageRaw : jsstring) (r : User) :
  loadUsers d = Some (Ok users, d1) ->
  handleUpdate idRaw nameRaw emailRaw ageRaw d = Some (Ok (Ok (Some r)), d2) ->
  exists old,
    old ∈ users /\ id old = trim idRaw /\ id r = id old /\
    name r = (match trim nameRaw with [] => name old | v => v end) /\
    email r = (match trim emailRaw with [] => email old | v => v end) /\
    (trim ageRaw = [] -> age r = age old) /\
    (trim ageRaw <> [] -> exists n, age r = Some n /\ (0 <= n <= 150)%Z) /\
    (age old <> None -> age r <> None).
Proof.
  intros Hl. unfold handleUpdate, printed, bind, lift.
  destruct (requireNonEmpty idRaw _) as [id_ | e] eqn:Ei; [| discriminate].
  apply requireNonEmpty_Ok in Ei as (-> & _ & _).
  set (upd_name_ := match trim nameRaw with [] => None | v => Some v end).
  set (upd_email_ := match trim emailRaw with [] => None | v => Some v end).
  assert (exists ra : result (option Z),
    (match trim ageRaw with
     | [] => ret None
     | _ :: _ => fun d => Some (parseOptionalAge ageRaw, d)
     end) d = Some (ra, d) /\
    forall a, ra = Ok a ->
      (trim ageRaw = [] -> a = None) /\
      (trim ageRaw <> [] -> exists n, a = Some n /\ (0 <= n <= 150)%Z))
    as (ra & -> & Hage).
  { destruct (trim ageRaw) eqn:E.
    - exists (Ok None). split; [reflexivity |]. intros a [= <-].
      split; [reflexivity | congruence].
    - exists (parseOptionalAge ageRaw). split; [reflexivity |].
      intros a Ha. split; [discriminate |]. intros _.
      apply (parseOptionalAge_some ageRaw a); [congruence | exact Ha]. }
  destruct ra as [upd_age_ | e]; [| discriminate].
  destruct (Hage _ eq_refl) as [Hblank Htyped].
  set (updates := {| upd_name := upd_name_; upd_email := upd_email_;
                     upd_age := upd_age_ |}).
  assert ((let* updated := updateUser (trim idRaw) updates in ret (Some updated)) d
            = Some (Ok (Some r), d2) ->
          exists old, old ∈ users /\ id old = trim idRaw /\
                      r = spread old updates) as Hupd.
  { unfold bind.
    destruct (updateUser_outcome d d1 users (trim idRaw) updates Hl)
      as [[e ->] | (idx & old & Ho & Hid & _ & ->)]; [discriminate |].
    intros [= <- <-]. exists old.
    split; [eapply list_elem_of_lookup_2; eauto | auto]. }
  intros Hrun.
  assert (exists old, old ∈ users /\ id old = trim idRaw /\
                      r = spread old updates) as (old & Ho & Hid & ->).
  { unfold bind, ret in Hupd.
    destruct upd_name_, upd_email_, upd_age_; cbv beta iota in Hrun;
      unfold ret in Hrun;
      try discriminate Hrun;
      apply Hupd;
      destruct (updateUser _ _ d) as [[[u |] ?] |]; congruence. }
  exists old. split; [exact Ho |]. split; [exact Hid |].
  split; [reflexivity |]. unfold spread. cbn [name email age upd_name
    upd_email upd_age updates]. unfold upd_name_, upd_email_.
  split; [now destruct (trim nameRaw) |].
  split; [now destruct (trim emailRaw) |].
  split; [intros Hb; now rewrite (Hblank Hb) |].
  split.
  - intros Ht. destruct (Htyped Ht) as (n & -> & Hn). eauto.
  - destruct upd_age_; [discriminate | auto].
Qed.

(** X15.  [handleUpdate] with an identifier and nothing but blank answers says
    that nothing changes, and neither reads nor writes the file. *)
Theorem handleUpdate_nothing_to_change
    (idRaw nameRaw emailRaw ageRaw : jsstring) (d : disk) :
  trim idRaw <> [] -> trim nameRaw = [] -> trim emailRaw = [] ->
  trim ageRaw = [] ->
  handleUpdate idRaw nameRaw emailRaw ageRaw d = Some (Ok (Ok None), d).
Proof.
  intros Hi Hn He Ha. unfold handleUpdate, printed, bind, lift.
  unfold Validation.requireNonEmpty. rewrite Hn, He, Ha.
  destruct (trim idRaw); [congruence | reflexivity].
Qed.

End Repo.

(** ** The earlier draft *)

Module DraftFacts.

Lemma draft_loadUsers_same (d : disk) :
  DATA_FILE d <> Missing -> Draft.loadUsers d = loadUsers d.
Proof.
  intros Hd. destruct (DATA_FILE d) as [| |raw] eqn:Ed; [congruence | |].
  - rewrite (loadUsers_Unreadable d Ed).
    unfold Draft.loadUsers, catch, bind, readFile. now rewrite Ed.
  - rewrite (loadUsers_Content d raw Ed).
    unfold Draft.loadUsers, catch, bind, readFile. rewrite Ed.
    destruct (JSON.parse raw) as [[| | | | vs |] |]; try reflexivity.
    unfold cast. now destruct (JSON.as_Users vs).
Qed.

Lemma draft_loadUsers_Missing (d : disk) :
  DATA_FILE d = Missing -> Draft.loadUsers d = Some (Ok [], d).
Proof.
  intros Hd. unfold Draft.loadUsers, catch, bind, readFile. now rewrite Hd.
Qed.

Lemma draft_loadUsers_disk (d d' : disk) (r : result (list User)) :
  Draft.loadUsers d = Some (r, d') -> d' = d.
Proof.
  destruct (DATA_FILE d) as [| |raw] eqn:Ed.
  - rewrite (draft_loadUsers_Missing d Ed). congruence.
  - rewrite draft_loadUsers_same by congruence. intros Hl.
    apply loadUsers_disk in Hl as [-> | (Hm & _)]; congruence.
  - rewrite draft_loadUsers_same by congruence. intros Hl.
    apply loadUsers_disk in Hl as [-> | (Hm & _)]; congruence.
Qed.

Lemma draft_saveUsers_run (users : list User) (d : disk) :
  Draft.saveUsers users d =
  Some (Ok tt,
        match write_error d with
        | Some _ => d
        | None => {| DATA_FILE := Content (JSON.stringify users);
                     write_error := None |}
        end).
Proof.
  unfold Draft.saveUsers, catch, writeFile. now destruct (write_error d).
Qed.

(** X16.  The draft of [loadUsers] never writes: a missing file is answered
    with the empty list and stays missing, where the program creates
    it; on a file that exists the draft reads what the program reads. *)
Theorem draft_loadUsers_never_writes (d : disk) :
  (forall r d', Draft.loadUsers d = Some (r, d') -> d' = d) /\
  (DATA_FILE d = Missing -> Draft.loadUsers d = Some (Ok [], d)) /\
  (DATA_FILE d <> Missing -> Draft.loadUsers d = loadUsers d).
Proof.
  split; [intros r d'; apply draft_loadUsers_disk |].
  split; [apply draft_loadUsers_Missing | apply draft_loadUsers_same].
Qed.

Lemma draft_addUser_run (d d1 : disk) (users : list User)
    (uuid name_ email_ : jsstring) (age_ : option Z) :
  Draft.loadUsers d = Some (Ok users, d1) ->
  let user := {| id := uuid; name := name_; email := email_; age := age_ |} in
  Draft.addUser uuid name_ email_ age_ d =
  Some (Ok user,
        match write_error d with
        | Some _ => d
        | None => {| DATA_FILE := Content (JSON.stringify (users ++ [user]));
                     write_error := None |}
        end).
Proof.
  intros Hl user. assert (d1 = d) as -> by now apply draft_loadUsers_disk in Hl.
  unfold Draft.addUser, bind. now rewrite Hl, draft_saveUsers_run.
Qed.

Lemma draft_updateUser_run (d d1 : disk) (users : list User) (id_ : jsstring)
    (updates : Updates) :
  Draft.loadUsers d = Some (Ok users, d1) ->
  has_id id_ users ->
  exists idx old,
    users !! idx = Some old /\ id old = id_ /\
    (forall j u, (j < idx)%nat -> users !! j = Some u -> id u <> id_) /\
    Draft.updateUser id_ updates d =
    Some (Ok (spread old updates),
          match write_error d with
          | Some _ => d
          | None =>
              {| DATA_FILE :=
                   Content (JSON.stringify (<[idx := spread old updates]> users));
                 write_error := None |}
          end).
Proof.
  intros Hl Hid. assert (d1 = d) as -> by now apply draft_loadUsers_disk in Hl.
  pose proof (findIndex_id users id_) as Hf.
  unfold Draft.updateUser, bind. rewrite Hl.
  destruct (findIndex _ users) as [idx |]; [| contradiction].
  destruct Hf as (old & Ho & Hi & Hfirst). exists idx, old.
  split; [exact Ho |]. split; [exact Hi |]. split; [exact Hfirst |].
  now rewrite Ho, draft_saveUsers_run.
Qed.

Lemma draft_deleteUser_run (d d1 : disk) (users : list User) (id_ : jsstring) :
  Draft.loadUsers d = Some (Ok users, d1) ->
  has_id id_ users ->
  Draft.deleteUser id_ d =
  Some (Ok true,
        match write_error d with
        | Some _ => d
        | None =>
            {| DATA_FILE :=
                 Content (JSON.stringify
                   (List.filter (fun u => negb (str_eqb (id u) id_)) users));
               write_error := None |}
        end).
Proof.
  intros Hl Hid. assert (d1 = d) as -> by now apply draft_loadUsers_disk in Hl.
  unfold Draft.deleteUser, bind. rewrite Hl.
  apply filter_other_id_length in Hid. apply Nat.eqb_neq in Hid.
  now rewrite Hid, draft_saveUsers_run.
Qed.

(** X17.  The draft of [addUser] and of [updateUser] check no address: with
    the write accepted, [addUser] appends the record whatever its
    address, and [updateUser] overlays the first record that has the
    identifier (no record before it has it) with the updates whatever
    the new address. *)
Theorem draft_unchecked (d d1 : disk) (users : list User) :
  Draft.loadUsers d = Some (Ok users, d1) ->
  write_error d = None ->
  (forall uuid name_ email_ age_,
     let user := {| id := uuid; name := name_; email := email_; age := age_ |} in
     Draft.addUser uuid name_ email_ age_ d =
     Some (Ok user,
           {| DATA_FILE := Content (JSON.stringify (users ++ [user]));
              write_error := None |})) /\
  (forall id_ updates,
     has_id id_ users ->
     exists idx old,
       users !! idx = Some old /\ id old = id_ /\
       (forall j u, (j < idx)%nat -> users !! j = Some u -> id u <> id_) /\
       Draft.updateUser id_ updates d =
       Some (Ok (spread old updates),
             {| DATA_FILE :=
                  Content (JSON.stringify (<[idx := spread old updates]> users));
                write_error := None |})).
Proof.
  intros Hl Hw. split.
  - intros uuid name_ email_ age_ user.
    rewrite (draft_addUser_run d d1 users uuid name_ email_ age_ Hl).
    now rewrite Hw.
  - intros id_ updates Hid.
    destruct (draft_updateUser_run d d1 users id_ updates Hl Hid)
      as (idx & old & Ho & Hi & Hfirst & Hu).
    rewrite Hw in Hu. exists idx, old. auto.
Qed.

(** X18.  The draft of [saveUsers] catches the error of a rejected write, so
    that a change is lost without a sign: when writes are rejected,
    [addUser], [updateUser] and [deleteUser] of the draft report
    success, the file system stays as it was, and the list that is
    loaded next is the former list. *)
Theorem draft_silent_loss (d d1 : disk) (users : list User) (code : errcode) :
  Draft.loadUsers d = Some (Ok users, d1) ->
  write_error d = Some code ->
  (forall uuid name_ email_ age_,
     Draft.addUser uuid name_ email_ age_ d =
     Some (Ok {| id := uuid; name := name_; email := email_; age := age_ |}, d)) /\
  (forall id_ updates,
     has_id id_ users ->
     exists r, Draft.updateUser id_ updates d = Some (Ok r, d)) /\
  (forall id_,
     has_id id_ users -> Draft.deleteUser id_ d = Some (Ok true, d)) /\
  Draft.loadUsers d = Some (Ok users, d).
Proof.
  intros Hl Hw. split; [| split; [| split]].
  - intros uuid name_ email_ age_.
    rewrite (draft_addUser_run d d1 users uuid name_ email_ age_ Hl).
    now rewrite Hw.
  - intros id_ updates Hid.
    destruct (draft_updateUser_run d d1 users id_ updates Hl Hid)
      as (idx & old & _ & _ & _ & Hu).
    rewrite Hw in Hu. eauto.
  - intros id_ Hid. rewrite (draft_deleteUser_run d d1 users id_ Hl Hid).
    now rewrite Hw.
  - now rewrite <- (draft_loadUsers_disk d d1 _ Hl) at 2.
Qed.

(** X19.  The draft of [searchUsers] looks at the name and at the address, not
    at the identifier: for a keyword that is not blank it returns, in
    the order of the store, exactly the records whose lower-cased name
    or address holds the trimmed, lower-cased keyword. *)
Theorem draft_searchUsers_spec `{CaseMap} (d d1 : disk) (users : list User)
    (keyword : jsstring) :
  Draft.loadUsers d = Some (Ok users, d1) ->
  exists result,
    Draft.searchUsers keyword d = Some (Ok result, d1) /\
    (trim keyword = [] -> result = users) /\
    (trim keyword <> [] ->
     select (fun u =>
               substring (toLowerCase (trim keyword)) (toLowerCase (name u)) \/
               substring (toLowerCase (trim keyword)) (toLowerCase (email u)))
            users result).
Proof.
  intros Hl. unfold Draft.searchUsers, bind. rewrite Hl.
  destruct (toLowerCase (trim keyword)) as [|c k] eqn:Ek.
  - apply (proj1 (toLowerCase_nil _)) in Ek.
    exists users. split; [reflexivity |]. split; [auto | congruence].
  - eexists. split; [reflexivity |]. split.
    + intros Ht. rewrite Ht in Ek.
      now rewrite (proj2 (toLowerCase_nil _) eq_refl) in Ek.
    + intros _. apply select_filter. intros u.
      rewrite orb_true_iff, !includes_spec. tauto.
Qed.

End DraftFacts.

(** ** The console *)

Module UIFacts.

Lemma each_lines {A : Type} (l : list A) (f g : A -> jsstring) (w : UI.world) :
  UI.each l (fun x => UI.bind (UI.log (f x)) (fun _ => UI.log (g x))) w =
  Some (UI.Value tt,
        {| UI.files := UI.files w; UI.asked := UI.asked w;
           UI.issued := UI.issued w;
           UI.stdout :=
             UI.stdout w ++ flat_map (fun x => [UI.Log (f x); UI.Log (g x)]) l |}).
Proof.
  revert w. induction l as [|x l IH]; intros w; cbn [UI.each flat_map].
  - unfold UI.ret. rewrite app_nil_r. now destruct w.
  - unfold UI.bind at 1. unfold UI.bind at 1. unfold UI.log at 1 2. rewrite IH.
    unfold UI.write. cbn [UI.files UI.asked UI.issued UI.stdout].
    now rewrite <- !app_assoc.
Qed.

Lemma printUsers_run (users : list User) (w : UI.world) :
  UI.printUsers users w =
  Some (UI.Value tt,
        {| UI.files := UI.files w; UI.asked := UI.asked w;
           UI.issued := UI.issued w;
           UI.stdout := UI.stdout w ++ UI.display users |}).
Proof.
  destruct users as [|u us]; [reflexivity |].
  unfold UI.printUsers, UI.display. unfold UI.bind at 1. unfold UI.bind at 1.
  unfold UI.log at 1 2. rewrite each_lines.
  unfold UI.write. cbn [UI.files UI.asked UI.issued UI.stdout].
  now rewrite <- !app_assoc.
Qed.

Ltac io_step :=
  cbv beta iota zeta delta [UI.write];
  cbn [UI.files UI.asked UI.issued UI.stdout].

(** The world that a run leaves, read field by field. *)
Ltac io_done :=
  eexists; (split; [reflexivity |]); io_step;
  repeat split;
  first [ lia | left; reflexivity | right; split; reflexivity
        | rewrite <- ?app_assoc; eexists; reflexivity ].

Section Console.

Context `{CaseMap}.
Variable answer : nat -> jsstring.
Variable randomUUID : nat -> jsstring.

Lemma handleDelete_sim (w : UI.world) :
  match handleDelete (answer (UI.asked w)) (UI.files w) with
  | Some (_, d') =>
      exists w', UI.handleDelete answer w = Some (UI.Value tt, w') /\
                 UI.files w' = d' /\ UI.asked w' = S (UI.asked w) /\
                 UI.issued w' = UI.issued w /\
                 exists out, UI.stdout w' = UI.stdout w ++ out
  | None => UI.handleDelete answer w = None
  end.
Proof.
  unfold handleDelete, UI.handleDelete, printed, UI.reported, bind, UI.bind,
    UI.ask, lift, UI.lift, UI.run, UI.log, requireNonEmpty.
  io_step. destruct (trim (answer (UI.asked w))) as [|c t]; io_step.
  - io_done.
  - destruct (deleteUser (c :: t) (UI.files w)) as [[[b | e] d'] |]; io_step;
      [| | reflexivity]; io_done.
Qed.

Lemma handleAdd_sim (w : UI.world) :
  match handleAdd (randomUUID (UI.issued w)) (answer (UI.asked w))
          (answer (S (UI.asked w))) (answer (S (S (UI.asked w))))
          (UI.files w) with
  | Some (_, d') =>
      exists w', UI.handleAdd answer randomUUID w = Some (UI.Value tt, w') /\
                 UI.files w' = d' /\
                 (UI.asked w < UI.asked w' <= UI.asked w + 3)%nat /\
                 (UI.issued w' = S (UI.issued w) \/
                  UI.issued w' = UI.issued w /\ d' = UI.files w) /\
                 exists out, UI.stdout w' = UI.stdout w ++ out
  | None => UI.handleAdd answer randomUUID w = None
  end.
Proof.
  unfold handleAdd, UI.handleAdd, printed, UI.reported, bind, UI.bind,
    UI.ask, lift, UI.lift, UI.add, UI.run, UI.log, requireNonEmpty.
  io_step. destruct (trim (answer (UI.asked w))) as [|c t]; io_step;
    [io_done |].
  destruct (trim (answer (S (UI.asked w)))) as [|c' t']; io_step;
    [io_done |].
  destruct (parseOptionalAge (answer (S (S (UI.asked w))))) as [a | e]; io_step;
    [| io_done].
  destruct (addUser _ _ _ _ (UI.files w)) as [[[u | e] d'] |]; io_step;
    [| | reflexivity].
  - rewrite printUsers_run. io_step.
    io_done.
  - io_done.
Qed.

Lemma handleUpdate_sim (w : UI.world) :
  match handleUpdate (answer (UI.asked w)) (answer (S (UI.asked w)))
          (answer (S (S (UI.asked w)))) (answer (S (S (S (UI.asked w)))))
          (UI.files w) with
  | Some (_, d') =>
      exists w', UI.handleUpdate answer w = Some (UI.Value tt, w') /\
                 UI.files w' = d' /\
                 (UI.asked w < UI.asked w' <= UI.asked w + 4)%nat /\
                 UI.issued w' = UI.issued w /\
                 exists out, UI.stdout w' = UI.stdout w ++ out
  | None => UI.handleUpdate answer w = None
  end.
Proof.
  unfold handleUpdate, UI.handleUpdate, printed, UI.reported, bind, UI.bind,
    UI.ask, lift, UI.lift, UI.run, UI.log, ret, UI.ret, requireNonEmpty.
  io_step. destruct (trim (answer (UI.asked w))) as [|c t]; io_step;
    [io_done |].
  destruct (trim (answer (S (S (S (UI.asked w)))))) as [|c3 t3]; io_step.
  - destruct (trim (answer (S (UI.asked w)))) as [|c1 t1],
      (trim (answer (S (S (UI.asked w))))) as [|c2 t2]; io_step;
      try (io_done);
      (destruct (updateUser _ _ (UI.files w)) as [[[u | e] d'] |]; io_step;
       [rewrite printUsers_run; io_step | | reflexivity];
       io_done).
  - destruct (parseOptionalAge _) as [[a |] | e]; io_step;
      try (io_done);
      destruct (trim (answer (S (UI.asked w)))) as [|c1 t1],
        (trim (answer (S (S (UI.asked w))))) as [|c2 t2]; io_step;
      try (io_done);
      (destruct (updateUser _ _ (UI.files w)) as [[[u | e] d'] |]; io_step;
       [rewrite printUsers_run; io_step | | reflexivity];
       io_done).
Qed.

(** The three actions that change the store, run on a world: what is
    written after the questions tells what was done to the file. *)
Lemma handleDelete_run (w : UI.world) :
  UI.handleDelete answer w =
  let q := UI.Question (text "Nhập ID user cần xoá: ") in
  let over d out :=
    Some (UI.Value tt,
          {| UI.files := d; UI.asked := S (UI.asked w);
             UI.issued := UI.issued w;
             UI.stdout := UI.stdout w ++ [q; out] |}) in
  match requireNonEmpty (answer (UI.asked w)) (text "ID") with
  | Throw e => over (UI.files w) (UI.Caught e)
  | Ok id_ =>
      match deleteUser id_ (UI.files w) with
      | Some (Ok _, d) => over d (UI.Log (text "🗑️  Đã xoá user."))
      | Some (Throw e, d) => over d (UI.Caught e)
      | None => None
      end
  end.
Proof.
  unfold UI.handleDelete, UI.reported, UI.bind, UI.ask, UI.lift, UI.run, UI.log.
  io_step. destruct (requireNonEmpty _ _) as [id_ | e]; io_step;
    [| now rewrite <- app_assoc].
  destruct (deleteUser id_ (UI.files w)) as [[[b | e] d] |]; io_step;
    [| | reflexivity]; now rewrite <- app_assoc.
Qed.

Lemma handleAdd_run (w : UI.world) :
  UI.handleAdd answer randomUUID w =
  let q1 := UI.Question (text "Nhập tên: ") in
  let q2 := UI.Question (text "Nhập email: ") in
  let q3 := UI.Question (text "Nhập tuổi (bỏ trống nếu không): ") in
  let over d k i out :=
    Some (UI.Value tt,
          {| UI.files := d; UI.asked := k + UI.asked w; UI.issued := i;
             UI.stdout := UI.stdout w ++ out |}) in
  match requireNonEmpty (answer (UI.asked w)) (text "Tên") with
  | Throw e => over (UI.files w) 1%nat (UI.issued w) [q1; UI.Caught e]
  | Ok name_ =>
      match requireNonEmpty (answer (S (UI.asked w))) (text "Email") with
      | Throw e => over (UI.files w) 2%nat (UI.issued w) [q1; q2; UI.Caught e]
      | Ok email_ =>
          match parseOptionalAge (answer (S (S (UI.asked w)))) with
          | Throw e =>
              over (UI.files w) 3%nat (UI.issued w) [q1; q2; q3; UI.Caught e]
          | Ok age_ =>
              match addUser (randomUUID (UI.issued w)) name_ email_ age_
                      (UI.files w) with
              | Some (Ok user, d) =>
                  over d 3%nat (S (UI.issued w))
                    ([q1; q2; q3; UI.Log (10 :: text "✅ Đã thêm User:")] ++
                     UI.display [user])
              | Some (Throw e, d) =>
                  over d 3%nat (S (UI.issued w)) [q1; q2; q3; UI.Caught e]
              | None => None
              end
          end
      end
  end.
Proof.
  unfold UI.handleAdd, UI.reported, UI.bind, UI.ask, UI.lift, UI.add, UI.run,
    UI.log.
  io_step. destruct (requireNonEmpty _ (text "Tên")) as [name_ | e]; io_step;
    [| now rewrite <- app_assoc].
  destruct (requireNonEmpty _ (text "Email")) as [email_ | e]; io_step;
    [| now rewrite <- !app_assoc].
  destruct (parseOptionalAge _) as [age_ | e]; io_step;
    [| now rewrite <- !app_assoc].
  destruct (addUser _ _ _ _ (UI.files w)) as [[[user | e] d] |]; io_step;
    [rewrite printUsers_run; io_step | | reflexivity];
    now rewrite <- !app_assoc.
Qed.

Lemma handleUpdate_run (w : UI.world) :
  UI.handleUpdate answer w =
  let q0 := UI.Question (text "Nhập ID user cần sửa: ") in
  let q1 := UI.Question (text "Tên mới (bỏ trống nếu giữ nguyên): ") in
  let q2 := UI.Question (text "Email mới (bỏ trống nếu giữ nguyên): ") in
  let q3 := UI.Question (text "Tuổi mới (bỏ trống nếu giữ nguyên): ") in
  let over d k out :=
    Some (UI.Value tt,
          {| UI.files := d; UI.asked := k + UI.asked w;
             UI.issued := UI.issued w;
             UI.stdout := UI.stdout w ++ out |}) in
  let nameRaw := answer (S (UI.asked w)) in
  let emailRaw := answer (S (S (UI.asked w))) in
  let ageRaw := answer (S (S (S (UI.asked w)))) in
  match requireNonEmpty (answer (UI.asked w)) (text "ID") with
  | Throw e => over (UI.files w) 1%nat [q0; UI.Caught e]
  | Ok id_ =>
      match (match trim ageRaw with
             | [] => Ok None
             | _ => parseOptionalAge ageRaw
             end) with
      | Throw e => over (UI.files w) 4%nat [q0; q1; q2; q3; UI.Caught e]
      | Ok upd_age_ =>
          let updates :=
            {| upd_name := match trim nameRaw with [] => None | v => Some v end;
               upd_email := match trim emailRaw with [] => None | v => Some v end;
               upd_age := upd_age_ |} in
          match upd_name updates, upd_email updates, upd_age updates with
          | None, None, None =>
              over (UI.files w) 4%nat
                [q0; q1; q2; q3; UI.Log (text "Không có thay đổi nào.")]
          | _, _, _ =>
              match updateUser id_ updates (UI.files w) with
              | Some (Ok r, d) =>
                  over d 4%nat
                    ([q0; q1; q2; q3; UI.Log (10 :: text "✏️  Đã cập nhật:")] ++
                     UI.display [r])
              | Some (Throw e, d) => over d 4%nat [q0; q1; q2; q3; UI.Caught e]
              | None => None
              end
          end
      end
  end.
Proof.
  unfold UI.handleUpdate, UI.reported, UI.bind, UI.ask, UI.lift, UI.run,
    UI.log, UI.ret.
  io_step. destruct (requireNonEmpty _ (text "ID")) as [id_ | e]; io_step;
    [| now rewrite <- app_assoc].
  destruct (trim (answer (S (S (S (UI.asked w)))))) as [|c3 t3]; io_step.
  - destruct (trim (answer (S (UI.asked w)))) as [|c1 t1],
      (trim (answer (S (S (UI.asked w))))) as [|c2 t2]; io_step;
      cbn [upd_name upd_email upd_age]; cbv iota;
      try (now rewrite <- !app_assoc);
      (destruct (updateUser _ _ (UI.files w)) as [[[r | e] d] |]; io_step;
       [rewrite printUsers_run; io_step | | reflexivity];
       now rewrite <- !app_assoc).
  - destruct (parseOptionalAge _) as [[a |] | e]; io_step;
      try (now rewrite <- !app_assoc);
      destruct (trim (answer (S (UI.asked w)))) as [|c1 t1],
        (trim (answer (S (S (UI.asked w))))) as [|c2 t2]; io_step;
      cbn [upd_name upd_email upd_age]; cbv iota;
      try (now rewrite <- !app_assoc);
      (destruct (updateUser _ _ (UI.files w)) as [[[r | e] d] |]; io_step;
       [rewrite printUsers_run; io_step | | reflexivity];
       now rewrite <- !app_assoc).
Qed.

Lemma handleSearch_run (w : UI.world) :
  UI.handleSearch answer w =
  let q := UI.Question
    (text "Nhập từ khoá (ID/Name/Email, bỏ trống = xem tất cả): ") in
  match searchUsers (answer (UI.asked w)) (UI.files w) with
  | Some (Ok found, d) =>
      Some (UI.Value tt,
            {| UI.files := d; UI.asked := S (UI.asked w);
               UI.issued := UI.issued w;
               UI.stdout := UI.stdout w ++ q :: UI.display found |})
  | Some (Throw e, d) =>
      Some (UI.Value tt,
            {| UI.files := d; UI.asked := S (UI.asked w);
               UI.issued := UI.issued w;
               UI.stdout := UI.stdout w ++ [q; UI.Caught e] |})
  | None => None
  end.
Proof.
  unfold UI.handleSearch, UI.reported, UI.bind, UI.ask, UI.run. io_step.
  destruct (searchUsers _ (UI.files w)) as [[[found | e] d] |]; io_step;
    [rewrite printUsers_run; io_step | | reflexivity];
    now rewrite <- app_assoc.
Qed.

Lemma listing_run (w : UI.world) :
  UI.bind (UI.run listUsers) (fun users => UI.printUsers users) w =
  match loadUsers (UI.files w) with
  | Some (Ok users, d) =>
      Some (UI.Value tt,
            {| UI.files := d; UI.asked := UI.asked w; UI.issued := UI.issued w;
               UI.stdout := UI.stdout w ++ UI.display users |})
  | Some (Throw e, d) =>
      Some (UI.Raise e,
            {| UI.files := d; UI.asked := UI.asked w; UI.issued := UI.issued w;
               UI.stdout := UI.stdout w |})
  | None => None
  end.
Proof.
  unfold UI.bind, UI.run, listUsers.
  destruct (loadUsers (UI.files w)) as [[[users | e] d] |]; io_step;
    [now rewrite printUsers_run | reflexivity | reflexivity].
Qed.

(** A round of the menu: the seven lines and the question, then the
    action that the trimmed answer selects. *)
Lemma mainMenu_run (w : UI.world) :
  let w1 :=
    {| UI.files := UI.files w; UI.asked := S (UI.asked w);
       UI.issued := UI.issued w;
       UI.stdout := UI.stdout w ++ UI.menu ++ [UI.Question (text "Chọn: ")] |} in
  let choice := trim (answer (UI.asked w)) in
  UI.mainMenu answer randomUUID w =
  (if str_eqb choice (text "1") then UI.handleAdd answer randomUUID
   else if str_eqb choice (text "2") then UI.handleUpdate answer
   else if str_eqb choice (text "3") then UI.handleDelete answer
   else if str_eqb choice (text "4") then UI.handleSearch answer
   else if str_eqb choice (text "5") then
     UI.bind (UI.run listUsers) (fun users => UI.printUsers users)
   else if str_eqb choice (text "0") then
     UI.bind (UI.log (text "Tạm biệt!")) (fun _ => UI.exit 0)
   else UI.log (text "Lựa chọn không hợp lệ.")) w1.
Proof.
  intros w1 choice. unfold UI.mainMenu.
  do 7 (unfold UI.bind at 1; unfold UI.log at 1). unfold UI.bind at 1.
  unfold UI.ask. io_step. fold choice.
  replace ({| UI.files := UI.files w; UI.asked := S (UI.asked w);
              UI.issued := UI.issued w; UI.stdout := _ |}) with w1;
    [reflexivity |].
  unfold w1, UI.menu. f_equal. now rewrite <- !app_assoc.
Qed.

(** X20.  A choice that is none of the six digits of the menu is answered
    with one line, and nothing else happens: no file is read or
    written and no further question is asked. *)
Theorem mainMenu_invalid_choice (w : UI.world) :
  let choice := trim (answer (UI.asked w)) in
  choice <> text "1" -> choice <> text "2" -> choice <> text "3" ->
  choice <> text "4" -> choice <> text "5" -> choice <> text "0" ->
  UI.mainMenu answer randomUUID w =
  Some (UI.Value tt,
        {| UI.files := UI.files w; UI.asked := S (UI.asked w);
           UI.issued := UI.issued w;
           UI.stdout :=
             UI.stdout w ++ UI.menu ++
             [UI.Question (text "Chọn: ");
              UI.Log (text "Lựa chọn không hợp lệ.")] |}).
Proof.
  intros choice H1 H2 H3 H4 H5 H0. rewrite mainMenu_run. fold choice.
  rewrite !(proj2 (str_eqb_neq _ _)) by assumption.
  unfold UI.log. io_step. now rewrite <- !app_assoc.
Qed.

(** X21.  The choice [0], with or without white space around it, ends the
    process with the exit code 0 after a line of farewell; the file
    system is left as it is, and nothing that is typed after it is
    read. *)
Theorem mainMenu_exit (w : UI.world) (n : nat) :
  trim (answer (UI.asked w)) = text "0" ->
  let w' :=
    {| UI.files := UI.files w; UI.asked := S (UI.asked w);
       UI.issued := UI.issued w;
       UI.stdout :=
         UI.stdout w ++ UI.menu ++
         [UI.Question (text "Chọn: "); UI.Log (text "Tạm biệt!")] |} in
  UI.mainMenu answer randomUUID w = Some (UI.Exit 0, w') /\
  UI.program answer randomUUID (S n) w = Some (UI.Exit 0, w').
Proof.
  intros Hc w'.
  assert (UI.mainMenu answer randomUUID w = Some (UI.Exit 0, w')) as Hm.
  { rewrite mainMenu_run, Hc.
    change (str_eqb (text "0") (text "1")) with false.
    change (str_eqb (text "0") (text "2")) with false.
    change (str_eqb (text "0") (text "3")) with false.
    change (str_eqb (text "0") (text "4")) with false.
    change (str_eqb (text "0") (text "5")) with false.
    change (str_eqb (text "0") (text "0")) with true.
    unfold UI.bind, UI.log, UI.exit. io_step. unfold w'.
    now rewrite <- !app_assoc. }
  split; [exact Hm |].
  unfold UI.program. cbn [UI.loop]. unfold UI.bind at 1. now rewrite Hm.
Qed.

Lemma searchUsers_disk (k : jsstring) (d d' : disk) (r : result (list User)) :
  searchUsers k d = Some (r, d') ->
  exists r0, loadUsers d = Some (r0, d') /\
             (forall e, r0 = Throw e -> r = Throw e).
Proof.
  unfold searchUsers, bind.
  destruct (loadUsers d) as [[[users | e] d1] |]; [| | discriminate].
  - destruct (toLowerCase (trim k)); intros [= <- <-]; eexists;
      (split; [reflexivity | discriminate]).
  - intros [= <- <-]. eexists. split; [reflexivity |]. now intros e' [= <-].
Qed.

(** X22.  The choices [4] and [5] read and never change the list: the file
    system after the round is the one before it, except that a missing
    file has been created with the text of the empty array. *)
Theorem read_only_choices (w w' : UI.world) (r : UI.reply unit) :
  trim (answer (UI.asked w)) = text "4" \/
  trim (answer (UI.asked w)) = text "5" ->
  UI.mainMenu answer randomUUID w = Some (r, w') ->
  (UI.files w' = UI.files w \/
   (DATA_FILE (UI.files w) = Missing /\
    UI.files w' = {| DATA_FILE := Content (str "[]"); write_error := None |})) /\
  UI.issued w' = UI.issued w.
Proof.
  intros Hc. rewrite mainMenu_run. cbv zeta.
  assert (forall r0 d', loadUsers (UI.files w) = Some (r0, d') ->
            d' = UI.files w \/
            (DATA_FILE (UI.files w) = Missing /\
             d' = {| DATA_FILE := Content (str "[]"); write_error := None |}))
    as Hdisk.
  { intros r0 d' Hl. apply loadUsers_disk in Hl as [-> | (Hm & _ & _ & ->)]; auto. }
  destruct Hc as [-> | ->].
  - change (str_eqb (text "4") (text "1")) with false.
    change (str_eqb (text "4") (text "2")) with false.
    change (str_eqb (text "4") (text "3")) with false.
    change (str_eqb (text "4") (text "4")) with true.
    cbv iota. rewrite handleSearch_run. io_step.
    destruct (searchUsers _ (UI.files w)) as [[[found | e] d] |] eqn:Es;
      [| | discriminate];
      apply searchUsers_disk in Es as (r0 & Hl & _);
      intros [= <- <-]; io_step; split; [| reflexivity | | reflexivity];
      exact (Hdisk _ _ Hl).
  - change (str_eqb (text "5") (text "1")) with false.
    change (str_eqb (text "5") (text "2")) with false.
    change (str_eqb (text "5") (text "3")) with false.
    change (str_eqb (text "5") (text "4")) with false.
    change (str_eqb (text "5") (text "5")) with true.
    cbv iota. rewrite listing_run. io_step.
    destruct (loadUsers (UI.files w)) as [[[users | e] d] |] eqn:El;
      [| | discriminate];
      intros [= <- <-]; io_step; split; [| reflexivity | | reflexivity];
      exact (Hdisk _ _ eq_refl).
Qed.

Lemma handlers_unloadable (d d' : disk) (e : error) :
  loadUsers d = Some (Throw e, d') ->
  d' = d /\
  (forall uuid a b c, exists out, handleAdd uuid a b c d = Some (Ok out, d)) /\
  (forall a b c c', exists out, handleUpdate a b c c' d = Some (Ok out, d)) /\
  (forall a, exists out, handleDelete a d = Some (Ok out, d)) /\
  (forall k, searchUsers k d = Some (Throw e, d)).
Proof.
  intros Hl.
  assert (d' = d) as ->
    by (apply loadUsers_disk in Hl as [-> | (_ & _ & Hr & _)]; congruence).
  split; [reflexivity |]. split; [| split; [| split]].
  - intros uuid a b c. unfold handleAdd, printed, bind, lift, addUser.
    destruct (requireNonEmpty a _); [| eauto].
    destruct (requireNonEmpty b _); [| eauto].
    destruct (parseOptionalAge c); [| eauto].
    unfold bind. rewrite Hl. eauto.
  - intros a b c c'. unfold handleUpdate, printed, bind, lift, updateUser, ret.
    destruct (requireNonEmpty a _); [| eauto].
    destruct (trim c') as [|x t].
    + destruct (trim b), (trim c); cbv beta iota; unfold bind;
        rewrite ?Hl; eauto.
    + destruct (parseOptionalAge c') as [[n |] |]; [| | eauto];
        destruct (trim b), (trim c); cbv beta iota; unfold bind;
        rewrite ?Hl; eauto.
  - intros a. unfold handleDelete, printed, bind, lift, deleteUser.
    destruct (requireNonEmpty a _); [| eauto].
    unfold bind. rewrite Hl. eauto.
  - intros k. unfold searchUsers, bind. now rewrite Hl.
Qed.

(** X23.  When the list cannot be loaded (the file does not hold JSON, it
    cannot be read, or it is missing and cannot be created), the choice
    [5] ends the process with the exit code 1, after the error has been
    written: [mainMenu] calls [listUsers] outside any handler.  Every
    other choice leaves the process running, or ends it with the code 0,
    and the file system stays as it is. *)
Theorem unloadable_file (w : UI.world) (e : error) (d' : disk) :
  loadUsers (UI.files w) = Some (Throw e, d') ->
  (trim (answer (UI.asked w)) = text "5" ->
   forall n,
     UI.program answer randomUUID (S n) w =
     Some (UI.Exit 1,
           {| UI.files := UI.files w; UI.asked := S (UI.asked w);
              UI.issued := UI.issued w;
              UI.stdout :=
                UI.stdout w ++ UI.menu ++
                [UI.Question (text "Chọn: "); UI.Uncaught e] |})) /\
  (trim (answer (UI.asked w)) <> text "5" ->
   exists r w',
     UI.mainMenu answer randomUUID w = Some (r, w') /\
     (r = UI.Value tt \/ r = UI.Exit 0) /\
     UI.files w' = UI.files w).
Proof.
  intros Hl.
  destruct (handlers_unloadable _ _ _ Hl) as (-> & Hadd & Hupd & Hdel & Hsearch).
  pose proof (mainMenu_run w) as Hm. cbv zeta in Hm.
  set (w1 := {| UI.files := UI.files w; UI.asked := S (UI.asked w);
                UI.issued := UI.issued w;
                UI.stdout :=
                  UI.stdout w ++ UI.menu ++ [UI.Question (text "Chọn: ")] |}) in Hm.
  split.
  - intros Hc n. unfold UI.program. cbn [UI.loop]. unfold UI.bind at 1.
    rewrite Hm, Hc.
    change (str_eqb (text "5") (text "1")) with false.
    change (str_eqb (text "5") (text "2")) with false.
    change (str_eqb (text "5") (text "3")) with false.
    change (str_eqb (text "5") (text "4")) with false.
    change (str_eqb (text "5") (text "5")) with true.
    cbv iota. rewrite listing_run. unfold w1. io_step. rewrite Hl. io_step.
    now rewrite <- !app_assoc.
  - intros Hc. rewrite Hm.
    destruct (str_eqb _ (text "1")).
    { pose proof (handleAdd_sim w1) as Hs. cbn [UI.files w1] in Hs.
      destruct (Hadd (randomUUID (UI.issued w1)) (answer (UI.asked w1))
                  (answer (S (UI.asked w1))) (answer (S (S (UI.asked w1)))))
        as [out Ho].
      rewrite Ho in Hs. destruct Hs as (w' & -> & Hf & _).
      eexists _, _. split; [reflexivity |]. auto. }
    destruct (str_eqb _ (text "2")).
    { pose proof (handleUpdate_sim w1) as Hs. cbn [UI.files w1] in Hs.
      destruct (Hupd (answer (UI.asked w1)) (answer (S (UI.asked w1)))
                  (answer (S (S (UI.asked w1))))
                  (answer (S (S (S (UI.asked w1)))))) as [out Ho].
      rewrite Ho in Hs. destruct Hs as (w' & -> & Hf & _).
      eexists _, _. split; [reflexivity |]. auto. }
    destruct (str_eqb _ (text "3")).
    { pose proof (handleDelete_sim w1) as Hs. cbn [UI.files w1] in Hs.
      destruct (Hdel (answer (UI.asked w1))) as [out Ho].
      rewrite Ho in Hs. destruct Hs as (w' & -> & Hf & _).
      eexists _, _. split; [reflexivity |]. auto. }
    destruct (str_eqb _ (text "4")).
    { rewrite handleSearch_run. cbv zeta. cbn [UI.files w1].
      rewrite Hsearch. eexists _, _. split; [reflexivity |]. auto. }
    rewrite (proj2 (str_eqb_neq _ _) Hc).
    destruct (str_eqb _ (text "0")).
    { unfold UI.bind, UI.log, UI.exit.
      eexists _, _. split; [reflexivity |]. auto. }
    unfold UI.log. eexists _, _. split; [reflexivity |]. auto.
Qed.

(** One round of the menu keeps the invariant of a session. *)
Lemma mainMenu_inv (w : UI.world) (users : list User) :
  stored (UI.files w) users -> store_ok users -> Forall valid_User users ->
  (forall i j, randomUUID i = randomUUID j -> i = j) ->
  (forall i, (UI.issued w <= i)%nat -> ~ has_id (randomUUID i) users) ->
  exists r w' users',
    UI.mainMenu answer randomUUID w = Some (r, w') /\
    (r = UI.Value tt \/ r = UI.Exit 0) /\
    stored (UI.files w') users' /\ store_ok users' /\
    Forall valid_User users' /\
    (forall i, (UI.issued w' <= i)%nat -> ~ has_id (randomUUID i) users').
Proof.
  intros Hs Hok Hv Hinj Hfresh.
  rewrite mainMenu_run. cbv zeta.
  set (w1 := {| UI.files := UI.files w; UI.asked := S (UI.asked w);
                UI.issued := UI.issued w;
                UI.stdout :=
                  UI.stdout w ++ UI.menu ++ [UI.Question (text "Chọn: ")] |}).
  destruct (str_eqb _ (text "1")).
  { pose proof (handleAdd_sim w1) as Hsim. cbn [UI.files UI.issued w1] in Hsim.
    destruct (handleAdd_inv (UI.files w) users (randomUUID (UI.issued w))
                (answer (UI.asked w1)) (answer (S (UI.asked w1)))
                (answer (S (S (UI.asked w1)))) Hs Hok Hv
                (Hfresh _ (Nat.le_refl _)))
      as (out & d2 & users' & Heq & Hs' & Hok' & Hv' & Hids).
    rewrite Heq in Hsim. destruct Hsim as (w' & -> & Hf & _ & Hiss & _).
    exists (UI.Value tt), w', users'. split; [reflexivity |].
    split; [now left |]. rewrite Hf. split; [exact Hs' |].
    split; [exact Hok' |]. split; [exact Hv' |].
    intros i Hi (u & Hu & Hid). destruct (Hids u Hu) as [Hold | Hnew].
    - apply (Hfresh i); [destruct Hiss as [Hi' | [Hi' _]]; lia |].
      now rewrite <- Hid.
    - assert (i = UI.issued w) as -> by (apply Hinj; congruence).
      destruct Hiss as [Hi' | [_ ->]]; [lia |].
      rewrite (stored_fun _ _ _ Hs Hs') in Hu.
      apply (Hfresh (UI.issued w)); [lia |]. now exists u. }
  destruct (str_eqb _ (text "2")).
  { pose proof (handleUpdate_sim w1) as Hsim. cbn [UI.files UI.issued w1] in Hsim.
    destruct (handleUpdate_inv (UI.files w) users
                (answer (UI.asked w1)) (answer (S (UI.asked w1)))
                (answer (S (S (UI.asked w1))))
                (answer (S (S (S (UI.asked w1))))) Hs Hok Hv)
      as (out & d2 & users' & Heq & Hs' & Hok' & Hv' & Hids).
    rewrite Heq in Hsim. destruct Hsim as (w' & -> & Hf & _ & Hiss & _).
    exists (UI.Value tt), w', users'. split; [reflexivity |].
    split; [now left |]. rewrite Hf, Hiss. split; [exact Hs' |].
    split; [exact Hok' |]. split; [exact Hv' |].
    intros i Hi (u & Hu & Hid). apply (Hfresh i Hi).
    rewrite <- Hid. now apply Hids. }
  destruct (str_eqb _ (text "3")).
  { pose proof (handleDelete_sim w1) as Hsim. cbn [UI.files UI.issued w1] in Hsim.
    destruct (handleDelete_inv (UI.files w) users (answer (UI.asked w1))
                Hs Hok Hv)
      as (out & d2 & users' & Heq & Hs' & Hok' & Hv' & Hids).
    rewrite Heq in Hsim. destruct Hsim as (w' & -> & Hf & _ & Hiss & _).
    exists (UI.Value tt), w', users'. split; [reflexivity |].
    split; [now left |]. rewrite Hf, Hiss. split; [exact Hs' |].
    split; [exact Hok' |]. split; [exact Hv' |].
    intros i Hi (u & Hu & Hid). apply (Hfresh i Hi).
    rewrite <- Hid. now apply Hids. }
  destruct Hs as [d1 Hl]. destruct (stored_loaded _ _ _ Hl) as [Hs Hs1].
  destruct (str_eqb _ (text "4")).
  { rewrite handleSearch_run. cbv zeta. cbn [UI.files w1].
    rewrite (searchUsers_run _ d1 users _ Hl).
    eexists _, _, users. split; [reflexivity |]. auto. }
  destruct (str_eqb _ (text "5")).
  { rewrite listing_run. cbn [UI.files w1]. rewrite Hl.
    eexists _, _, users. split; [reflexivity |]. auto. }
  destruct (str_eqb _ (text "0")).
  { unfold UI.bind, UI.log, UI.exit.
    eexists _, _, users. split; [reflexivity |]. auto. }
  unfold UI.log. eexists _, _, users. split; [reflexivity |]. auto.
Qed.

(** X24.  The invariant of the store holds throughout a session.  From a
    list that can be loaded, in which no two records have the same
    identifier or addresses equal up to case and every record
    satisfies the validation rules, and with identifiers from
    [randomUUID()] that are new, any number of rounds of the menu,
    whatever is typed, leaves a list that can be loaded and has these
    properties.  The process is still running or has ended with the
    exit code 0: it never ends with an error. *)
Theorem session_keeps_invariant (n : nat) (w : UI.world) (users : list User) :
  stored (UI.files w) users -> store_ok users -> Forall valid_User users ->
  (forall i j, randomUUID i = randomUUID j -> i = j) ->
  (forall i, (UI.issued w <= i)%nat -> ~ has_id (randomUUID i) users) ->
  exists r w' users',
    UI.program answer randomUUID n w = Some (r, w') /\
    (r = UI.Value tt \/ r = UI.Exit 0) /\
    stored (UI.files w') users' /\ store_ok users' /\
    Forall valid_User users'.
Proof.
  intros Hs Hok Hv Hinj Hfresh.
  assert (exists r w' users',
    UI.loop answer randomUUID n w = Some (r, w') /\
    (r = UI.Value tt \/ r = UI.Exit 0) /\
    stored (UI.files w') users' /\ store_ok users' /\
    Forall valid_User users') as (r & w' & users' & Hrun & Hr & Hrest).
  { revert w users Hs Hok Hv Hfresh.
    induction n as [|n IH]; intros w users Hs Hok Hv Hfresh.
    - exists (UI.Value tt), w, users. cbn [UI.loop]. unfold UI.ret. auto.
    - destruct (mainMenu_inv w users Hs Hok Hv Hinj Hfresh)
        as (r & w1 & users1 & Hm & Hr & Hs1 & Hok1 & Hv1 & Hfresh1).
      cbn [UI.loop]. unfold UI.bind. rewrite Hm.
      destruct Hr as [-> | ->].
      + exact (IH w1 users1 Hs1 Hok1 Hv1 Hfresh1).
      + exists (UI.Exit 0), w1, users1. auto. }
  exists r, w', users'. split; [| auto].
  unfold UI.program. rewrite Hrun. now destruct Hr as [-> | ->].
Qed.

(** X25.  What the choices [4] and [5] display.  On a list that can be
    loaded, [handleSearch] asks for the keyword and writes, as
    [printUsers] lays them out, the records that [searchUsers]
    returns: every record for a blank keyword, otherwise exactly the
    records that match it, in the order of the store.  The choice [5]
    writes every record. *)
Theorem displayed_records (w : UI.world) (users : list User) (d1 : disk) :
  loadUsers (UI.files w) = Some (Ok users, d1) ->
  (exists found,
     UI.handleSearch answer w =
     Some (UI.Value tt,
           {| UI.files := d1; UI.asked := S (UI.asked w);
              UI.issued := UI.issued w;
              UI.stdout :=
                UI.stdout w ++
                UI.Question
                  (text "Nhập từ khoá (ID/Name/Email, bỏ trống = xem tất cả): ")
                :: UI.display found |}) /\
     (trim (answer (UI.asked w)) = [] -> found = users) /\
     (trim (answer (UI.asked w)) <> [] ->
      select (matches (toLowerCase (trim (answer (UI.asked w))))) users found)) /\
  (trim (answer (UI.asked w)) = text "5" ->
   UI.mainMenu answer randomUUID w =
   Some (UI.Value tt,
         {| UI.files := d1; UI.asked := S (UI.asked w);
            UI.issued := UI.issued w;
            UI.stdout :=
              UI.stdout w ++ UI.menu ++
              UI.Question (text "Chọn: ") :: UI.display users |})).
Proof.
  intros Hl. split.
  - rewrite handleSearch_run. cbv zeta.
    rewrite (searchUsers_run _ d1 users _ Hl).
    eexists. split; [reflexivity |].
    destruct (toLowerCase (trim (answer (UI.asked w)))) as [|c k] eqn:Ek.
    + apply (proj1 (toLowerCase_nil _)) in Ek. split; [auto | congruence].
    + split.
      * intros Ht. rewrite Ht in Ek.
        now rewrite (proj2 (toLowerCase_nil _) eq_refl) in Ek.
      * intros _. apply select_filter. intros u. apply includes_matches.
  - intros Hc. rewrite mainMenu_run, Hc. cbv zeta.
    change (str_eqb (text "5") (text "1")) with false.
    change (str_eqb (text "5") (text "2")) with false.
    change (str_eqb (text "5") (text "3")) with false.
    change (str_eqb (text "5") (text "4")) with false.
    change (str_eqb (text "5") (text "5")) with true.
    cbv iota. rewrite listing_run. io_step. rewrite Hl.
    do 3 f_equal. rewrite <- !app_assoc. reflexivity.
Qed.

(** X26.  A round of the menu asks at least one question and at most five,
    calls [addUser] at most once, and adds to what was written without
    changing it. *)
Theorem round_bounds (w w' : UI.world) (r : UI.reply unit) :
  UI.mainMenu answer randomUUID w = Some (r, w') ->
  (S (UI.asked w) <= UI.asked w' <= UI.asked w + 5)%nat /\
  (UI.issued w <= UI.issued w' <= S (UI.issued w))%nat /\
  exists out, UI.stdout w' = UI.stdout w ++ out.
Proof.
  rewrite mainMenu_run. cbv zeta.
  set (w1 := {| UI.files := UI.files w; UI.asked := S (UI.asked w);
                UI.issued := UI.issued w;
                UI.stdout :=
                  UI.stdout w ++ UI.menu ++ [UI.Question (text "Chọn: ")] |}).
  assert (forall w2 : UI.world,
    (UI.asked w1 <= UI.asked w2 <= UI.asked w1 + 4)%nat ->
    (UI.issued w1 <= UI.issued w2 <= S (UI.issued w1))%nat ->
    (exists out, UI.stdout w2 = UI.stdout w1 ++ out) ->
    (S (UI.asked w) <= UI.asked w2 <= UI.asked w + 5)%nat /\
    (UI.issued w <= UI.issued w2 <= S (UI.issued w))%nat /\
    exists out, UI.stdout w2 = UI.stdout w ++ out) as Hstep.
  { intros w2 Ha Hi [out Ho]. cbn [UI.asked UI.issued UI.stdout w1] in *.
    split; [lia |]. split; [lia |]. rewrite Ho, <- app_assoc. eauto. }
  destruct (str_eqb _ (text "1")).
  { pose proof (handleAdd_sim w1) as Hsim.
    destruct (handleAdd _ _ _ _ _) as [[out d] |]; [| congruence].
    destruct Hsim as (w2 & -> & _ & Ha & Hi & Ho). intros [= <- <-].
    apply Hstep; [lia | destruct Hi as [-> | [-> _]]; lia | exact Ho]. }
  destruct (str_eqb _ (text "2")).
  { pose proof (handleUpdate_sim w1) as Hsim.
    destruct (handleUpdate _ _ _ _ _) as [[out d] |]; [| congruence].
    destruct Hsim as (w2 & -> & _ & Ha & Hi & Ho). intros [= <- <-].
    apply Hstep; [lia | lia | exact Ho]. }
  destruct (str_eqb _ (text "3")).
  { pose proof (handleDelete_sim w1) as Hsim.
    destruct (handleDelete _ _) as [[out d] |]; [| congruence].
    destruct Hsim as (w2 & -> & _ & Ha & Hi & Ho). intros [= <- <-].
    apply Hstep; [lia | lia | exact Ho]. }
  destruct (str_eqb _ (text "4")).
  { rewrite handleSearch_run. cbv zeta.
    destruct (searchUsers _ _) as [[[found | e] d] |]; [| | discriminate];
      intros [= <- <-]; apply Hstep; cbn [UI.asked UI.issued UI.stdout w1];
      try lia; eauto. }
  destruct (str_eqb _ (text "5")).
  { rewrite listing_run.
    destruct (loadUsers _) as [[[found | e] d] |]; [| | discriminate];
      intros [= <- <-]; apply Hstep; cbn [UI.asked UI.issued UI.stdout w1];
      try lia; eauto. exists []. now rewrite app_nil_r. }
  destruct (str_eqb _ (text "0")).
  { unfold UI.bind, UI.log, UI.exit. io_step. intros [= <- <-].
    apply Hstep; cbn [UI.asked UI.issued UI.stdout w1]; try lia; eauto. }
  unfold UI.log. io_step. intros [= <- <-].
  apply Hstep; cbn [UI.asked UI.issued UI.stdout w1]; try lia; eauto.
Qed.




Lemma wrote_intro (w w' : UI.world) (qs report : list UI.output) :
  Forall (fun o => exists q, o = UI.Question q) qs ->
  UI.stdout w' = UI.stdout w ++ qs ++ report ->
  wrote w w' report.
Proof. intros Hq Ho. now exists qs. Qed.

Ltac questions := repeat (constructor; [eexists; reflexivity |]); constructor.

(** X29.  What an action of the menu writes tells what it did.  On a
    list that can be loaded, each of [handleAdd], [handleUpdate] and
    [handleDelete] returns after its questions and one report.  When
    the report is an error, the stored list is as before.  The line of
    success of [handleAdd] comes with the new record, which is then the
    last of the stored list; that of [handleUpdate] comes with the
    record that now stands in the place of a record with the same
    identifier; that of [handleDelete] is written only when a record
    had the identifier, and the records with it are gone.  The line
    that nothing changes leaves the file system untouched. *)
Theorem actions_report (w : UI.world) (users : list User) :
  stored (UI.files w) users ->
  (exists w',
     UI.handleAdd answer randomUUID w = Some (UI.Value tt, w') /\
     ((exists e, wrote w w' [UI.Caught e] /\ stored (UI.files w') users) \/
      (exists user,
         wrote w w' (UI.Log (10 :: text "✅ Đã thêm User:") :: UI.display [user]) /\
         id user = randomUUID (UI.issued w) /\
         stored (UI.files w') (users ++ [user])))) /\
  (exists w',
     UI.handleUpdate answer w = Some (UI.Value tt, w') /\
     ((exists e, wrote w w' [UI.Caught e] /\ stored (UI.files w') users) \/
      (wrote w w' [UI.Log (text "Không có thay đổi nào.")] /\
       UI.files w' = UI.files w) \/
      (exists idx old r,
         users !! idx = Some old /\ id r = id old /\
         wrote w w' (UI.Log (10 :: text "✏️  Đã cập nhật:") :: UI.display [r]) /\
         stored (UI.files w') (<[idx := r]> users)))) /\
  (exists w',
     UI.handleDelete answer w = Some (UI.Value tt, w') /\
     ((exists e, wrote w w' [UI.Caught e] /\ stored (UI.files w') users) \/
      (wrote w w' [UI.Log (text "🗑️  Đã xoá user.")] /\
       has_id (trim (answer (UI.asked w))) users /\
       stored (UI.files w')
         (List.filter
            (fun u => negb (str_eqb (id u) (trim (answer (UI.asked w)))))
            users)))).
Proof.
  intros Hs. pose proof (stored_safe _ _ Hs) as Hsafe.
  destruct Hs as [d1 Hl]. destruct (stored_loaded _ _ _ Hl) as [Hs Hs1].
  split; [| split].
  - rewrite handleAdd_run. cbv zeta.
    destruct (requireNonEmpty _ (text "Tên")) as [name_ | e] eqn:En;
      [| eexists; split; [reflexivity |]; left; exists e;
         split; [eapply (wrote_intro _ _ [_]); [questions | reflexivity] | exact Hs]].
    destruct (requireNonEmpty _ (text "Email")) as [email_ | e] eqn:Ee;
      [| eexists; split; [reflexivity |]; left; exists e;
         split; [eapply (wrote_intro _ _ [_; _]); [questions | reflexivity] | exact Hs]].
    destruct (parseOptionalAge _) as [age_ | e] eqn:Ea;
      [| eexists; split; [reflexivity |]; left; exists e;
         split; [eapply (wrote_intro _ _ [_; _; _]); [questions | reflexivity]
                | exact Hs]].
    apply parseOptionalAge_valid in Ea.
    destruct (addUser_outcome _ d1 users (randomUUID (UI.issued w))
                name_ email_ age_ Hl) as [[e ->] | (_ & _ & ->)].
    + eexists. split; [reflexivity |]. left. exists e.
      split; [eapply (wrote_intro _ _ [_; _; _]); [questions | reflexivity]
             | exact Hs1].
    + eexists. split; [reflexivity |]. right. eexists.
      split; [eapply (wrote_intro _ _ [_; _; _]); [questions | reflexivity] |].
      split; [reflexivity |].
      apply stored_stringify, Forall_app. split; [exact Hsafe |].
      apply Forall_singleton. now apply (valid_age_safe age_).
  - rewrite handleUpdate_run. cbv zeta.
    destruct (requireNonEmpty _ (text "ID")) as [id_ | e] eqn:Ei;
      [| eexists; split; [reflexivity |]; left; exists e;
         split; [eapply (wrote_intro _ _ [_]); [questions | reflexivity] | exact Hs]].
    set (ageRaw := answer (S (S (S (UI.asked w))))).
    assert (exists ra : result (option Z),
      match trim ageRaw with [] => Ok None | _ :: _ => parseOptionalAge ageRaw end
        = ra /\ forall a, ra = Ok a -> valid_age a) as (ra & -> & Hage).
    { eexists. split; [reflexivity |]. intros a.
      destruct (trim ageRaw); [intros [= <-]; exact I |].
      apply parseOptionalAge_valid. }
    destruct ra as [upd_age_ | e];
      [| eexists; split; [reflexivity |]; left; exists e;
         split; [eapply (wrote_intro _ _ [_; _; _; _]); [questions | reflexivity]
                | exact Hs]].
    specialize (Hage _ eq_refl).
    set (updates := {| upd_name := _; upd_email := _; upd_age := upd_age_ |}).
    assert (exists w',
      match updateUser id_ updates (UI.files w) with
      | Some (Ok r, d) =>
          Some (UI.Value tt,
                {| UI.files := d; UI.asked := 4 + UI.asked w;
                   UI.issued := UI.issued w;
                   UI.stdout :=
                     UI.stdout w ++
                     [UI.Question (text "Nhập ID user cần sửa: ");
                      UI.Question (text "Tên mới (bỏ trống nếu giữ nguyên): ");
                      UI.Question (text "Email mới (bỏ trống nếu giữ nguyên): ");
                      UI.Question (text "Tuổi mới (bỏ trống nếu giữ nguyên): ");
                      UI.Log (10 :: text "✏️  Đã cập nhật:")] ++
                     UI.display [r] |})
      | Some (Throw e, d) =>
          Some (UI.Value tt,
                {| UI.files := d; UI.asked := 4 + UI.asked w;
                   UI.issued := UI.issued w;
                   UI.stdout :=
                     UI.stdout w ++
                     [UI.Question (text "Nhập ID user cần sửa: ");
                      UI.Question (text "Tên mới (bỏ trống nếu giữ nguyên): ");
                      UI.Question (text "Email mới (bỏ trống nếu giữ nguyên): ");
                      UI.Question (text "Tuổi mới (bỏ trống nếu giữ nguyên): ");
                      UI.Caught e] |})
      | None => None
      end = Some (UI.Value tt, w') /\
      ((exists e, wrote w w' [UI.Caught e] /\ stored (UI.files w') users) \/
       (wrote w w' [UI.Log (text "Không có thay đổi nào.")] /\
        UI.files w' = UI.files w) \/
       (exists idx old r,
          users !! idx = Some old /\ id r = id old /\
          wrote w w' (UI.Log (10 :: text "✏️  Đã cập nhật:") :: UI.display [r]) /\
          stored (UI.files w') (<[idx := r]> users)))) as Hupd.
    { destruct (updateUser_outcome _ d1 users id_ updates Hl)
        as [[e ->] | (idx & old & Ho & _ & _ & ->)].
      - eexists. split; [reflexivity |]. left. exists e.
        split; [eapply (wrote_intro _ _ [_; _; _; _]); [questions | reflexivity]
               | exact Hs1].
      - eexists. split; [reflexivity |]. right. right.
        exists idx, old, (spread old updates).
        split; [exact Ho |]. split; [reflexivity |].
        split; [eapply (wrote_intro _ _ [_; _; _; _]); [questions | reflexivity] |].
        apply stored_stringify, Forall_insert; [exact Hsafe |].
        unfold safe_age, spread. cbn [age upd_age updates].
        destruct upd_age_ as [n |].
        + now apply (valid_age_safe (Some n) {| id := []; name := []; email := [];
                                                 age := Some n |}).
        + rewrite Forall_lookup in Hsafe. exact (Hsafe _ _ Ho). }
    destruct (upd_name updates), (upd_email updates), (upd_age updates);
      try exact Hupd.
    eexists. split; [reflexivity |]. right. left.
    split; [eapply (wrote_intro _ _ [_; _; _; _]); [questions | reflexivity]
           | reflexivity].
  - rewrite handleDelete_run. cbv zeta.
    destruct (requireNonEmpty _ (text "ID")) as [id_ | e] eqn:Ei;
      [| eexists; split; [reflexivity |]; left; exists e;
         split; [eapply (wrote_intro _ _ [_]); [questions | reflexivity] | exact Hs]].
    apply requireNonEmpty_Ok in Ei as (-> & _ & _).
    set (id_ := trim (answer (UI.asked w))).
    destruct (Nat.eq_dec
                (length (List.filter (fun u => negb (str_eqb (id u) id_)) users))
                (length users)) as [Heq | Hne].
    + assert (~ has_id id_ users) as Hno
        by (intros Hid; now apply filter_other_id_length in Hid).
      rewrite (deleteUser_not_found _ d1 users id_ Hl Hno).
      eexists. split; [reflexivity |]. left. exists DeleteNotFound.
      split; [eapply (wrote_intro _ _ [_]); [questions | reflexivity] | exact Hs1].
    + apply filter_other_id_length in Hne.
      rewrite (deleteUser_passes _ d1 users id_ Hl Hne).
      destruct (write_error (UI.files w)) as [code |].
      * eexists. split; [reflexivity |]. left. exists (SystemError code).
        split; [eapply (wrote_intro _ _ [_]); [questions | reflexivity] | exact Hs1].
      * eexists. split; [reflexivity |]. right.
        split; [eapply (wrote_intro _ _ [_]); [questions | reflexivity] |].
        split; [exact Hne |].
        now apply stored_stringify, Forall_filter_bool.
Qed.

End Console.

(** X28.  [printUsers] shows an age of zero, where the draft, which tests
    the age for truth, writes that no age is given. *)
Theorem printUsers_age_zero (u : User) (w : UI.world) :
  age u = Some 0%Z ->
  UI.printUsers [u] w =
  Some (UI.Value tt,
        {| UI.files := UI.files w; UI.asked := UI.asked w;
           UI.issued := UI.issued w;
           UI.stdout :=
             UI.stdout w ++
             [UI.Log (10 :: text "Danh sách User:"); UI.Log (replicate 60 61);
              UI.Log (text "ID: " ++ id u ++ 10 :: text "Name: " ++ name u ++
                      text " | Email: " ++ email u ++ text " | Age: 0");
              UI.Log (replicate 60 45)] |}) /\
  DraftUI.printUsers [u] w =
  Some (UI.Value tt,
        {| UI.files := UI.files w; UI.asked := UI.asked w;
           UI.issued := UI.issued w;
           UI.stdout :=
             UI.stdout w ++
             [UI.Log (text "User List:");
              UI.Log (text "- " ++ name u ++ text " - <" ++ email u ++
                      text "> (ID: " ++ id u ++ text ") - " ++
                      text "Age not specified")] |}).
Proof.
  intros Ha. split.
  - rewrite printUsers_run. unfold UI.display. cbn [flat_map app].
    unfold UI.ageStr. rewrite Ha. reflexivity.
  - unfold DraftUI.printUsers, UI.bind, UI.log, UI.each, UI.ret. io_step.
    rewrite Ha. cbv iota beta. change (0 =? 0)%Z with true. cbv iota.
    unfold UI.bind. io_step. now rewrite <- !app_assoc.
Qed.

End UIFacts.

(** ** The further properties on sample stores and sessions *)

Module Instances.
Import Sample Session.

Lemma loaded_ann_bob :
  loadUsers (disk_of [ann; bob]) = Some (Ok [ann; bob], disk_of [ann; bob]).
Proof. vm_compute. reflexivity. Qed.

Lemma in_ann_bob (u : User) : u ∈ [ann; bob] -> u = ann \/ u = bob.
Proof.
  intros Hu. apply elem_of_cons in Hu as [-> | Hu]; [now left |].
  apply list_elem_of_singleton in Hu as ->. now right.
Qed.

Lemma other_address_cy (u : User) :
  u ∈ [ann; bob] ->
  @toLowerCase AsciiCase (email u) <> @toLowerCase AsciiCase (str "cy@x.com").
Proof.
  intros Hu. apply in_ann_bob in Hu as [-> | ->]; vm_compute; discriminate.
Qed.

Lemma has_u1 : has_id (str "u1") [ann; bob].
Proof. exists ann. split; [constructor | reflexivity]. Qed.

Lemma uuids_inj (i j : nat) : uuids i = uuids j -> i = j.
Proof.
  unfold uuids. intros Heq. apply (f_equal length) in Heq.
  rewrite !length_replicate in Heq. lia.
Qed.

Lemma uuids_fresh (i : nat) : ~ has_id (uuids i) [ann; bob].
Proof.
  intros (u & Hu & Hid). unfold uuids in Hid. cbn [replicate] in Hid.
  apply in_ann_bob in Hu as [-> | ->]; discriminate Hid.
Qed.

Lemma isValidEmail_shape_witness :
  isValidEmail (str "ann@x.com") = true /\
  trim (str "ann@x.com") = str "ann@x.com" /\
  Forall (fun c => is_space c = false) (str "ann@x.com") /\
  count_occ N.eq_dec (str "ann@x.com") 64 = 1%nat /\
  (5 <= length (str "ann@x.com"))%nat.
Proof.
  split; [reflexivity |]. apply isValidEmail_shape. reflexivity.
Defined.

Lemma loadUsers_footprint_witness :
  loadUsers no_file = Some (Ok [], disk_of []) /\
  loadUsers (disk_of []) = Some (Ok [], disk_of []).
Proof.
  assert (loadUsers no_file = Some (Ok [], disk_of [])) as Hl by reflexivity.
  split; [exact Hl |].
  destruct (loadUsers_footprint _ _ _ Hl) as [_ Hagain]. now apply Hagain.
Defined.

Lemma addUser_succeeds_witness :
  exists d2,
    @addUser AsciiCase (str "u9") (str "Cy") (str "cy@x.com") (Some 41%Z)
      (disk_of [ann; bob]) = Some (Ok cy, d2) /\
    DATA_FILE d2 = Content (JSON.stringify ([ann; bob] ++ [cy])) /\
    (safe_age cy -> listUsers d2 = Some (Ok ([ann; bob] ++ [cy]), d2)).
Proof.
  apply (@addUser_succeeds AsciiCase _ _ _ (str "u9") (str "Cy")
           (str "cy@x.com") (Some 41%Z) loaded_ann_bob);
    [reflexivity | exact other_address_cy | reflexivity].
Defined.

Lemma add_then_delete_witness :
  exists d3,
    deleteUser (id cy) (disk_of ([ann; bob] ++ [cy])) = Some (Ok true, d3) /\
    DATA_FILE d3 = Content (JSON.stringify [ann; bob]) /\
    listUsers d3 = Some (Ok [ann; bob], d3).
Proof.
  apply (@add_then_delete AsciiCase (disk_of [ann; bob]) _ _ [ann; bob]
           (str "u9") (str "Cy") (str "cy@x.com") (Some 41%Z) cy loaded_ann_bob).
  - rewrite Examples.has_id_existsb. vm_compute. discriminate.
  - vm_compute. reflexivity.
  - unfold safe_age, safe. cbn. lia.
Defined.

Lemma failed_operation_keeps_store_witness :
  @addUser AsciiCase (str "u9") (str "Cy") (str "ANN@x.com") None
    (disk_of [ann; bob]) = Some (Throw EmailExists, disk_of [ann; bob]) /\
  loadUsers (disk_of [ann; bob]) = Some (Ok [ann; bob], disk_of [ann; bob]).
Proof.
  assert (@addUser AsciiCase (str "u9") (str "Cy") (str "ANN@x.com") None
            (disk_of [ann; bob]) = Some (Throw EmailExists, disk_of [ann; bob]))
    as Ha by (vm_compute; reflexivity).
  split; [exact Ha |].
  destruct (@failed_operation_keeps_store AsciiCase _ _ (disk_of [ann; bob])
              _ EmailExists loaded_ann_bob) as (Hadd & _).
  now destruct (Hadd _ _ _ _ Ha).
Defined.

Lemma rejected_write_propagates_witness :
  write_error (read_only [ann; bob]) = Some EACCES /\
  deleteUser (str "u1") (read_only [ann; bob]) =
  Some (Throw (SystemError EACCES), read_only [ann; bob]).
Proof.
  split; [reflexivity |].
  assert (loadUsers (read_only [ann; bob]) =
          Some (Ok [ann; bob], read_only [ann; bob])) as Hl
    by (vm_compute; reflexivity).
  destruct (@rejected_write_propagates AsciiCase _ _ _ EACCES Hl eq_refl)
    as (_ & _ & _ & Hdel).
  exact (Hdel (str "u1") has_u1).
Defined.

Lemma updateUser_succeeds_witness :
  exists idx old d2,
    [ann; bob] !! idx = Some old /\ id old = str "u1" /\
    (forall j u, (j < idx)%nat -> [ann; bob] !! j = Some u -> id u <> str "u1") /\
    @updateUser AsciiCase (str "u1") (only_age 31) (disk_of [ann; bob]) =
    Some (Ok (spread old (only_age 31)), d2) /\
    DATA_FILE d2 =
      Content (JSON.stringify (<[idx := spread old (only_age 31)]> [ann; bob])).
Proof.
  apply (@updateUser_succeeds AsciiCase _ _ _ (str "u1") (only_age 31)
           loaded_ann_bob has_u1); [| reflexivity].
  intros e He. discriminate He.
Defined.

Lemma updateUser_own_address_witness :
  exists r d2,
    @updateUser AsciiCase (id ann) (only_email (str "Ann@X.com"))
      (disk_of [ann; bob]) = Some (Ok r, d2) /\
    email r = str "Ann@X.com".
Proof.
  destruct (@updateUser_own_address AsciiCase _ _ [ann; bob] ann
              (only_email (str "Ann@X.com")) (str "Ann@X.com") loaded_ann_bob)
    as [Hok _]; try reflexivity.
  - apply Examples.store_ok_ann_bob.
  - constructor.
  - now apply Hok.
Defined.

Lemma deleteUser_twice_witness :
  exists d2,
    deleteUser (str "u1") (disk_of [ann; bob]) = Some (Ok true, d2) /\
    deleteUser (str "u1") d2 = Some (Throw DeleteNotFound, d2) /\
    kind_of DeleteNotFound = NotFoundError.
Proof.
  exact (deleteUser_twice _ _ _ (str "u1") loaded_ann_bob has_u1 eq_refl).
Defined.

Lemma searchUsers_finds_witness :
  exists found,
    @searchUsers AsciiCase (email ann) (disk_of [ann; bob]) =
    Some (Ok found, disk_of [ann; bob]) /\ ann ∈ found.
Proof.
  destruct (@searchUsers_finds AsciiCase _ _ [ann; bob] ann loaded_ann_bob)
    as [_ Hemail]; [constructor |].
  now apply Hemail.
Defined.

Lemma handleAdd_succeeds_witness :
  exists d2,
    @handleAdd AsciiCase (str "u9") (str " Cy ") (str " cy@x.com ") (str "41")
      (disk_of [ann; bob]) = Some (Ok (Ok cy), d2) /\
    listUsers d2 = Some (Ok ([ann; bob] ++ [cy]), d2).
Proof.
  apply (@handleAdd_succeeds AsciiCase _ _ [ann; bob] (str "u9") (str " Cy ")
           (str " cy@x.com ") (str "41") (Some 41%Z) loaded_ann_bob);
    try (vm_compute; reflexivity).
  - vm_compute. discriminate.
  - exact other_address_cy.
Defined.

Lemma handleUpdate_blank_keeps_witness :
  exists old,
    old ∈ [ann; bob] /\ id old = trim (str "u1") /\
    age (spread ann (only_age 31)) = Some 31%Z /\
    name (spread ann (only_age 31)) = name old.
Proof.
  assert (@handleUpdate AsciiCase (str "u1") [] (str "  ") (str "31")
            (disk_of [ann; bob]) =
          Some (Ok (Ok (Some (spread ann (only_age 31)))),
                disk_of [spread ann (only_age 31); bob])) as Hu
    by (vm_compute; reflexivity).
  destruct (@handleUpdate_blank_keeps AsciiCase _ _ _ _ _ _ _ _ _
              loaded_ann_bob Hu) as (old & Ho & Hi & _ & Hn & _).
  exists old. split; [exact Ho |]. split; [exact Hi |].
  split; [reflexivity | exact Hn].
Defined.

Lemma handleUpdate_nothing_to_change_witness :
  @handleUpdate AsciiCase (str "u1") [] (str " ") [] no_file =
  Some (Ok (Ok None), no_file).
Proof.
  apply (@handleUpdate_nothing_to_change AsciiCase);
    [vm_compute; discriminate | reflexivity | reflexivity | reflexivity].
Defined.

Lemma draft_loaded_ann_bob :
  Draft.loadUsers (disk_of [ann; bob]) = Some (Ok [ann; bob], disk_of [ann; bob]).
Proof. vm_compute. reflexivity. Qed.

Lemma draft_unchecked_witness :
  Draft.addUser (str "u3") (str "Eve") (str "eve") None (disk_of [ann; bob]) =
  Some (Ok eve, disk_of ([ann; bob] ++ [eve])) /\
  Draft.updateUser (str "u1") (only_email (str "bob@x.com"))
    (disk_of [ann; twin; bob]) =
  Some (Ok (spread ann (only_email (str "bob@x.com"))),
        disk_of (<[0%nat := spread ann (only_email (str "bob@x.com"))]>
                   [ann; twin; bob])).
Proof.
  split.
  - destruct (DraftFacts.draft_unchecked _ _ _ draft_loaded_ann_bob eq_refl)
      as [Hadd _].
    exact (Hadd (str "u3") (str "Eve") (str "eve") None).
  - assert (Draft.loadUsers (disk_of [ann; twin; bob]) =
            Some (Ok [ann; twin; bob], disk_of [ann; twin; bob])) as Hl
      by (vm_compute; reflexivity).
    destruct (DraftFacts.draft_unchecked _ _ _ Hl eq_refl) as [_ Hupd].
    destruct (Hupd (str "u1") (only_email (str "bob@x.com")))
      as (idx & old & Ho & _ & Hfirst & Hu).
    + exists ann. split; [constructor | reflexivity].
    + assert (idx = 0%nat) as ->.
      { destruct idx as [|idx]; [reflexivity |].
        now elim (Hfirst 0%nat ann (Nat.lt_0_succ idx) eq_refl). }
      injection Ho as <-. exact Hu.
Defined.

Lemma draft_silent_loss_witness :
  Draft.deleteUser (str "u1") (read_only [ann; bob]) =
  Some (Ok true, read_only [ann; bob]) /\
  Draft.loadUsers (read_only [ann; bob]) =
  Some (Ok [ann; bob], read_only [ann; bob]).
Proof.
  assert (Draft.loadUsers (read_only [ann; bob]) =
          Some (Ok [ann; bob], read_only [ann; bob])) as Hl
    by (vm_compute; reflexivity).
  destruct (DraftFacts.draft_silent_loss _ _ _ EACCES Hl eq_refl)
    as (_ & _ & Hdel & Hagain).
  split; [exact (Hdel (str "u1") has_u1) | exact Hagain].
Defined.

Lemma draft_searchUsers_spec_witness :
  exists result,
    @Draft.searchUsers AsciiCase (str "u2") (disk_of [ann; bob]) =
    Some (Ok result, disk_of [ann; bob]) /\
    (trim (str "u2") <> [] -> bob ∈ [ann; bob] /\ ~ bob ∈ result).
Proof.
  destruct (@DraftFacts.draft_searchUsers_spec AsciiCase _ _ _ (str "u2")
              draft_loaded_ann_bob) as (result & Hrun & _ & Hsel).
  exists result. split; [exact Hrun |]. intros Hk.
  split; [right; constructor |]. intros Hin.
  apply (select_elem_of _ _ _ (Hsel Hk)) in Hin as [_ [Hn | He]];
    apply includes_spec in Hn || apply includes_spec in He;
    vm_compute in *; discriminate.
Defined.

Lemma mainMenu_invalid_choice_witness :
  UI.mainMenu (H := AsciiCase) (typed [str " 9 "]) uuids (start no_file) =
  Some (UI.Value tt,
        {| UI.files := no_file; UI.asked := 1; UI.issued := 0;
           UI.stdout :=
             [] ++ UI.menu ++
             [UI.Question (text "Chọn: ");
              UI.Log (text "Lựa chọn không hợp lệ.")] |}).
Proof.
  apply (@UIFacts.mainMenu_invalid_choice AsciiCase (typed [str " 9 "]) uuids
           (start no_file)); vm_compute; discriminate.
Defined.

Lemma mainMenu_exit_witness :
  UI.program (H := AsciiCase) (typed [str " 0 "]) uuids 3 (start no_file) =
  Some (UI.Exit 0,
        {| UI.files := no_file; UI.asked := 1; UI.issued := 0;
           UI.stdout :=
             [] ++ UI.menu ++
             [UI.Question (text "Chọn: "); UI.Log (text "Tạm biệt!")] |}).
Proof.
  apply (@UIFacts.mainMenu_exit AsciiCase (typed [str " 0 "]) uuids
           (start no_file) 2). reflexivity.
Defined.

Lemma read_only_choices_witness :
  exists r w',
    UI.mainMenu (H := AsciiCase) (typed [str "4"; str "ann"]) uuids
      (start (disk_of [ann; bob])) = Some (r, w') /\
    (UI.files w' = disk_of [ann; bob] \/
     (DATA_FILE (disk_of [ann; bob]) = Missing /\
      UI.files w' = {| DATA_FILE := Content (str "[]"); write_error := None |})) /\
    UI.issued w' = 0%nat.
Proof.
  eexists _, _. split; [vm_compute; reflexivity |].
  apply (@UIFacts.read_only_choices AsciiCase (typed [str "4"; str "ann"])
           uuids (start (disk_of [ann; bob])) _ (UI.Value tt));
    [left; reflexivity | vm_compute; reflexivity].
Defined.

Lemma unloadable_file_witness :
  loadUsers damaged = Some (Throw SyntaxError, damaged) /\
  UI.program (H := AsciiCase) (typed [str "5"]) uuids 1 (start damaged) =
  Some (UI.Exit 1,
        {| UI.files := damaged; UI.asked := 1; UI.issued := 0;
           UI.stdout :=
             [] ++ UI.menu ++
             [UI.Question (text "Chọn: "); UI.Uncaught SyntaxError] |}).
Proof.
  assert (loadUsers damaged = Some (Throw SyntaxError, damaged)) as Hl
    by (vm_compute; reflexivity).
  split; [exact Hl |].
  destruct (@UIFacts.unloadable_file AsciiCase (typed [str "5"]) uuids
              (start damaged) _ _ Hl) as [Hfive _].
  exact (Hfive eq_refl 0%nat).
Defined.

Lemma session_keeps_invariant_witness :
  exists r w' users',
    UI.program (H := AsciiCase)
      (typed [str "1"; str "Cy"; str "cy@x.com"; str "41";
              str "3"; str "u1"; str "0"]) uuids 5
      (start (disk_of [ann; bob])) = Some (r, w') /\
    (r = UI.Value tt \/ r = UI.Exit 0) /\
    stored (UI.files w') users' /\ @store_ok AsciiCase users' /\
    Forall valid_User users'.
Proof.
  apply UIFacts.session_keeps_invariant with (users := [ann; bob]).
  - exists (disk_of [ann; bob]). exact loaded_ann_bob.
  - exact Examples.store_ok_ann_bob.
  - constructor; [exact Examples.valid_ann |].
    constructor; [exact Examples.valid_bob | constructor].
  - exact uuids_inj.
  - intros i _. apply uuids_fresh.
Defined.


Lemma displayed_records_witness :
  UI.mainMenu (H := AsciiCase) (typed [str "5"]) uuids
    (start (disk_of [ann; bob])) =
  Some (UI.Value tt,
        {| UI.files := disk_of [ann; bob]; UI.asked := 1; UI.issued := 0;
           UI.stdout :=
             [] ++ UI.menu ++
             UI.Question (text "Chọn: ") :: UI.display [ann; bob] |}).
Proof.
  destruct (@UIFacts.displayed_records AsciiCase (typed [str "5"]) uuids
              (start (disk_of [ann; bob])) _ _ loaded_ann_bob) as [_ Hlist].
  exact (Hlist eq_refl).
Defined.

Lemma round_bounds_witness :
  exists r w',
    UI.mainMenu (H := AsciiCase)
      (typed [str "1"; str "Cy"; str "cy@x.com"; str "41"]) uuids
      (start (disk_of [ann; bob])) = Some (r, w') /\
    (1 <= UI.asked w' <= 5)%nat /\ (0 <= UI.issued w' <= 1)%nat /\
    exists out, UI.stdout w' = [] ++ out.
Proof.
  eexists _, _. split; [vm_compute; reflexivity |].
  apply (@UIFacts.round_bounds AsciiCase
           (typed [str "1"; str "Cy"; str "cy@x.com"; str "41"]) uuids
           (start (disk_of [ann; bob])) _ (UI.Value tt)).
  vm_compute. reflexivity.
Defined.

Lemma printUsers_age_zero_witness :
  exists out,
    DraftUI.printUsers [kid] (start no_file) =
    Some (UI.Value tt,
          {| UI.files := no_file; UI.asked := 0; UI.issued := 0;
             UI.stdout := [] ++ out |}) /\
    UI.Log (text "- Kid - <kid@x.com> (ID: u4) - Age not specified") ∈ out.
Proof.
  destruct (UIFacts.printUsers_age_zero kid (start no_file) eq_refl)
    as [_ Hdraft].
  eexists. split; [exact Hdraft |]. right. left.
Defined.

Lemma actions_report_witness :
  exists w',
    UI.handleDelete (typed [str " u1 "]) (start (disk_of [ann; bob])) =
    Some (UI.Value tt, w') /\
    ((exists e, wrote (start (disk_of [ann; bob])) w' [UI.Caught e] /\
                stored (UI.files w') [ann; bob]) \/
     (wrote (start (disk_of [ann; bob])) w' [UI.Log (text "🗑️  Đã xoá user.")] /\
      has_id (trim (str " u1 ")) [ann; bob] /\
      stored (UI.files w')
        (List.filter (fun u => negb (str_eqb (id u) (trim (str " u1 "))))
           [ann; bob]))).
Proof.
  destruct (@UIFacts.actions_report AsciiCase (typed [str " u1 "]) uuids
              (start (disk_of [ann; bob])) [ann; bob]) as (_ & _ & Hdel).
  - exists (disk_of [ann; bob]). exact loaded_ann_bob.
  - exact Hdel.
Defined.

End Instances.
